(** * Policy-position crawler: a shallow embedding and its verification

    The development embeds the crawling and classification pipeline of
    [scripts/policy-position-crawler.js] (class [PolicyPositionCrawler]) and
    proves the properties its specification states about it.

    Conventions of the embedding.
    - A JavaScript string is a [string]; its characters are read as code
      units below 256, so [length] is the JavaScript [length].
    - A method that can throw returns a [result]; the asynchronous methods,
      which also touch the clock, the network and the database, live in the
      monad [M].
    - A JavaScript number that holds a count is a [nat] or a [Z]; a
      confidence is a rational [Q].  The confidences the code computes are
      sums of small decimal constants compared against [0.2], [0.7] and
      [0.9]; the embedding evaluates those expressions exactly, and the
      module [Doubles] evaluates them as the machine does, so that the two
      can be compared (they differ by rounding, never by a decision).
    - The libraries the class calls (cheerio, the WHATWG [URL] parser, the
      http client, SQLite) are not part of the repository: a parsed page is
      the data the queries of the code return on it, the URL parser is a
      class [Platform] field, the network is a script of request outcomes,
      and a table is the list of its rows in insertion order. *)

From Stdlib Require Import String Ascii List ZArith QArith Qminmax Bool Lia Arith.
From Stdlib Require Import Permutation Sorted.
From Stdlib Require Import Numbers.DecimalString.
From Stdlib Require Import Lqa Qabs.
From Stdlib Require Floats Uint63.
Import ListNotations.

Set Implicit Arguments.
Close Scope Q_scope.
Open Scope string_scope.
Open Scope list_scope.
Open Scope nat_scope.

(* ================================================================== *)
(** * Part I: the embedding *)
(* ================================================================== *)

(** ** JavaScript primitives used by the crawler *)

Module JS.

(** Exceptions: the constructor that built the error and its [message]. *)
Inductive Exn : Type :=
| TypeError (msg : string)
| Error (msg : string).

Definition message (e : Exn) : string :=
  match e with
  | TypeError m => m
  | Error m => m
  end.

(** Outcome of a synchronous call. *)
Inductive result (A : Type) : Type :=
| Ok (a : A)
| Throw (e : Exn).
Arguments Ok {A} a.
Arguments Throw {A} e.

Definition bind {A B} (r : result A) (k : A -> result B) : result B :=
  match r with
  | Ok a => k a
  | Throw e => Throw e
  end.

(** Reading property [key] of [undefined] (the message V8 gives). *)
Definition readOfUndefined (key : string) : Exn :=
  TypeError ("Cannot read properties of undefined (reading '" ++ key ++ "')")%string.

(** [Array.prototype.forEach] with a callback that updates the captured
    variables [s] and may throw: the first exception ends the loop. *)
Fixpoint forEach {A S} (l : list A) (s : S) (f : S -> A -> result S)
  : result S :=
  match l with
  | [] => Ok s
  | x :: l' => bind (f s x) (fun s' => forEach l' s' f)
  end.

(** *** Characters *)

Definition code (c : ascii) : nat := nat_of_ascii c.

(** White space and line terminators that [trim] strips. *)
Definition isWhiteSpace (c : ascii) : bool :=
  let n := code c in
  ((9 <=? n) && (n <=? 13)) || (n =? 32) || (n =? 160).

Definition lowerChar (c : ascii) : ascii :=
  let n := code c in
  if ((65 <=? n) && (n <=? 90))
     || ((192 <=? n) && (n <=? 222) && negb (n =? 215))
  then ascii_of_nat (n + 32)
  else c.

(** *** Strings *)

Fixpoint toLowerCase (s : string) : string :=
  match s with
  | EmptyString => EmptyString
  | String c s' => String (lowerChar c) (toLowerCase s')
  end.

Fixpoint trimStart (s : string) : string :=
  match s with
  | EmptyString => EmptyString
  | String c s' => if isWhiteSpace c then trimStart s' else s
  end.

Fixpoint trimEnd (s : string) : string :=
  match s with
  | EmptyString => EmptyString
  | String c s' =>
      match trimEnd s' with
      | EmptyString => if isWhiteSpace c then EmptyString else String c EmptyString
      | t => String c t
      end
  end.

Definition trim (s : string) : string := trimEnd (trimStart s).

Definition startsWith (s pre : string) : bool := prefix pre s.

(** [s.includes(sub)]. *)
Fixpoint includes (s sub : string) : bool :=
  prefix sub s ||
  match s with
  | EmptyString => false
  | String _ s' => includes s' sub
  end.

(** [s.substring(0, n)]. *)
Definition substring0 (n : nat) (s : string) : string := substring 0 n s.

(** [l.join(sep)]. *)
Fixpoint join (sep : string) (l : list string) : string :=
  match l with
  | [] => ""
  | [x] => x
  | x :: l' => (x ++ sep ++ join sep l')%string
  end.

(** [s.split(/[.!?]+/)]: the pieces between maximal runs of the three
    sentence terminators.  [inRun] says that the previous character was a
    terminator, so that a further one closes no new piece. *)
Definition isTerminator (c : ascii) : bool :=
  let n := code c in (n =? 46) || (n =? 33) || (n =? 63).

Fixpoint splitFrom (inRun : bool) (s : string) : list string :=
  match s with
  | EmptyString => [""]
  | String c s' =>
      if isTerminator c then
        if inRun then splitFrom true s' else "" :: splitFrom true s'
      else
        match splitFrom false s' with
        | piece :: rest => String c piece :: rest
        | [] => [String c ""]
        end
  end.

Definition splitSentences (s : string) : list string := splitFrom false s.

(** *** Arrays *)

(** [l.some(p)] is [existsb p l], [l.filter(p)] is [filter p l] and
    [l.slice(0, n)] is [firstn n l]. *)

(** [l.findIndex(p)], with [None] for [-1]. *)
Fixpoint findIndex {A} (p : A -> bool) (l : list A) : option nat :=
  match l with
  | [] => None
  | x :: l' => if p x then Some 0 else option_map S (findIndex p l')
  end.

(** [l.filter((x, index, self) => p x index self)]. *)
Definition filterIndexed {A} (p : A -> nat -> list A -> bool) (l : list A)
  : list A :=
  map fst (filter (fun xi => p (fst xi) (snd xi) l)
                  (combine l (seq 0 (List.length l)))).

(** [l.sort(cmp)] for a comparator given through the order [le] it
    induces ([le a b] when [cmp(a, b) <= 0]).  The sort of the language is
    stable: elements that compare equal keep their relative order. *)
Fixpoint insertSorted {A} (le : A -> A -> bool) (x : A) (l : list A) : list A :=
  match l with
  | [] => [x]
  | y :: l' => if le x y then x :: l else y :: insertSorted le x l'
  end.

Fixpoint sort {A} (le : A -> A -> bool) (l : list A) : list A :=
  match l with
  | [] => []
  | x :: l' => insertSorted le x (sort le l')
  end.

(** Decimal rendering of an integer in a template string. *)
Definition showZ (z : Z) : string := NilZero.string_of_int (Z.to_int z).

End JS.
Import JS.

Notation "x <- c1 ;; c2" := (JS.bind c1 (fun x => c2))
  (at level 61, c1 at next level, right associativity).

(** ** Data model *)

(** A row of [policy_topics] joined with one of its [topic_aliases], as the
    query of [identifyTopics] returns it. *)
Record TopicAliasRow : Type := {
  row_id : Z;
  row_canonical_name : string;
  row_display_name : string;
  row_alias : string;
  row_confidence_score : Q
}.

(** A topic as the classifier carries it. *)
Record Topic : Type := {
  id : Z;
  canonical_name : string;
  display_name : string;
  t_confidence : Q
}.

(** The result of [analyzePosition]. *)
Record Analysis : Type := {
  position : string;
  confidence : Q;
  strength : string;
  supportScore : nat;
  opposeScore : nat;
  keyPhrases : list string
}.

(** ** Stance analyzer *)

(** [this.coreTopics]: the constructor never assigns the property, so on
    every crawler it builds the property is [undefined] ([None]).  An
    assigned property is an object from topic names to keyword arrays. *)
Definition CoreTopics : Type := option (list (string * list string)).

Fixpoint lookup {V} (key : string) (o : list (string * V)) : option V :=
  match o with
  | [] => None
  | (k, v) :: o' => if String.eqb k key then Some v else lookup key o'
  end.

(** [o[key]] on an object written as a literal.  Such an object inherits
    from [Object.prototype]: for a key that is not its own but names one of
    the inherited properties, the lookup yields a function or an object, a
    truthy value that is none of the values the literal holds. *)
Definition objectPrototypeKeys : list string :=
  [ "constructor"; "__proto__"; "hasOwnProperty"; "isPrototypeOf";
    "propertyIsEnumerable"; "toLocaleString"; "toString"; "valueOf";
    "__defineGetter__"; "__defineSetter__"; "__lookupGetter__";
    "__lookupSetter__" ].

Inductive Property (V : Type) : Type :=
| Own (v : V)
| Inherited
| Absent.
Arguments Own {V} v.
Arguments Inherited {V}.
Arguments Absent {V}.

Definition getProperty {V} (o : list (string * V)) (key : string) : Property V :=
  match lookup key o with
  | Some v => Own v
  | None =>
      if existsb (String.eqb key) objectPrototypeKeys then Inherited else Absent
  end.

(** Calling [some] on a value that has no such method. *)
Definition someIsNotAFunction : Exn := TypeError "some is not a function".

Record TopicIndicators : Type := {
  support : list string;
  oppose : list string
}.

Definition indicators : list (string * TopicIndicators) :=
  [ ("healthcare",
     {| support := ["expand medicare"; "public option"; "affordable healthcare";
                    "protect aca"; "universal healthcare"];
        oppose := ["repeal obamacare"; "privatize medicare"; "cut medicaid";
                   "block healthcare"] |});
    ("immigration",
     {| support := ["path to citizenship"; "comprehensive reform";
                    "protect dreamers"; "family reunification"];
        oppose := ["build wall"; "mass deportation"; "close borders";
                   "end immigration"] |});
    ("economy",
     {| support := ["create jobs"; "raise minimum wage";
                    "invest in infrastructure"; "support small business"];
        oppose := ["cut taxes for wealthy"; "reduce regulations";
                   "austerity measures"] |});
    ("environment",
     {| support := ["combat climate change"; "clean energy"; "paris agreement";
                    "green new deal"];
        oppose := ["drill for oil"; "coal industry"; "climate denial";
                   "deregulation"] |});
    ("education",
     {| support := ["fund public schools"; "affordable college";
                    "support teachers"; "increase education"];
        oppose := ["school vouchers"; "privatize education";
                   "cut education funding"] |}) ].

(** [indicators[topic.toLowerCase()] || null]: the lexicon of the topic,
    [null] ([Absent]) for a topic without one, and for the topic names
    [constructor] and [__proto__] an inherited value that has no [support]
    or [oppose] list. *)
Definition getTopicIndicators (topic : string) : Property TopicIndicators :=
  getProperty indicators (toLowerCase topic).

Definition supportIndicators : list string :=
  [ "support"; "back"; "endorse"; "champion"; "advocate";
    "believe in"; "committed to"; "will fight for"; "dedicated to";
    "promote"; "expand"; "strengthen"; "increase"; "improve";
    "invest in"; "fund"; "prioritize"; "defend"; "protect";
    "yes on"; "vote for"; "in favor of"; "agree with" ].

Definition opposeIndicators : list string :=
  [ "oppose"; "against"; "reject"; "block"; "stop"; "prevent";
    "cut"; "reduce"; "eliminate"; "repeal"; "defund";
    "no on"; "vote against"; "disagree with"; "resist" ].

Definition strongIndicators : list string :=
  [ "strongly"; "firmly"; "absolutely"; "completely"; "fully";
    "always"; "never"; "must"; "will"; "committed"; "dedicated";
    "priority"; "essential"; "critical"; "vital"; "fundamental" ].

(** [lex.filter(indicator => lowerText.includes(indicator)).length]. *)
Definition hits (lex : list string) (lowerText : string) : nat :=
  List.length (filter (fun indicator => includes lowerText indicator) lex).

(** The sentences both [extractKeyPhrases] and [extractPositionSummary]
    work on: [text.split(/[.!?]+/).filter(s => s.trim().length > 20)]. *)
Definition longSentences (text : string) : list string :=
  filter (fun s => 20 <? String.length (trim s)) (splitSentences text).

Definition extractKeyPhrases (coreTopics : CoreTopics) (text topic position : string)
  : result (list string) :=
  let sentences := longSentences text in
  let positionWords :=
    if String.eqb position "support"
    then ["support"; "advocate"; "believe"; "committed"; "will fight"]
    else ["oppose"; "against"; "reject"; "block"; "stop"] in
  keyPhrases <-
    forEach sentences [] (fun keyPhrases sentence =>
      let lowerSentence := toLowerCase sentence in
      hasTopicKeyword <-
        match coreTopics with
        | None => Throw (readOfUndefined topic)
        | Some table =>
            match getProperty table topic with
            | Own keywords =>
                Ok (existsb (fun keyword =>
                               includes lowerSentence (toLowerCase keyword))
                            keywords
                    || includes lowerSentence (toLowerCase topic))
            | Inherited => Throw someIsNotAFunction
            | Absent => Ok (includes lowerSentence (toLowerCase topic))
            end
        end ;;
      let hasPositionIndicator :=
        existsb (fun word => includes lowerSentence word) positionWords in
      if hasTopicKeyword && hasPositionIndicator
         && (String.length (trim sentence) <? 200)
      then Ok (keyPhrases ++ [trim sentence])
      else Ok keyPhrases) ;;
  Ok (firstn 3 keyPhrases).

(** The scores of a text for a topic, after the topic-specific bonus. *)
Definition scoreSupport (lowerText : string) (ti : option TopicIndicators) : nat :=
  hits supportIndicators lowerText
  + match ti with Some t => hits (support t) lowerText | None => 0 end.

Definition scoreOppose (lowerText : string) (ti : option TopicIndicators) : nat :=
  hits opposeIndicators lowerText
  + match ti with Some t => hits (oppose t) lowerText | None => 0 end.

Definition scoreStrength (lowerText : string) : nat :=
  hits strongIndicators lowerText.

Definition num (n : nat) : Q := inject_Z (Z.of_nat n).

(** The block "Determine position" of [analyzePosition].  The numbers of
    the crawler are doubles; the embedding carries a confidence as the
    rational its expression denotes, and [Doubles.determinePosition] below
    is the same block in the arithmetic of the machine.  The two are
    compared in Part II: on every score the lexicons can give they pick the
    same stance, the double is within 2^-52 of the rational, and the test
    [confidence > 0.2] has the same result on both. *)
Definition determinePosition (supportScore opposeScore strengthScore : nat)
  : string * Q :=
  if opposeScore <? supportScore then
    ("support",
     Qmin 0.9 (0.3 + num supportScore * 0.15 + num strengthScore * 0.1)%Q)
  else if supportScore <? opposeScore then
    ("oppose",
     Qmin 0.9 (0.3 + num opposeScore * 0.15 + num strengthScore * 0.1)%Q)
  else if (0 <? supportScore) || (0 <? opposeScore) then
    ("mixed", Qmin 0.7 (0.2 + num (supportScore + opposeScore) * 0.1)%Q)
  else
    ("neutral", 0.1%Q).

Definition analyzePosition (coreTopics : CoreTopics) (text topic : string)
  : result Analysis :=
  let lowerText := toLowerCase text in
  topicIndicators <-
    match getTopicIndicators topic with
    | Own ti => Ok (Some ti)
    | Absent => Ok None
    | Inherited => Throw (readOfUndefined "filter")
    end ;;
  let supportScore := scoreSupport lowerText topicIndicators in
  let opposeScore := scoreOppose lowerText topicIndicators in
  let strengthScore := scoreStrength lowerText in
  let '(position, confidence) :=
    determinePosition supportScore opposeScore strengthScore in
  keyPhrases <- extractKeyPhrases coreTopics text topic position ;;
  Ok {| position := position;
        confidence := confidence;
        strength := if 0 <? strengthScore then "strong" else "moderate";
        supportScore := supportScore;
        opposeScore := opposeScore;
        keyPhrases := keyPhrases |}.

(** *** The same block in doubles

    [Math.min] on two numbers that are not NaN, and the confidence
    expressions as JavaScript evaluates them: every literal is the double
    nearest to it, and every operation rounds to the nearest double. *)

Module Doubles.
Import Floats.
#[local] Set Warnings "-inexact-float".

(** A count as a number. *)
Definition double (n : nat) : float :=
  PrimFloat.of_uint63 (Uint63.of_Z (Z.of_nat n)).

Definition mathMin (a b : float) : float :=
  if PrimFloat.ltb b a then b else a.

Definition determinePosition (supportScore opposeScore strengthScore : nat)
  : string * float :=
  if opposeScore <? supportScore then
    ("support",
     mathMin 0.9 (0.3 + double supportScore * 0.15 + double strengthScore * 0.1)%float)
  else if supportScore <? opposeScore then
    ("oppose",
     mathMin 0.9 (0.3 + double opposeScore * 0.15 + double strengthScore * 0.1)%float)
  else if (0 <? supportScore) || (0 <? opposeScore) then
    ("mixed", mathMin 0.7 (0.2 + double (supportScore + opposeScore) * 0.1)%float)
  else
    ("neutral", 0.1%float).

(** [analysis.confidence > 0.2]. *)
Definition confident (confidence : float) : bool := PrimFloat.ltb 0.2 confidence.


End Doubles.


(** ** Parsed pages

    What the cheerio queries of the crawler return on a loaded document. *)

(** An element matched by a selector, with the values the code reads off it. *)
Record Element : Type := {
  el_tagName : string;                (* prop('tagName') *)
  el_class : option string;           (* attr('class') *)
  el_id : option string;              (* attr('id') *)
  el_title : option string;           (* attr('title') *)
  el_text : string;                   (* text() *)
  el_firstHeading : string;           (* find('h1, h2, h3').first().text() *)
  el_firstTitled : string;            (* find('[class*=title], [class*=heading]').first().text() *)
  el_found : list (string * nat)      (* find(indicator).length, where not 0 *)
}.

(** An anchor matched by [a[href]]. *)
Record Anchor : Type := {
  a_href : string;                    (* attr('href') *)
  a_text : string                     (* text() *)
}.

Record Page : Type := {
  matches : list (string * list Element);   (* $(selector), where not empty *)
  metaDescription : option string;          (* $('meta[name=description]').attr('content') *)
  pageTitle : string;                       (* $('title').text() *)
  anchors : list Anchor                     (* $('a[href]') *)
}.

Definition select (page : Page) (selector : string) : list Element :=
  match lookup selector (matches page) with
  | Some els => els
  | None => []
  end.

Definition findCount (e : Element) (indicator : string) : nat :=
  match lookup indicator (el_found e) with
  | Some n => n
  | None => 0
  end.

(** [v || ''] for an attribute that may be missing. *)
Definition orEmpty (v : option string) : string :=
  match v with
  | Some s => s
  | None => ""
  end.

(** [a || b] on strings: the empty string is falsy. *)
Definition orElse (a b : string) : string :=
  if String.eqb a "" then b else a.

(** ** Content extractor *)

Record Section : Type := {
  selector : string;
  title : string;
  text : string;
  isKeySection_ : bool;
  hasStructuredContent_ : bool
}.

(** The selectors, written without the quotes around attribute values. *)
Definition selectors : list string :=
  [ "main"; ".content"; "#content"; ".page-content"; ".main-content";
    ".entry-content"; ".post-content"; ".article-content";
    ".issues"; ".policy"; ".positions"; ".priorities"; ".agenda";
    ".platform"; ".legislation";
    "[id*=issue]"; "[class*=issue]"; "[id*=policy]"; "[class*=policy]";
    "[id*=position]"; "[class*=position]";
    "article"; ".field--name-body"; ".field-item"; ".paragraph";
    "section[class*=content]"; "div[class*=content]" ].

Definition structureIndicators : list string :=
  [ "ul"; "ol"; "li"; "h1"; "h2"; "h3"; "h4"; "p";
    ".policy-item"; ".issue-item"; ".position-item" ].

Definition hasStructuredContent (e : Element) : bool :=
  existsb (fun indicator => 2 <? findCount e indicator) structureIndicators.

Definition strongKeywords : list string :=
  [ "policy"; "position"; "stance"; "priority"; "agenda";
    "platform"; "issue"; "legislation"; "bill"; "vote";
    "support"; "oppose"; "believe"; "commitment" ].

Definition topicKeywords : list string :=
  [ "healthcare"; "insurance"; "medicare"; "medicaid";
    "immigration"; "border"; "citizenship"; "refugee";
    "economy"; "jobs"; "employment"; "tax"; "budget";
    "housing"; "affordable"; "homeless"; "rent";
    "education"; "school"; "student"; "teacher";
    "environment"; "climate"; "energy"; "pollution";
    "defense"; "military"; "security"; "veteran";
    "rights"; "equality"; "justice"; "freedom";
    "criminal"; "police"; "reform"; "prison";
    "social security"; "retirement"; "disability";
    "technology"; "internet"; "privacy"; "data" ].

Definition isKeySection (e : Element) : bool :=
  let text := toLowerCase (el_text e) in
  let className := orEmpty (el_class e) in
  let id := orEmpty (el_id e) in
  let tag := toLowerCase (el_tagName e) in
  let attrText := toLowerCase (className ++ " " ++ id)%string in
  if existsb (fun keyword => includes attrText keyword) strongKeywords then true
  else if String.eqb tag "main"
          || includes className "main"
          || includes className "primary"
          || includes id "main"
          || includes id "content" then true
  else
    let strongMatches := hits strongKeywords text in
    let topicMatches := hits topicKeywords text in
    let score := strongMatches * 2 + topicMatches in
    (3 <=? score)
    || ((1 <=? strongMatches) && (2 <=? topicMatches))
    || includes text "i believe"
    || includes text "my position"
    || includes text "will fight for"
    || includes text "committed to"
    || includes text "plan to".

(** The body of the [each] callback: the section an element yields, if its
    trimmed text passes the length test. *)
Definition sectionOfElement (selector : string) (e : Element) : option Section :=
  let text := trim (el_text e) in
  if (100 <? String.length text) && (String.length text <? 5000) then
    let title :=
      orElse (trim (el_firstHeading e))
        (orElse (orEmpty (el_title e))
           (orElse (trim (el_firstTitled e)) "")) in
    Some {| selector := selector;
            title := title;
            text := substring0 3000 text;
            isKeySection_ := isKeySection e;
            hasStructuredContent_ := hasStructuredContent e |}
  else None.

Definition optList {A} (o : option A) : list A :=
  match o with
  | Some a => [a]
  | None => []
  end.

(** The section built from the meta description, if it is long enough. *)
Definition metaSection (page : Page) : option Section :=
  match metaDescription page with
  | Some d =>
      if negb (String.eqb d "") && (50 <? String.length d) then
        Some {| selector := "meta[description]";
                title := trim (pageTitle page);
                text := d;
                isKeySection_ := true;
                hasStructuredContent_ := false |}
      else None
  | None => None
  end.

(** [sections] before the final filter, sort and slice. *)
Definition candidateSections (page : Page) : list Section :=
  flat_map (fun selector =>
              flat_map (fun e => optList (sectionOfElement selector e))
                       (select page selector))
           selectors
  ++ optList (metaSection page).

Definition head200 (s : Section) : string := substring0 200 (text s).

Definition sectionScore (s : Section) : nat :=
  (if isKeySection_ s then 2 else 0) + (if hasStructuredContent_ s then 1 else 0).

(** [a] may stay before [b]: the comparator [scoreB - scoreA] is not positive. *)
Definition scoreOrder (a b : Section) : bool := sectionScore b <=? sectionScore a.

(** The filter both extractors use to drop duplicates,
    [index === self.findIndex(s => key(s) === key(x))]. *)
Definition isFirstBy {A} (key : A -> string) (x : A) (index : nat) (self : list A)
  : bool :=
  match findIndex (fun s => String.eqb (key s) (key x)) self with
  | Some i => index =? i
  | None => false
  end.

Definition findContentSections (page : Page) : list Section :=
  firstn 15 (sort scoreOrder (filterIndexed (isFirstBy head200) (candidateSections page))).

(** ** The database

    One list per table, rows in insertion order.  A table with an
    [AUTOINCREMENT] key carries the last key it handed out.  Of the
    constraints of the schema the embedding has the [UNIQUE] and [NOT NULL]
    ones a statement of the crawler can meet, and the two foreign keys of
    [politician_positions], which [savePosition] checks on the arguments it
    is given.  The foreign keys of [topic_aliases] and of [crawl_log] are
    not checked: the seeding writes the key of the topic row it has just
    read, and both crawls log under the id of a row they have read from
    [politicians], nothing being deleted from either table. *)

Record Politician : Type := {
  p_id : string;
  p_name : string;
  p_party : string;
  p_state : string;
  p_chamber : string;
  p_website : option string
}.

Record TopicRow : Type := {
  topic_id : Z;
  topic_canonical_name : string;
  topic_display_name : string;
  topic_description : string
}.

Record AliasRow : Type := {
  alias_topic_id : Z;
  alias : string;
  alias_confidence_score : Q
}.

Record PositionRow : Type := {
  pos_id : Z;
  pos_politician_id : string;
  pos_topic_id : Z;
  pos_position_summary : string;
  pos_position_details : string;
  pos_is_key_issue : Z;
  pos_source_url : string;
  pos_source_section : string;
  pos_confidence_score : Q;
  pos_stance : string;
  pos_strength : string;
  pos_key_phrases : string;
  pos_last_updated : Z;
  pos_created_at : Z
}.

Record CrawlLogRow : Type := {
  log_politician_id : string;
  log_website_url : string;
  log_crawl_status : string;
  log_positions_found : Z;
  log_error_message : option string;
  log_crawl_duration_ms : Z;
  log_crawled_at : Z                  (* seconds, as CURRENT_TIMESTAMP has them *)
}.

Record Database : Type := {
  politicians : list Politician;
  policy_topics : list TopicRow;
  topic_aliases : list AliasRow;
  politician_positions : list PositionRow;
  crawl_log : list CrawlLogRow;
  last_topic_id : Z;
  last_position_id : Z
}.

Definition emptyDatabase : Database :=
  {| politicians := [];
     policy_topics := [];
     topic_aliases := [];
     politician_positions := [];
     crawl_log := [];
     last_topic_id := 0;
     last_position_id := 0 |}.

(** ** Taxonomy store *)

Record CoreTopic : Type := {
  ct_canonical_name : string;
  ct_display_name : string;
  ct_description : string;
  ct_aliases : list string
}.

Definition coreTopicsSeed : list CoreTopic :=
  [ {| ct_canonical_name := "healthcare"; ct_display_name := "Healthcare";
       ct_description := "Healthcare policy, insurance, medical access, public health";
       ct_aliases := ["health"; "medical"; "medicine"; "insurance"; "medicare";
                      "medicaid"; "aca"; "obamacare"; "affordable care act"] |};
    {| ct_canonical_name := "immigration"; ct_display_name := "Immigration";
       ct_description := "Immigration policy, border security, asylum, citizenship";
       ct_aliases := ["border"; "asylum"; "citizenship"; "daca"; "refugees";
                      "visa"; "deportation"] |};
    {| ct_canonical_name := "economy"; ct_display_name := "Economy";
       ct_description := "Economic policy, jobs, trade, fiscal policy";
       ct_aliases := ["jobs"; "employment"; "trade"; "commerce"; "business";
                      "fiscal"; "economic"; "gdp"; "recession"] |};
    {| ct_canonical_name := "housing"; ct_display_name := "Housing";
       ct_description := "Housing affordability, homeownership, rental policy";
       ct_aliases := ["affordable housing"; "homeownership"; "rental"; "mortgage";
                      "real estate"; "homelessness"] |};
    {| ct_canonical_name := "education"; ct_display_name := "Education";
       ct_description := "Education policy, schools, student loans, higher education";
       ct_aliases := ["schools"; "students"; "teachers"; "college"; "university";
                      "student loans"; "education funding"] |};
    {| ct_canonical_name := "environment"; ct_display_name := "Environment";
       ct_description := "Environmental protection, climate change, clean energy";
       ct_aliases := ["climate"; "clean energy"; "renewable energy"; "pollution";
                      "conservation"; "green new deal"; "carbon"] |};
    {| ct_canonical_name := "defense"; ct_display_name := "National Defense";
       ct_description := "National security, military, veterans affairs";
       ct_aliases := ["military"; "veterans"; "national security"; "armed forces";
                      "defense spending"; "pentagon"] |};
    {| ct_canonical_name := "civil_rights"; ct_display_name := "Civil Rights";
       ct_description := "Civil rights, voting rights, equality, discrimination";
       ct_aliases := ["voting rights"; "equality"; "discrimination"; "lgbtq";
                      "racial justice"; "civil liberties"] |};
    {| ct_canonical_name := "criminal_justice"; ct_display_name := "Criminal Justice";
       ct_description := "Law enforcement, prison reform, criminal justice reform";
       ct_aliases := ["police"; "law enforcement"; "prison";
                      "criminal justice reform"; "sentencing"; "crime"] |};
    {| ct_canonical_name := "taxation"; ct_display_name := "Taxation";
       ct_description := "Tax policy, tax rates, tax reform";
       ct_aliases := ["taxes"; "tax reform"; "tax cuts"; "tax policy"; "irs";
                      "revenue"] |};
    {| ct_canonical_name := "social_security"; ct_display_name := "Social Security";
       ct_description := "Social Security benefits, retirement, disability";
       ct_aliases := ["retirement"; "disability"; "social security benefits";
                      "seniors"] |};
    {| ct_canonical_name := "technology"; ct_display_name := "Technology";
       ct_description := "Technology policy, internet, privacy, cybersecurity";
       ct_aliases := ["internet"; "privacy"; "cybersecurity"; "tech"; "digital";
                      "data protection"; "ai"; "artificial intelligence"] |} ].

(** The database after a statement that has drawn a key of [policy_topics]
    and inserted no row. *)
Definition skipTopicKey (db : Database) : Database :=
  {| politicians := politicians db;
     policy_topics := policy_topics db;
     topic_aliases := topic_aliases db;
     politician_positions := politician_positions db;
     crawl_log := crawl_log db;
     last_topic_id := (last_topic_id db + 1)%Z;
     last_position_id := last_position_id db |}.

(** [INSERT OR IGNORE INTO policy_topics]: [canonical_name] is unique.  The
    key of the new row is drawn before the constraint is looked at, and the
    sequence of the table keeps it when the row is ignored. *)
Definition insertTopic (db : Database) (canonical display description : string)
  : Database :=
  if existsb (fun t => String.eqb (topic_canonical_name t) canonical)
             (policy_topics db)
  then skipTopicKey db
  else
    let newId := (last_topic_id db + 1)%Z in
    {| politicians := politicians db;
       policy_topics :=
         policy_topics db
         ++ [ {| topic_id := newId; topic_canonical_name := canonical;
                 topic_display_name := display;
                 topic_description := description |} ];
       topic_aliases := topic_aliases db;
       politician_positions := politician_positions db;
       crawl_log := crawl_log db;
       last_topic_id := newId;
       last_position_id := last_position_id db |}.

(** [INSERT OR IGNORE INTO topic_aliases]: [(topic_id, alias)] is unique. *)
Definition insertAlias (db : Database) (topicId : Z) (a : string) (score : Q)
  : Database :=
  if existsb (fun r => Z.eqb (alias_topic_id r) topicId && String.eqb (alias r) a)
             (topic_aliases db)
  then db
  else
    {| politicians := politicians db;
       policy_topics := policy_topics db;
       topic_aliases :=
         topic_aliases db
         ++ [ {| alias_topic_id := topicId; alias := a;
                 alias_confidence_score := score |} ];
       politician_positions := politician_positions db;
       crawl_log := crawl_log db;
       last_topic_id := last_topic_id db;
       last_position_id := last_position_id db |}.

(** [SELECT ... FROM policy_topics WHERE canonical_name = ?], first row. *)
Definition getTopicByCanonicalName (db : Database) (canonicalName : string)
  : option TopicRow :=
  find (fun t => String.eqb (topic_canonical_name t) canonicalName)
       (policy_topics db).

Definition initializeTopicMappings (db : Database) : Database :=
  fold_left
    (fun db topic =>
       let db := insertTopic db (ct_canonical_name topic) (ct_display_name topic)
                             (ct_description topic) in
       match getTopicByCanonicalName db (ct_canonical_name topic) with
       | Some topicRow =>
           let db := insertAlias db (topic_id topicRow) (ct_canonical_name topic) 1.0%Q in
           let db := insertAlias db (topic_id topicRow)
                                 (toLowerCase (ct_display_name topic)) 1.0%Q in
           fold_left (fun db a => insertAlias db (topic_id topicRow) (toLowerCase a) 0.8%Q)
                     (ct_aliases topic) db
       | None => db
       end)
    coreTopicsSeed db.

(** ** Topic classifier *)

(** The join [policy_topics JOIN topic_aliases ON id = topic_id].  The
    statement has no [ORDER BY], so the order of the rows is the choice of
    the engine; here topics are the outer loop.  Of what [identifyTopics]
    returns, the order of the rows decides the order of the entries only:
    the topics found and their weights are the same in every order. *)
Definition allTopicAliases (db : Database) : list TopicAliasRow :=
  flat_map (fun t =>
    map (fun a => {| row_id := topic_id t;
                     row_canonical_name := topic_canonical_name t;
                     row_display_name := topic_display_name t;
                     row_alias := alias a;
                     row_confidence_score := alias_confidence_score a |})
        (filter (fun a => Z.eqb (alias_topic_id a) (topic_id t)) (topic_aliases db)))
    (policy_topics db).

Definition Qgtb (a b : Q) : bool := negb (Qle_bool a b).

(** [existingTopic.confidence = score] on the entry with key [tid]. *)
Fixpoint raiseConfidence (tid : Z) (score : Q) (topics : list Topic) : list Topic :=
  match topics with
  | [] => []
  | t :: topics' =>
      if Z.eqb (id t) tid then
        (if Qgtb score (t_confidence t)
         then {| id := id t; canonical_name := canonical_name t;
                 display_name := display_name t; t_confidence := score |}
         else t) :: topics'
      else t :: raiseConfidence tid score topics'
  end.

Definition identifyTopicsIn (rows : list TopicAliasRow) (text : string) : list Topic :=
  let lowerText := toLowerCase text in
  fold_left
    (fun topics row =>
       if includes lowerText (row_alias row) then
         if existsb (fun t => Z.eqb (id t) (row_id row)) topics
         then raiseConfidence (row_id row) (row_confidence_score row) topics
         else topics ++ [ {| id := row_id row;
                             canonical_name := row_canonical_name row;
                             display_name := row_display_name row;
                             t_confidence := row_confidence_score row |} ]
       else topics)
    rows [].

Definition identifyTopics (db : Database) (text : string) : list Topic :=
  identifyTopicsIn (allTopicAliases db) text.

(** ** Positions *)

(** The object [extractPolicyPositions] builds and [savePosition] stores. *)
Record Position : Type := {
  pn_topic_id : Z;
  position_summary : string;
  position_details : string;
  is_key_issue : bool;
  source_url : string;
  source_section : string;
  confidence_score : Q;
  stance : string;
  pn_strength : string;
  key_phrases : string
}.

Definition positionIndicators : list string :=
  [ "support"; "oppose"; "believe"; "advocate"; "against";
    "committed"; "will fight"; "priority"; "important" ].

Definition sentenceMentions (topic : Topic) (lowerSentence : string) : bool :=
  includes lowerSentence (toLowerCase (canonical_name topic))
  || includes lowerSentence (toLowerCase (display_name topic)).

Definition extractPositionSummary (coreTopics : CoreTopics) (text : string)
    (topic : Topic) (analysis : option Analysis) : result string :=
  let sentences := longSentences text in
  let fromKeyPhrases :=
    match analysis with
    | Some a =>
        match keyPhrases a with
        | [] => None
        | phrases => Some (join ". " (firstn 2 phrases) ++ ".")%string
        end
    | None => None
    end in
  match fromKeyPhrases with
  | Some summary => Ok summary
  | None =>
      relevantSentences <-
        forEach sentences [] (fun relevantSentences sentence =>
          let lowerSentence := toLowerCase sentence in
          hasTopicKeyword <-
            (if sentenceMentions topic lowerSentence then Ok true
             else
               match coreTopics with
               | None => Throw (readOfUndefined (canonical_name topic))
               | Some table =>
                   match getProperty table (canonical_name topic) with
                   | Own keywords =>
                       Ok (existsb (fun keyword =>
                                      includes lowerSentence (toLowerCase keyword))
                                   keywords)
                   | Inherited => Throw someIsNotAFunction
                   | Absent => Ok false
                   end
               end) ;;
          let hasPositionIndicator :=
            existsb (fun indicator => includes lowerSentence indicator)
                    positionIndicators in
          if hasTopicKeyword && hasPositionIndicator
          then Ok (relevantSentences ++ [trim sentence])
          else if hasTopicKeyword && (50 <? String.length (trim sentence))
          then Ok (relevantSentences ++ [trim sentence])
          else Ok relevantSentences) ;;
      match relevantSentences with
      | _ :: _ => Ok (join ". " (firstn 2 relevantSentences) ++ ".")%string
      | [] =>
          let fallbackSentences :=
            filter (fun sentence => sentenceMentions topic (toLowerCase sentence))
                   sentences in
          match fallbackSentences with
          | _ :: _ => Ok (join ". " (firstn 2 fallbackSentences) ++ ".")%string
          | [] => Ok (join ". " (firstn 2 sentences) ++ ".")%string
          end
      end
  end.

Definition keyIndicators : list string :=
  [ "priority"; "key issue"; "important"; "focus"; "commitment"; "champion";
    "fight for"; "dedicated to" ].

Definition isKeyIssue (section : Section) : bool :=
  let text := toLowerCase (text section) in
  existsb (fun indicator => includes text indicator) keyIndicators.

(** The topics one section is analysed for: those [identifyTopics] finds,
    with the hinted topic put first when it is known and not among them. *)
Definition topicsOfSection (db : Database) (hintTopic : option string)
    (section : Section) : list Topic :=
  let topics := identifyTopics db (text section) in
  match hintTopic with
  | Some hint =>
      if String.eqb hint "" then topics
      else
        match getTopicByCanonicalName db hint with
        | Some hintTopicData =>
            if existsb (fun t => Z.eqb (id t) (topic_id hintTopicData)) topics
            then topics
            else {| id := topic_id hintTopicData;
                    canonical_name := topic_canonical_name hintTopicData;
                    display_name := topic_display_name hintTopicData;
                    t_confidence := 0.9%Q |} :: topics
        | None => topics
        end
  | None => topics
  end.

(** The callback of [topics.forEach]: the position a (section, topic) pair
    adds to [positions], if any. *)
Definition positionOf (coreTopics : CoreTopics) (sourceUrl : string)
    (section : Section) (topic : Topic) : result (option Position) :=
  analysis <- analyzePosition coreTopics (text section) (canonical_name topic) ;;
  if Qgtb (confidence analysis) 0.2%Q
     && negb (String.eqb (position analysis) "neutral")
  then
    positionSummary <-
      extractPositionSummary coreTopics (text section) topic (Some analysis) ;;
    let position :=
      {| pn_topic_id := id topic;
         position_summary := positionSummary;
         position_details := substring0 1500 (text section);
         is_key_issue :=
           isKeyIssue section || String.eqb (strength analysis) "strong";
         source_url := sourceUrl;
         source_section := orElse (title section) (selector section);
         confidence_score := Qmin (t_confidence topic) (confidence analysis);
         stance := position analysis;
         pn_strength := strength analysis;
         key_phrases := join "; " (keyPhrases analysis) |} in
    if 20 <? String.length (position_summary position)
    then Ok (Some position)
    else Ok None
  else Ok None.

Definition positionsOfSection (coreTopics : CoreTopics) (db : Database)
    (sourceUrl : string) (hintTopic : option string)
    (positions : list Position) (section : Section) : result (list Position) :=
  forEach (topicsOfSection db hintTopic section) positions
    (fun positions topic =>
       p <- positionOf coreTopics sourceUrl section topic ;;
       Ok (positions ++ optList p)).

Definition extractPolicyPositions (coreTopics : CoreTopics) (db : Database)
    (page : Page) (sourceUrl : string) (hintTopic : option string)
  : result (list Position) :=
  forEach (findContentSections page) []
    (positionsOfSection coreTopics db sourceUrl hintTopic).

(** ** The platform

    The library functions whose results the crawler consumes: the URL
    parser ([new URL(s)], which throws on a string it cannot parse), the
    HTML parser ([cheerio.load], which accepts any string) and the date
    parser.  [dateOfStamp t] is [new Date(text).getTime()], in milliseconds,
    for the text [YYYY-MM-DD HH:MM:SS] under which SQLite stores the stamp of
    [t] seconds: [CURRENT_TIMESTAMP] writes that text in UTC, and the engine
    reads a text of this form (no zone, a space for the T) as local time, so
    the result depends on the zone the process runs in; it is [t * 1000]
    where that zone is UTC. *)

Record URL : Type := {
  protocol : string;                  (* with its colon, as in https: *)
  hostname : string;
  pathname : string
}.

Class Platform : Type := {
  parseURL : string -> option URL;
  load : string -> Page;
  dateOfStamp : Z -> Z
}.

(** ** Page discovery *)

Record PolicyPage : Type := {
  url : string;
  pp_text : string;
  topic : option string
}.

Definition policyPatterns : list string :=
  [ "/legislation/"; "/issues/"; "/policy/"; "/positions/"; "/priorities/";
    "/agenda/"; "/platform/" ].

Definition topicPatterns : list string :=
  [ "healthcare"; "health"; "medical";
    "immigration"; "border";
    "economy"; "economic"; "jobs";
    "housing"; "affordable-housing";
    "education"; "schools";
    "environment"; "climate"; "energy";
    "defense"; "military"; "veterans";
    "civil-rights"; "voting";
    "criminal-justice"; "justice";
    "tax"; "taxes";
    "social-security"; "retirement";
    "technology"; "privacy"; "cybersecurity" ].

Definition topicMap : list (string * list string) :=
  [ ("healthcare", ["health"; "medical"; "medicare"; "medicaid"; "aca"]);
    ("immigration", ["immigration"; "border"; "asylum"; "citizenship"]);
    ("economy", ["economy"; "economic"; "jobs"; "employment"; "trade"]);
    ("housing", ["housing"; "affordable"; "mortgage"; "rent"]);
    ("education", ["education"; "school"; "student"; "college"]);
    ("environment", ["environment"; "climate"; "energy"; "green"]);
    ("defense", ["defense"; "military"; "veteran"; "security"]);
    ("civil_rights", ["civil"; "rights"; "voting"; "equality"]);
    ("criminal_justice", ["justice"; "criminal"; "police"; "crime"]);
    ("taxation", ["tax"; "taxes"; "revenue"; "fiscal"]);
    ("social_security", ["social"; "security"; "retirement"; "senior"]);
    ("technology", ["technology"; "tech"; "privacy"; "cyber"]) ].

Definition detectTopicFromUrl (path linkText : string) : option string :=
  let combined := toLowerCase (path ++ " " ++ linkText)%string in
  option_map fst
    (find (fun entry => existsb (fun keyword => includes combined keyword) (snd entry))
          topicMap).

(** The three branches that compute [fullUrl]; [None] is the [return] that
    skips a relative link without a leading slash. *)
Definition resolveHref (base : URL) (href : string) : option string :=
  if startsWith href "http" then Some href
  else if startsWith href "/"
  then Some (protocol base ++ "//" ++ hostname base ++ href)%string
  else None.

(** The callback of [$('a[href]').each]: the page an anchor adds to
    [policyPages], if any.  A URL that does not parse is skipped by the
    [catch]. *)
Definition pageOfAnchor `{Platform} (base : URL) (a : Anchor) : option PolicyPage :=
  let href := a_href a in
  let linkText := toLowerCase (trim (a_text a)) in
  if String.eqb href "" then None
  else
    match resolveHref base href with
    | None => None
    | Some fullUrl =>
        match parseURL fullUrl with
        | None => None
        | Some u =>
            if negb (String.eqb (hostname u) (hostname base)) then None
            else
              let path := toLowerCase (pathname u) in
              let matchesPattern :=
                existsb (fun pattern => includes path pattern) policyPatterns in
              let matchesTopic :=
                existsb (fun topic => includes path topic || includes linkText topic)
                        topicPatterns in
              if matchesPattern || matchesTopic
              then Some {| url := fullUrl;
                           pp_text := linkText;
                           topic := detectTopicFromUrl path linkText |}
              else None
        end
    end.

Definition invalidURL : Exn := TypeError "Invalid URL".

Definition discoverPolicyPages `{Platform} (page : Page) (baseUrl : string)
  : result (list PolicyPage) :=
  match parseURL baseUrl with
  | None => Throw invalidURL
  | Some base =>
      let policyPages :=
        flat_map (fun a => optList (pageOfAnchor base a)) (anchors page) in
      Ok (firstn 15 (filterIndexed (isFirstBy url) policyPages))
  end.

(** ** The crawler object and its environment *)

Record Crawler : Type := {
  db : Database;
  coreTopics : CoreTopics;
  requestDelay : Z;
  processedCount : nat;
  errorsCount : nat;
  maxRetries : nat
}.

(** What one request meets on the network. *)
Inductive Outcome : Type :=
| Response (statusCode : Z) (statusMessage : string) (location : option string)
           (body : string)            (* the callback of [client.request] runs *)
| NetworkError (error : Exn)          (* the request emits 'error' *)
| Timeout.                            (* the request emits 'timeout' *)

Record NetStep : Type := {
  latency : Z;                        (* ms until the outcome is known *)
  outcome : Outcome
}.

Inductive Event : Type :=
| Request (url : string)
| Sleep (ms : Z).

Record World : Type := {
  now : Z;                            (* Date.now() *)
  network : list NetStep;             (* outcomes of the requests to come *)
  trace : list Event                  (* requests and timers so far *)
}.

Definition State : Type := Crawler * World.

(** How an asynchronous call ends: it returns, it throws (its promise is
    rejected), or its promise never settles because no outcome is left. *)
Inductive completion (A : Type) : Type :=
| Returns (a : A)
| Throws (e : Exn)
| Hangs.
Arguments Returns {A} a.
Arguments Throws {A} e.
Arguments Hangs {A}.

Definition M (A : Type) : Type := State -> completion A * State.

Definition ret {A} (a : A) : M A := fun s => (Returns a, s).

Definition throw {A} (e : Exn) : M A := fun s => (Throws e, s).

Definition bindM {A B} (m : M A) (k : A -> M B) : M B :=
  fun s =>
    match m s with
    | (Returns a, s') => k a s'
    | (Throws e, s') => (Throws e, s')
    | (Hangs, s') => (Hangs, s')
    end.

Notation "'do' x <- c1 ; c2" := (bindM c1 (fun x => c2))
  (at level 10, x name, c1 at level 100, c2 at level 200).
Notation "c1 ;; c2" := (bindM c1 (fun _ => c2))
  (at level 61, right associativity).

(** [try { m } catch (error) { handler error }]: what [m] did to the state
    before it threw stays done. *)
Definition tryCatch {A} (m : M A) (handler : Exn -> M A) : M A :=
  fun s =>
    match m s with
    | (Throws e, s') => handler e s'
    | r => r
    end.

Definition liftResult {A} (r : result A) : M A :=
  match r with
  | Ok a => ret a
  | Throw e => throw e
  end.

Fixpoint forEachM {A S} (l : list A) (s : S) (f : S -> A -> M S) : M S :=
  match l with
  | [] => ret s
  | x :: l' => do s' <- f s x; forEachM l' s' f
  end.

Definition getCrawler : M Crawler := fun s => (Returns (fst s), s).

Definition dateNow : M Z := fun s => (Returns (now (snd s)), s).

Definition setDb (c : Crawler) (d : Database) : Crawler :=
  {| db := d; coreTopics := coreTopics c; requestDelay := requestDelay c;
     processedCount := processedCount c; errorsCount := errorsCount c;
     maxRetries := maxRetries c |}.

Definition updateDb (f : Database -> Database) : M unit :=
  fun s => (Returns tt, (setDb (fst s) (f (db (fst s))), snd s)).

(** [await new Promise(resolve => setTimeout(resolve, ms))]. *)
Definition sleep (ms : Z) : M unit :=
  fun s =>
    let w := snd s in
    (Returns tt,
     (fst s, {| now := (now w + ms)%Z; network := network w;
                trace := trace w ++ [Sleep ms] |})).

(** ** Fetcher *)

Definition httpError (statusCode : Z) (statusMessage : string) : Exn :=
  Error ("HTTP " ++ showZ statusCode ++ ": " ++ statusMessage)%string.

Definition requestTimeout : Exn := Error "Request timeout".

(** [res.headers.location] is truthy. *)
Definition redirectTarget (location : option string) : option string :=
  match location with
  | Some l => if String.eqb l "" then None else Some l
  | None => None
  end.

Definition retryDelay (retryCount : nat) : Z := (1000 * (Z.of_nat retryCount + 1))%Z.

(** The world of a caller at [nowAt], after a call it does not await has
    run on: the requests and timers of that call are in the trace and the
    outcomes it has taken are gone. *)
Definition detached (nowAt : Z) (unobserved : completion string * World) : World :=
  {| now := nowAt;
     network := network (snd unobserved);
     trace := trace (snd unobserved) |}.

(** The promise [fetchWebsiteContent(url, retryCount)] returns, followed
    until it settles.  Each request takes the next outcome of the network;
    the recursion is on the outcomes that are left.

    A promise settles once.  On 'timeout' the handler destroys the request
    and rejects, so the caller fails at once.  Destroying the request makes
    it emit 'error', and the handler of 'error' runs although the promise
    is settled: with retries left it sets its timer and fetches again, and
    what that fetch ends in reaches nobody.  That fetch is run here to its
    end where it starts: its timers and requests enter the trace and its
    requests take the next outcomes of the network, while the clock of the
    caller stays at the rejection.  How its later requests interleave with
    the requests the caller makes next, and what the runtime does with a
    rejection of it that nobody handles, is left out. *)
Fixpoint fetchFrom `{Platform} (maxRetries : nat) (net : list NetStep)
    (url : string) (retryCount : nat) (now : Z) (trace : list Event)
  : completion string * World :=
  match parseURL url with
  | None => (Throws invalidURL, {| now := now; network := net; trace := trace |})
  | Some _ =>
      let trace := trace ++ [Request url] in
      match net with
      | [] => (Hangs, {| now := now; network := []; trace := trace |})
      | step :: net' =>
          let now := (now + latency step)%Z in
          let settled r := (r, {| now := now; network := net'; trace := trace |}) in
          match outcome step with
          | Response statusCode statusMessage location body =>
              match
                (if (300 <=? statusCode)%Z && (statusCode <? 400)%Z
                 then redirectTarget location else None)
              with
              | Some target => fetchFrom maxRetries net' target retryCount now trace
              | None =>
                  if negb (statusCode =? 200)%Z
                  then settled (Throws (httpError statusCode statusMessage))
                  else settled (Returns body)
              end
          | NetworkError error =>
              if retryCount <? maxRetries then
                fetchFrom maxRetries net' url (retryCount + 1)
                          (now + retryDelay retryCount)%Z
                          (trace ++ [Sleep (retryDelay retryCount)])
              else settled (Throws error)
          | Timeout =>
              if retryCount <? maxRetries then
                (Throws requestTimeout,
                 detached now
                   (fetchFrom maxRetries net' url (retryCount + 1)
                              (now + retryDelay retryCount)%Z
                              (trace ++ [Sleep (retryDelay retryCount)])))
              else settled (Throws requestTimeout)
          end
      end
  end.

Definition fetchWebsiteContent `{Platform} (url : string) (retryCount : nat)
  : M string :=
  fun s =>
    let w := snd s in
    let '(r, w') :=
      fetchFrom (maxRetries (fst s)) (network w) url retryCount (now w) (trace w) in
    (r, (fst s, w')).

(** ** Position store *)

Definition setPositions (d : Database) (rows : list PositionRow) (lastId : Z)
  : Database :=
  {| politicians := politicians d;
     policy_topics := policy_topics d;
     topic_aliases := topic_aliases d;
     politician_positions := rows;
     crawl_log := crawl_log d;
     last_topic_id := last_topic_id d;
     last_position_id := lastId |}.

Definition samePair (politicianId : string) (topicId : Z) (r : PositionRow) : bool :=
  String.eqb (pos_politician_id r) politicianId && Z.eqb (pos_topic_id r) topicId.

(** The values [insertPosition.run] binds, as a row with key [rowId] and
    both time stamps at their default. *)
Definition rowOfPosition (rowId : Z) (timestamp : Z) (politicianId : string)
    (p : Position) : PositionRow :=
  {| pos_id := rowId;
     pos_politician_id := politicianId;
     pos_topic_id := pn_topic_id p;
     pos_position_summary := position_summary p;
     pos_position_details := position_details p;
     pos_is_key_issue := if is_key_issue p then 1%Z else 0%Z;
     pos_source_url := source_url p;
     pos_source_section := source_section p;
     pos_confidence_score := confidence_score p;
     pos_stance := orElse (stance p) "neutral";
     pos_strength := orElse (pn_strength p) "moderate";
     pos_key_phrases := orElse (key_phrases p) "";
     pos_last_updated := timestamp;
     pos_created_at := timestamp |}.

(** What the driver throws when a statement leaves a foreign key without
    its parent row. *)
Definition foreignKeyFailed : Exn := Error "FOREIGN KEY constraint failed".

(** [FOREIGN KEY (politician_id) REFERENCES politicians (id)]. *)
Definition hasPolitician (d : Database) (politicianId : string) : bool :=
  existsb (fun p => String.eqb (p_id p) politicianId) (politicians d).

(** [FOREIGN KEY (topic_id) REFERENCES policy_topics (id)]. *)
Definition hasTopic (d : Database) (topicId : Z) : bool :=
  existsb (fun t => Z.eqb (topic_id t) topicId) (policy_topics d).

(** [INSERT OR REPLACE INTO politician_positions]: the rows that share the
    unique pair [(politician_id, topic_id)] are deleted, then the new row is
    inserted under a fresh key.  When the politician or the topic of the new
    row is not stored the statement fails, and the database is as it was. *)
Definition insertOrReplacePosition (timestamp : Z) (politicianId : string)
    (p : Position) (d : Database) : result Database :=
  if hasPolitician d politicianId && hasTopic d (pn_topic_id p) then
    let newId := (last_position_id d + 1)%Z in
    Ok (setPositions d
          (filter (fun r => negb (samePair politicianId (pn_topic_id p) r))
                  (politician_positions d)
           ++ [rowOfPosition newId timestamp politicianId p])
          newId)
  else Throw foreignKeyFailed.

(** [CURRENT_TIMESTAMP] has whole seconds. *)
Definition currentTimestamp (w : World) : Z := (now w / 1000)%Z.

Definition savePosition (politicianId : string) (p : Position) : M unit :=
  fun s =>
    match
      insertOrReplacePosition (currentTimestamp (snd s)) politicianId p (db (fst s))
    with
    | Ok d => (Returns tt, (setDb (fst s) d, snd s))
    | Throw e => (Throws e, s)
    end.

(** ** Crawl logger *)

Definition appendLog (row : CrawlLogRow) (d : Database) : Database :=
  {| politicians := politicians d;
     policy_topics := policy_topics d;
     topic_aliases := topic_aliases d;
     politician_positions := politician_positions d;
     crawl_log := crawl_log d ++ [row];
     last_topic_id := last_topic_id d;
     last_position_id := last_position_id d |}.

Definition notNullFailed (column : string) : Exn :=
  Error ("NOT NULL constraint failed: " ++ column)%string.

(** [INSERT INTO crawl_log]; [website_url] is declared [NOT NULL].  The
    foreign key of [politician_id] is not checked here: both callers pass
    the id of a row they have just read from [politicians]. *)
Definition logCrawlAttempt (politicianId : string) (websiteUrl : option string)
    (status : string) (positionsFound : Z) (errorMessage : option string)
    (duration : Z) : M unit :=
  match websiteUrl with
  | None => throw (notNullFailed "crawl_log.website_url")
  | Some website =>
      fun s =>
        updateDb (appendLog
                    {| log_politician_id := politicianId;
                       log_website_url := website;
                       log_crawl_status := status;
                       log_positions_found := positionsFound;
                       log_error_message := errorMessage;
                       log_crawl_duration_ms := duration;
                       log_crawled_at := currentTimestamp (snd s) |}) s
  end.

(** ** Crawl scheduler *)

Definition secondsPerDay : Z := 86400.

Definition asciiLowerChar (c : ascii) : ascii :=
  let n := code c in
  if (65 <=? n) && (n <=? 90) then ascii_of_nat (n + 32) else c.

Fixpoint asciiLower (s : string) : string :=
  match s with
  | EmptyString => EmptyString
  | String c s' => String (asciiLowerChar c) (asciiLower s')
  end.

(** [column LIKE '%pattern%'] for a pattern without wildcards of its own:
    containment up to the case of ASCII letters; [NULL] matches nothing. *)
Definition likeContains (column : option string) (pattern : string) : bool :=
  match column with
  | Some v => includes (asciiLower v) (asciiLower pattern)
  | None => false
  end.

(** [cl.crawled_at > datetime('now', '-N days')]. *)
Definition within (days : Z) (nowSeconds : Z) (cl : CrawlLogRow) : bool :=
  (nowSeconds - days * secondsPerDay <? log_crawled_at cl)%Z.

(** The three sub-queries of [getPoliticiansWithWebsites]. *)
Definition recentSuccess (nowSeconds : Z) (cl : CrawlLogRow) : bool :=
  String.eqb (log_crawl_status cl) "success" && within 7 nowSeconds cl.

Definition recentHostNotFound (nowSeconds : Z) (cl : CrawlLogRow) : bool :=
  String.eqb (log_crawl_status cl) "error"
  && likeContains (log_error_message cl) "ENOTFOUND"
  && within 30 nowSeconds cl.

Definition recentForbidden (nowSeconds : Z) (cl : CrawlLogRow) : bool :=
  String.eqb (log_crawl_status cl) "error"
  && likeContains (log_error_message cl) "403"
  && within 7 nowSeconds cl.

(** [p.id IN (SELECT cl.politician_id FROM crawl_log cl WHERE cond)]. *)
Definition inSubquery (d : Database) (cond : CrawlLogRow -> bool) (p : Politician)
  : bool :=
  existsb (fun cl => cond cl && String.eqb (log_politician_id cl) (p_id p))
          (crawl_log d).

Definition hasWebsite (p : Politician) : bool :=
  match p_website p with
  | Some w => negb (String.eqb w "")
  | None => false
  end.

Definition eligible (d : Database) (nowSeconds : Z) (p : Politician) : bool :=
  hasWebsite p
  && negb (inSubquery d (recentSuccess nowSeconds) p)
  && negb (inSubquery d (recentHostNotFound nowSeconds) p)
  && negb (inSubquery d (recentForbidden nowSeconds) p).

Definition byName (p q : Politician) : bool := String.leb (p_name p) (p_name q).

(** The query of [getPoliticiansWithWebsites], run at [nowSeconds]. *)
Definition selectPoliticiansWithWebsites (d : Database) (nowSeconds : Z)
  : list Politician :=
  sort byName (filter (eligible d nowSeconds) (politicians d)).

Definition getPoliticiansWithWebsites : M (list Politician) :=
  fun s =>
    (Returns (selectPoliticiansWithWebsites (db (fst s)) (currentTimestamp (snd s))), s).

(** [ORDER BY crawled_at DESC LIMIT 1] over the rows of one politician:
    the row with the greatest time stamp; among rows of equal stamp the one
    inserted first, which is the row the scan in insertion order keeps. *)
Definition laterOf (acc : option CrawlLogRow) (cl : CrawlLogRow) : option CrawlLogRow :=
  match acc with
  | Some best =>
      if (log_crawled_at best <? log_crawled_at cl)%Z then Some cl else Some best
  | None => Some cl
  end.

Definition mostRecentLog (d : Database) (politicianId : string) : option CrawlLogRow :=
  fold_left laterOf
    (filter (fun cl => String.eqb (log_politician_id cl) politicianId) (crawl_log d))
    None.

Definition msPerDay : Z := 1000 * 60 * 60 * 24.

(** [daysSinceLastAttempt < days], with
    [(Date.now() - new Date(recentLog.crawled_at).getTime()) / msPerDay] for
    the days: the stored stamp goes through the date parser of the platform.
    The quotient is taken exactly here and in doubles by the code; it is
    compared with a whole number of days, from which the exact quotient of
    two such integers differs by 1/86400000 at least when it differs at
    all, far more than the rounding, so that the test has the same result. *)
Definition daysSinceLessThan `{Platform} (nowMs : Z) (cl : CrawlLogRow) (days : Z)
  : bool :=
  Qgtb (inject_Z days)
       (inject_Z (nowMs - dateOfStamp (log_crawled_at cl)) / inject_Z msPerDay)%Q.

(** [recentLog.error_message && recentLog.error_message.includes(word)]. *)
Definition mentions (cl : CrawlLogRow) (word : string) : bool :=
  match log_error_message cl with
  | Some m => negb (String.eqb m "") && includes m word
  | None => false
  end.

Definition shouldSkipPolitician `{Platform} (d : Database) (nowMs : Z)
    (politicianId : string) : bool :=
  match mostRecentLog d politicianId with
  | None => false
  | Some recentLog =>
      if String.eqb (log_crawl_status recentLog) "success" then
        daysSinceLessThan nowMs recentLog 7
      else if String.eqb (log_crawl_status recentLog) "error" then
        if mentions recentLog "ENOTFOUND" then daysSinceLessThan nowMs recentLog 30
        else if mentions recentLog "403" then daysSinceLessThan nowMs recentLog 7
        else daysSinceLessThan nowMs recentLog 1
      else false
  end.

(** ** One subject, and the run *)

(** [new PolicyPositionCrawler()] on a database file with content [d]. *)
Definition constructor (d : Database) : Crawler :=
  {| db := initializeTopicMappings d;
     coreTopics := None;
     requestDelay := 2000;
     processedCount := 0;
     errorsCount := 0;
     maxRetries := 3 |}.

Definition incrementErrors : M unit :=
  fun s =>
    let c := fst s in
    (Returns tt,
     ({| db := db c; coreTopics := coreTopics c; requestDelay := requestDelay c;
         processedCount := processedCount c; errorsCount := errorsCount c + 1;
         maxRetries := maxRetries c |}, snd s)).

Definition incrementProcessed : M unit :=
  fun s =>
    let c := fst s in
    (Returns tt,
     ({| db := db c; coreTopics := coreTopics c; requestDelay := requestDelay c;
         processedCount := processedCount c + 1; errorsCount := errorsCount c;
         maxRetries := maxRetries c |}, snd s)).

(** [this.extractPolicyPositions($, sourceUrl, hintTopic)] on the crawler
    as it is when the call is made. *)
Definition extractPage (page : Page) (sourceUrl : string) (hintTopic : option string)
  : M (list Position) :=
  do c <- getCrawler;
  liftResult (extractPolicyPositions (coreTopics c) (db c) page sourceUrl hintTopic).

(** The body of the loop over [policyPages], with its own [try]/[catch]:
    a page that fails is reported on the console and left out. *)
Definition crawlPolicyPage `{Platform} (positions : list Position)
    (policyPage : PolicyPage) : M (list Position) :=
  tryCatch
    (do policyContent <- fetchWebsiteContent (url policyPage) 0;
     do positions' <-
       (if String.eqb policyContent "" then ret positions
        else
          do policyPositions <-
            extractPage (load policyContent) (url policyPage) (topic policyPage);
          ret (positions ++ policyPositions));
     sleep 1000 ;;
     ret positions')
    (fun error => ret positions).

(** The [try] block of [extractPositionsFromWebsite] down to
    [positionsFound = positions.length]: the positions it has collected.
    [new URL(null)] throws. *)
Definition collectPositions `{Platform} (politician : Politician)
  : M (list Position) :=
  match p_website politician with
  | None => throw invalidURL
  | Some website =>
      do websiteContent <- fetchWebsiteContent website 0;
      if String.eqb websiteContent ""
      then throw (Error "Failed to fetch website content")
      else
        let page := load websiteContent in
        do positions <- extractPage page website None;
        do policyPages <- liftResult (discoverPolicyPages page website);
        forEachM policyPages positions crawlPolicyPage
  end.

(** [for (const position of positions) await this.savePosition(id, position)]. *)
Definition savePositions (politicianId : string) (positions : list Position)
  : M unit :=
  forEachM positions tt (fun _ position => savePosition politicianId position).

(** The [try] block of [extractPositionsFromWebsite] as a whole; it returns
    [positionsFound]. *)
Definition crawlWebsite `{Platform} (politician : Politician) : M nat :=
  do positions <- collectPositions politician;
  savePositions (p_id politician) positions ;;
  ret (List.length positions).

(** [extractPositionsFromWebsite(politician)].  Its [catch] finds
    [positionsFound] as the block left it: 0 when the exception came before
    the assignment, the number of positions when a save threw. *)
Definition extractPositionsFromWebsite `{Platform} (politician : Politician)
  : M unit :=
  do startTime <- dateNow;
  do verdict <-
    tryCatch
      (do positions <- collectPositions politician;
       let positionsFound := List.length positions in
       tryCatch
         (savePositions (p_id politician) positions ;;
          ret ("success", @None string, positionsFound))
         (fun error =>
            incrementErrors ;;
            ret ("error", Some (message error), positionsFound)))
      (fun error =>
         incrementErrors ;;
         ret ("error", Some (message error), 0));
  do endTime <- dateNow;
  logCrawlAttempt (p_id politician) (p_website politician)
                  (fst (fst verdict)) (Z.of_nat (snd verdict)) (snd (fst verdict))
                  (endTime - startTime)%Z ;;
  incrementProcessed.

(** [l.slice(0, n)] for a number that may be negative. *)
Definition slice0 {A} (n : Z) (l : list A) : list A :=
  if (0 <=? n)%Z then firstn (Z.to_nat n) l
  else firstn (List.length l - Z.to_nat (- n)) l.

(** The delay at the end of the loop body of [crawlAllPoliticians]. *)
Definition pauseBeforeNext (totalCount : Z) : M unit :=
  do c <- getCrawler;
  if (Z.of_nat (processedCount c) <? totalCount)%Z
  then sleep (requestDelay c)
  else ret tt.

(** [crawlAllPoliticians(limit)], up to the summary it prints. *)
Definition crawlAllPoliticians `{Platform} (limit : option Z) : M unit :=
  do politicians <- getPoliticiansWithWebsites;
  let limited :=
    match limit with
    | Some n => if (n =? 0)%Z then None else Some n
    | None => None
    end in
  let totalCount :=
    match limited with
    | Some n => Z.min (Z.of_nat (List.length politicians)) n
    | None => Z.of_nat (List.length politicians)
    end in
  let politiciansToProcess :=
    match limited with
    | Some n => slice0 n politicians
    | None => politicians
    end in
  forEachM politiciansToProcess tt
    (fun _ politician =>
       extractPositionsFromWebsite politician ;;
       pauseBeforeNext totalCount).

(** ** A concrete platform

    Used by the examples only: a parser for URLs of the plain shape
    [scheme://host[:port][/path][?query][#fragment]], and a loader that
    knows the documents it is given. *)

Module Demo.

(** The text before and after the first occurrence of [sep]. *)
Fixpoint cut (sep : string) (s : string) : option (string * string) :=
  if prefix sep s then Some ("", substring (String.length sep) (String.length s) s)
  else
    match s with
    | EmptyString => None
    | String c s' =>
        match cut sep s' with
        | Some (before, after) => Some (String c before, after)
        | None => None
        end
    end.

(** The longest prefix whose characters all satisfy [keep]. *)
Fixpoint takeWhile (keep : ascii -> bool) (s : string) : string :=
  match s with
  | EmptyString => EmptyString
  | String c s' => if keep c then String c (takeWhile keep s') else EmptyString
  end.

Fixpoint dropWhile (keep : ascii -> bool) (s : string) : string :=
  match s with
  | EmptyString => EmptyString
  | String c s' => if keep c then dropWhile keep s' else s
  end.

Definition inAuthority (c : ascii) : bool :=
  negb ((code c =? 47) || (code c =? 63) || (code c =? 35)).

Definition inPath (c : ascii) : bool :=
  negb ((code c =? 63) || (code c =? 35)).

Definition parse (s : string) : option URL :=
  match cut "://" s with
  | Some (scheme, rest) =>
      let authority := takeWhile inAuthority rest in
      let host := toLowerCase (takeWhile (fun c => negb (code c =? 58)) authority) in
      let path := takeWhile inPath (dropWhile inAuthority rest) in
      if String.eqb scheme "" || String.eqb host "" then None
      else Some {| protocol := (toLowerCase scheme ++ ":")%string;
                   hostname := host;
                   pathname := orElse path "/" |}
  | None => None
  end.

Definition emptyPage : Page :=
  {| matches := []; metaDescription := None; pageTitle := ""; anchors := [] |}.

Definition loadFrom (documents : list (string * Page)) (html : string) : Page :=
  match lookup html documents with
  | Some page => page
  | None => emptyPage
  end.

(** The date parser of a process whose zone is [offset] milliseconds east of
    UTC: the stored text is read as a local time. *)
Definition dateIn (offset : Z) (seconds : Z) : Z := (seconds * 1000 - offset)%Z.

(** A process in UTC. *)
Definition platform (documents : list (string * Page)) : Platform :=
  {| parseURL := parse; load := loadFrom documents; dateOfStamp := dateIn 0 |}.

(** The same process in a zone nine hours east of UTC. *)
Definition platformEast (documents : list (string * Page)) : Platform :=
  {| parseURL := parse; load := loadFrom documents;
     dateOfStamp := dateIn (9 * 3600 * 1000) |}.

(** The statement of the end-to-end scenario, as the meta description of
    a home page that links to one policy page. *)
Definition statement : string :=
  "I strongly support expanding Medicare to cover every American".

Definition homePage : Page :=
  {| matches := [];
     metaDescription := Some statement;
     pageTitle := "Home";
     anchors := [ {| a_href := "/issues/healthcare"; a_text := "Healthcare" |} ] |}.

Definition homeUrl : string := "https://x.gov/index".

(** A database that holds the seed taxonomy and one politician. *)
Definition ann : Politician :=
  {| p_id := "A000001"; p_name := "Ann"; p_party := "I"; p_state := "WA";
     p_chamber := "house"; p_website := Some homeUrl |}.

Definition directory : Database :=
  {| politicians := [ann];
     policy_topics := [];
     topic_aliases := [];
     politician_positions := [];
     crawl_log := [];
     last_topic_id := 0;
     last_position_id := 0 |}.

(** A text of exactly 100 characters, and an element that holds it. *)
Definition hundred : string :=
  "0123456789012345678901234567890123456789012345678901234567890123456789012345678901234567890123456789".

Definition block (content : string) : Element :=
  {| el_tagName := "DIV"; el_class := Some "content"; el_id := None;
     el_title := None; el_text := content; el_firstHeading := "";
     el_firstTitled := ""; el_found := [] |}.

(** A page whose only link is relative and has no leading slash. *)
Definition relativePage : Page :=
  {| matches := [];
     metaDescription := None;
     pageTitle := "Home";
     anchors := [ {| a_href := "issues/healthcare"; a_text := "Healthcare" |} ] |}.

(** The directory after one failed attempt on Ann, logged at second
    1000000 with a cause that is neither a DNS failure nor a 403. *)
Definition failedAttempt : CrawlLogRow :=
  {| log_politician_id := "A000001";
     log_website_url := homeUrl;
     log_crawl_status := "error";
     log_positions_found := 0;
     log_error_message := Some "HTTP 500: Internal Server Error";
     log_crawl_duration_ms := 250;
     log_crawled_at := 1000000 |}.

Definition afterFailure : Database :=
  {| politicians := [ann];
     policy_topics := [];
     topic_aliases := [];
     politician_positions := [];
     crawl_log := [failedAttempt];
     last_topic_id := 0;
     last_position_id := 0 |}.


Definition confident : Position :=
  {| pn_topic_id := 1;
     position_summary := "I strongly support expanding Medicare.";
     position_details := "I strongly support expanding Medicare to every American";
     is_key_issue := true;
     source_url := homeUrl;
     source_section := "Home";
     confidence_score := 0.9%Q;
     stance := "support";
     pn_strength := "strong";
     key_phrases := "I strongly support expanding Medicare" |}.

Definition doubtful : Position :=
  {| pn_topic_id := 1;
     position_summary := "We must cut waste and improve Medicare.";
     position_details := "We must cut waste and improve Medicare for seniors";
     is_key_issue := false;
     source_url := "https://x.gov/issues/healthcare";
     source_section := "main";
     confidence_score := 0.4%Q;
     stance := "mixed";
     pn_strength := "strong";
     key_phrases := "" |}.

(** Network outcomes. *)
Definition refused : Outcome :=
  NetworkError (Error "connect ECONNREFUSED 203.0.113.7:443").

Definition after (ms : Z) (o : Outcome) : NetStep :=
  {| latency := ms; outcome := o |}.

(** A home page without text of its own that links to one policy page,
    and a network on which the home page loads and the policy page
    answers with a 500. *)
Definition linksPage : Page :=
  {| matches := [];
     metaDescription := None;
     pageTitle := "Home";
     anchors := [ {| a_href := "/issues/healthcare"; a_text := "Healthcare" |} ] |}.

Definition documents : list (string * Page) :=
  [ ("<html>links</html>", linksPage); ("<html>home</html>", homePage) ].

Definition brokenPolicyPage : World :=
  {| now := 1700000000000;
     network := [ after 120 (Response 200 "OK" None "<html>links</html>");
                  after 80 (Response 500 "Internal Server Error" None "") ];
     trace := [] |}.

(** A network on which the home page of the scenario loads. *)
Definition homeLoads : World :=
  {| now := 1700000000000;
     network := [ after 120 (Response 200 "OK" None "<html>home</html>") ];
     trace := [] |}.

(** A network on which the home page answers with a 403. *)
Definition forbidden : World :=
  {| now := 1700000000000;
     network := [ after 60 (Response 403 "Forbidden" None "") ];
     trace := [] |}.

(** A [coreTopics] object, for the properties that hold of any crawler. *)
Definition keywords : CoreTopics := Some [("healthcare", ["medicare"; "medicaid"])].

End Demo.

(** ** Notions the statements use *)


Definition topicLexicon (topic : string) : option TopicIndicators :=
  match getTopicIndicators topic with
  | Own ti => Some ti
  | _ => None
  end.



(** The three conditions of the batch query, on one log row. *)
Definition coolingDown (nowSeconds : Z) (cl : CrawlLogRow) : Prop :=
  (log_crawl_status cl = "success"
   /\ (nowSeconds - log_crawled_at cl < 7 * secondsPerDay)%Z)
  \/ (log_crawl_status cl = "error"
      /\ likeContains (log_error_message cl) "ENOTFOUND" = true
      /\ (nowSeconds - log_crawled_at cl < 30 * secondsPerDay)%Z)
  \/ (log_crawl_status cl = "error"
      /\ likeContains (log_error_message cl) "403" = true
      /\ (nowSeconds - log_crawled_at cl < 7 * secondsPerDay)%Z).

(** One call [savePosition(politicianId, position)], and the world it is
    made in. *)
Record SaveCall : Type := {
  in_world : World;
  for_politician : string;
  with_position : Position
}.

(** The crawler such a call leaves, whether it returns or throws. *)
Definition afterSave (c : Crawler) (call : SaveCall) : Crawler :=
  fst (snd (savePosition (for_politician call) (with_position call)
                         (c, in_world call))).

Definition forPair (subject : string) (topicId : Z) (c : SaveCall) : bool :=
  String.eqb (for_politician c) subject
  && Z.eqb (pn_topic_id (with_position c)) topicId.

(** [positionsFound] as the [catch] of [extractPositionsFromWebsite] finds
    it when the block has thrown: the number of positions the block had
    collected, 0 when it threw before it counted them. *)
Definition countedBy `{Platform} (politician : Politician) (s : State) : nat :=
  match fst (collectPositions politician s) with
  | Returns positions => List.length positions
  | _ => 0
  end.

(** Everything of the crawler but the positions table and its key counter. *)
Definition outsidePositions (c c' : Crawler) : Prop :=
  crawl_log (db c') = crawl_log (db c)
  /\ politicians (db c') = politicians (db c)
  /\ policy_topics (db c') = policy_topics (db c)
  /\ topic_aliases (db c') = topic_aliases (db c)
  /\ coreTopics c' = coreTopics c
  /\ requestDelay c' = requestDelay c
  /\ processedCount c' = processedCount c
  /\ errorsCount c' = errorsCount c
  /\ maxRetries c' = maxRetries c.

Definition framed {A : Type} (m : M A) : Prop :=
  forall s, outsidePositions (fst s) (fst (snd (m s))).

(** The row one attempt on a politician appends. *)
Definition attemptRow (politician : Politician) (website status : string)
    (positionsFound : nat) (errorMessage : option string) (startTime : Z)
    (w : World) : CrawlLogRow :=
  {| log_politician_id := p_id politician;
     log_website_url := website;
     log_crawl_status := status;
     log_positions_found := Z.of_nat positionsFound;
     log_error_message := errorMessage;
     log_crawl_duration_ms := (now w - startTime)%Z;
     log_crawled_at := currentTimestamp w |}.

(** [y] has the key of [x]. *)
Definition sameKey {A : Type} (key : A -> string) (x y : A) : bool :=
  String.eqb (key y) (key x).

(** The duplicate filter run on the part [l] of the array [seen ++ l]. *)
Definition keptFrom {A : Type} (key : A -> string) (seen l : list A) : list A :=
  map fst (filter (fun xi => isFirstBy key (fst xi) (snd xi) (seen ++ l))
                  (combine l (seq (List.length seen) (List.length l)))).

(** ** One politician on request

    [crawlSinglePolitician] fetches with the [node-fetch] package, which is
    not part of the repository: a call is whatever the package does to the
    world, and a response is what the code reads off it. *)

Class NodeFetch : Type := {
  FetchResponse : Type;
  nodeFetch : string -> World -> completion FetchResponse * World;  (* await fetch(url, options) *)
  response_ok : FetchResponse -> bool;                               (* response.ok *)
  response_status : FetchResponse -> Z;                              (* response.status *)
  response_statusText : FetchResponse -> string;                     (* response.statusText *)
  responseText : FetchResponse -> World -> completion string * World (* await response.text() *)
}.

(** A call that touches the world only. *)
Definition inWorld {A} (f : World -> completion A * World) : M A :=
  fun s => let '(r, w') := f (snd s) in (r, (fst s, w')).

Definition fetch `{NodeFetch} (url : string) : M FetchResponse :=
  inWorld (nodeFetch url).

(** [SELECT id, name, website FROM politicians WHERE id = ?]. *)
Definition getPolitician (d : Database) (politicianId : string) : option Politician :=
  find (fun p => String.eqb (p_id p) politicianId) (politicians d).

Definition politicianNotFound (politicianId : string) : Exn :=
  Error ("Politician with id " ++ politicianId ++ " not found")%string.

(** The body of the loop over [policyPages.slice(0, 3)]: its [try] with
    its [catch], then the delay. *)
Definition crawlSinglePolicyPage `{Platform} `{NodeFetch}
    (positions : list Position) (policyPage : PolicyPage) : M (list Position) :=
  do positions' <-
    tryCatch
      (do policyResponse <- fetch (url policyPage);
       if response_ok policyResponse then
         do policyHtml <- inWorld (responseText policyResponse);
         do policyPositions <-
           extractPage (load policyHtml) (url policyPage) (topic policyPage);
         ret (positions ++ policyPositions)
       else ret positions)
      (fun policyError => ret positions);
  sleep 1000 ;;
  ret positions'.

(** The inner [try] of [crawlSinglePolitician] with its [catch]: the value
    of [positions] and of [errorMessage] after it.  [positions] is assigned
    once the home page is classified; what is thrown before finds it empty,
    the discovery of pages finds it assigned, and a save finds it with the
    positions of the policy pages pushed on it. *)
Definition crawlSingleWebsite `{Platform} `{NodeFetch} (politician : Politician)
    (website : string) : M (list Position * option string) :=
  tryCatch
    (do response <- fetch website;
     if negb (response_ok response)
     then throw (httpError (response_status response) (response_statusText response))
     else
       do html <- inWorld (responseText response);
       let page := load html in
       do positions <- extractPage page website None;
       tryCatch
         (do policyPages <- liftResult (discoverPolicyPages page website);
          do positions <-
            forEachM (firstn 3 policyPages) positions crawlSinglePolicyPage;
          tryCatch
            (savePositions (p_id politician) positions ;;
             ret (positions, @None string))
            (fun crawlError => ret (positions, Some (message crawlError))))
         (fun crawlError => ret (positions, Some (message crawlError))))
    (fun crawlError => ret ([], Some (message crawlError))).

(** [errorMessage ? 'error' : 'success']: the empty message is falsy. *)
Definition statusOf (errorMessage : option string) : string :=
  match errorMessage with
  | Some m => if String.eqb m "" then "success" else "error"
  | None => "success"
  end.

(** [crawlSinglePolitician(politicianId)]; its outer [catch] reports the
    exception and throws it again. *)
Definition crawlSinglePolitician `{Platform} `{NodeFetch} (politicianId : string)
  : M unit :=
  do startTime <- dateNow;
  do c <- getCrawler;
  match getPolitician (db c) politicianId with
  | None => throw (politicianNotFound politicianId)
  | Some politician =>
      match p_website politician with
      | None => ret tt
      | Some website =>
          if String.eqb website "" then ret tt
          else
            do nowMs <- dateNow;
            if shouldSkipPolitician (db c) nowMs (p_id politician) then ret tt
            else
              do found <- crawlSingleWebsite politician website;
              do endTime <- dateNow;
              logCrawlAttempt (p_id politician) (Some website)
                              (statusOf (snd found))
                              (Z.of_nat (List.length (fst found)))
                              (snd found) (endTime - startTime)%Z
      end
  end.

(** A [node-fetch] for the examples: a call consumes the next outcome of
    the network and follows no redirect; it has no timeout of its own. *)
Module DemoFetch.

Record Answer : Type := {
  answer_status : Z;
  answer_statusText : string;
  answer_body : string
}.

Definition call (url : string) (w : World) : completion Answer * World :=
  match network w with
  | [] => (Hangs, w)
  | step :: net =>
      let w' := {| now := (now w + latency step)%Z; network := net;
                   trace := trace w ++ [Request url] |} in
      match outcome step with
      | Response statusCode statusMessage _ body =>
          (Returns {| answer_status := statusCode;
                      answer_statusText := statusMessage;
                      answer_body := body |}, w')
      | NetworkError error => (Throws error, w')
      | Timeout => (Hangs, w')
      end
  end.

Definition library : NodeFetch :=
  {| FetchResponse := Answer;
     nodeFetch := call;
     response_ok := fun a => ((200 <=? answer_status a) && (answer_status a <? 300))%Z;
     response_status := answer_status;
     response_statusText := answer_statusText;
     responseText := fun a w => (Returns (answer_body a), w) |}.

End DemoFetch.

(** ** Notions of the further properties *)

(** What [identifyTopicsIn] has built after the rows [seen]. *)
Definition classified (text : string) (seen : list TopicAliasRow)
    (topics : list Topic) : Prop :=
  NoDup (map id topics)
  /\ (forall t, In t topics ->
        exists row, In row seen
                    /\ includes (toLowerCase text) (row_alias row) = true
                    /\ row_id row = id t
                    /\ t_confidence t = row_confidence_score row)
  /\ (forall t row, In t topics -> In row seen ->
        includes (toLowerCase text) (row_alias row) = true ->
        row_id row = id t ->
        (row_confidence_score row <= t_confidence t)%Q)
  /\ (forall row, In row seen ->
        includes (toLowerCase text) (row_alias row) = true ->
        exists t, In t topics /\ id t = row_id row).

(** The body of the loop of [initializeTopicMappings], for one topic. *)
Definition seedTopic (db : Database) (topic : CoreTopic) : Database :=
  let db := insertTopic db (ct_canonical_name topic) (ct_display_name topic)
                        (ct_description topic) in
  match getTopicByCanonicalName db (ct_canonical_name topic) with
  | Some topicRow =>
      let db := insertAlias db (topic_id topicRow) (ct_canonical_name topic) 1.0%Q in
      let db := insertAlias db (topic_id topicRow)
                            (toLowerCase (ct_display_name topic)) 1.0%Q in
      fold_left (fun db a => insertAlias db (topic_id topicRow) (toLowerCase a) 0.8%Q)
                (ct_aliases topic) db
  | None => db
  end.


(** [d'] is [d] with further rows at the end of the two taxonomy tables. *)
Definition extendsTaxonomy (d d' : Database) : Prop :=
  politicians d' = politicians d
  /\ politician_positions d' = politician_positions d
  /\ crawl_log d' = crawl_log d
  /\ last_position_id d' = last_position_id d
  /\ (exists topics, policy_topics d' = policy_topics d ++ topics)
  /\ (exists aliases, topic_aliases d' = topic_aliases d ++ aliases).

(** The pair [(topicId, a)] is in [topic_aliases]. *)
Definition hasAlias (d : Database) (topicId : Z) (a : string) : bool :=
  existsb (fun r => Z.eqb (alias_topic_id r) topicId && String.eqb (alias r) a)
          (topic_aliases d).

(** The names a seed topic is stored under. *)
Definition seedAliases (topic : CoreTopic) : list string :=
  ct_canonical_name topic :: toLowerCase (ct_display_name topic)
  :: map toLowerCase (ct_aliases topic).

(** The topic is stored, with all its names as aliases. *)
Definition installed (d : Database) (topic : CoreTopic) : Prop :=
  exists row,
    getTopicByCanonicalName d (ct_canonical_name topic) = Some row
    /\ forall a, In a (seedAliases topic) -> hasAlias d (topic_id row) a = true.

(** The words [extractKeyPhrases] looks for, given the stance found: the
    support words for [support], the oppose words for any other stance. *)
Definition stanceWords (position : string) : list string :=
  if String.eqb position "support"
  then ["support"; "advocate"; "believe"; "committed"; "will fight"]
  else ["oppose"; "against"; "reject"; "block"; "stop"].

(** The timers and the requests of a trace, in order. *)
Definition sleeps (tr : list Event) : list Z :=
  flat_map (fun e => match e with Sleep ms => [ms] | Request _ => [] end) tr.

Definition requests (tr : list Event) : list string :=
  flat_map (fun e => match e with Request u => [u] | Sleep _ => [] end) tr.

Definition total (l : list Z) : Z := fold_right Z.add 0%Z l.

Definition isTimeout (o : Outcome) : bool :=
  match o with Timeout => true | _ => false end.

Definition isNetworkError (o : Outcome) : bool :=
  match o with NetworkError _ => true | _ => false end.

Definition timedOut (used : list NetStep) : bool :=
  existsb (fun step => isTimeout (outcome step)) used.

Definition errorsIn (used : list NetStep) : nat :=
  List.length (filter (fun step => isNetworkError (outcome step)) used).

(** The outcomes the caller of a fetch has waited for: those up to the
    first timeout. *)
Fixpoint awaited (used : list NetStep) : list NetStep :=
  match used with
  | [] => []
  | step :: rest =>
      if isTimeout (outcome step) then [step] else step :: awaited rest
  end.

(** What a call of [fetchFrom] that started at [now0] with the outcomes
    [net], the trace [tr] and [retryCount] retries made has used up when
    it ends in [res]. *)
Definition fetchAccount (retries : nat) (net : list NetStep) (retryCount : nat)
    (now0 : Z) (tr : list Event) (res : completion string * World) : Prop :=
  exists used added k,
    net = used ++ network (snd res)
    /\ trace (snd res) = tr ++ added
    /\ sleeps added = map retryDelay (seq retryCount k)
    /\ k <= retries - retryCount
    /\ (List.length (requests added) = List.length used
        \/ (List.length (requests added) = List.length used + 1
            /\ network (snd res) = []))
    /\ (fst res = Hangs ->
        List.length (requests added) = List.length used + 1
        /\ network (snd res) = []
        /\ timedOut used = false)
    /\ (timedOut used = false ->
        now (snd res) = (now0 + total (map latency used) + total (sleeps added))%Z
        /\ (fst res <> Hangs -> List.length (requests added) = List.length used))
    /\ (timedOut used = true ->
        fst res = Throws requestTimeout
        /\ now (snd res)
           = (now0 + total (map latency (awaited used))
              + total (map retryDelay (seq retryCount (errorsIn (awaited used)))))%Z).

(** A response that redirects to [hop_target]. *)
Record Hop : Type := {
  hop_latency : Z;
  hop_status : Z;
  hop_target : string
}.

Definition stepOfHop (h : Hop) : NetStep :=
  {| latency := hop_latency h;
     outcome := Response (hop_status h) "" (Some (hop_target h)) "" |}.

(** The unique pair of a row of [politician_positions]. *)
Definition pairOf (r : PositionRow) : string * Z :=
  (pos_politician_id r, pos_topic_id r).

(** The constraints of [politician_positions]: one row per (politician,
    topic) pair, one row per key, and no key above the last one handed out. *)
Definition positionsKeyed (d : Database) : Prop :=
  NoDup (map pairOf (politician_positions d))
  /\ NoDup (map pos_id (politician_positions d))
  /\ Forall (fun r => (pos_id r <= last_position_id d)%Z) (politician_positions d).



(** A crawler without [coreTopics] whose positions table holds [rows]. *)
Definition barren (rows : list PositionRow) (s : State) : Prop :=
  coreTopics (fst s) = None /\ politician_positions (db (fst s)) = rows.

(** [m] keeps the property [I] of the state, and what it returns has [P]. *)
Definition yields {A : Type} (I : State -> Prop) (P : A -> Prop) (m : M A) : Prop :=
  forall s, I s -> I (snd (m s)) /\ forall a, fst (m s) = Returns a -> P a.

(** The alias is what [toLowerCase] makes of it. *)
Definition isLowerCase (s : string) : bool := String.eqb (toLowerCase s) s.

(* ================================================================== *)
(** * Part II: properties *)
(* ================================================================== *)

Unset Implicit Arguments.

(** ** Loops that may throw *)

Section ForEach.
Context {A S : Type}.
Variable f : S -> A -> result S.

(** A callback that never throws gives a loop that never throws. *)
Lemma forEach_total (l : list A) (s : S) :
  (forall s x, exists s', f s x = Ok s') -> exists s', forEach l s f = Ok s'.
Proof.
  intros Hf; revert s; induction l as [|x l IH]; intros s; simpl.
  - now exists s.
  - destruct (Hf s x) as [s' ->]; simpl; apply IH.
Qed.

(** An exception of the loop is an exception of one call of the callback. *)
Lemma forEach_throw (l : list A) (s : S) (e : Exn) :
  forEach l s f = Throw e -> exists s' x, In x l /\ f s' x = Throw e.
Proof.
  revert s; induction l as [|x l IH]; intros s; simpl; [discriminate|].
  destruct (f s x) as [s'|e'] eqn:E; simpl.
  - intros H; destruct (IH _ H) as (s'' & y & Hy & Hf); eauto.
  - intros [= <-]; eauto.
Qed.

(** A property of the captured variables that every normal call keeps. *)
Lemma forEach_invariant (I : S -> Prop) (l : list A) (s s' : S) :
  (forall s x s', In x l -> I s -> f s x = Ok s' -> I s') ->
  I s -> forEach l s f = Ok s' -> I s'.
Proof.
  revert s; induction l as [|x l IH]; intros s Hf Hs; simpl.
  - now intros [= <-].
  - destruct (f s x) as [s1|] eqn:E; simpl; [|discriminate].
    apply IH; [intros; eapply Hf; eauto; now right|].
    eapply Hf; eauto; now left.
Qed.
End ForEach.

(** ** Stance analyzer *)

Ltac break_if_in H :=
  repeat match type of H with
         | (if ?b then _ else _) = _ => destruct b
         end.

Lemma extractKeyPhrases_undefined (text topic position : string) :
  longSentences text <> [] ->
  extractKeyPhrases None text topic position = Throw (readOfUndefined topic).
Proof.
  unfold extractKeyPhrases; destruct (longSentences text); [congruence|reflexivity].
Qed.

Lemma extractKeyPhrases_no_sentence (ct : CoreTopics) (text topic position : string) :
  longSentences text = [] -> extractKeyPhrases ct text topic position = Ok [].
Proof. unfold extractKeyPhrases; now intros ->. Qed.


Lemma extractKeyPhrases_TypeError (ct : CoreTopics) (text topic position : string)
    (e : Exn) :
  extractKeyPhrases ct text topic position = Throw e -> exists msg, e = TypeError msg.
Proof.
  unfold extractKeyPhrases.
  match goal with
  | |- context [forEach ?l ?s ?f] => destruct (forEach l s f) eqn:E
  end; cbn [JS.bind]; [discriminate|].
  intros [= <-]. apply forEach_throw in E as (s' & x & _ & H).
  destruct ct as [table|].
  - destruct (getProperty table topic); cbn [JS.bind] in H.
    + break_if_in H; discriminate.
    + injection H as <-. unfold someIsNotAFunction. eauto.
    + break_if_in H; discriminate.
  - injection H as <-. unfold readOfUndefined. eauto.
Qed.







Lemma analyzePosition_TypeError (ct : CoreTopics) (text topic : string) (e : Exn) :
  analyzePosition ct text topic = Throw e -> exists msg, e = TypeError msg.
Proof.
  unfold analyzePosition.
  destruct (getTopicIndicators topic); simpl.
  2: intros [= <-]; unfold readOfUndefined; eauto.
  all: match goal with
       | |- context [determinePosition ?s ?o ?k] =>
           destruct (determinePosition s o k) as [p c]
       end.
  all: destruct (extractKeyPhrases ct text topic p) eqn:E; cbn [JS.bind];
    [discriminate|].
  all: intros [= <-]; now apply extractKeyPhrases_TypeError in E.
Qed.

Lemma analyzePosition_undefined (text topic : string) :
  longSentences text <> [] ->
  exists msg, analyzePosition None text topic = Throw (TypeError msg).
Proof.
  intros H. unfold analyzePosition.
  destruct (getTopicIndicators topic); simpl.
  2: unfold readOfUndefined; eauto.
  all: match goal with
       | |- context [determinePosition ?s ?o ?k] =>
           destruct (determinePosition s o k) as [p c]
       end.
  all: rewrite (extractKeyPhrases_undefined _ _ _ H); simpl.
  all: unfold readOfUndefined; eauto.
Qed.

Lemma analyzePosition_inversion (ct : CoreTopics) (text topic : string) (a : Analysis) :
  analyzePosition ct text topic = Ok a ->
  let lowerText := toLowerCase text in
  let s := scoreSupport lowerText (topicLexicon topic) in
  let o := scoreOppose lowerText (topicLexicon topic) in
  let k := scoreStrength lowerText in
  position a = fst (determinePosition s o k)
  /\ confidence a = snd (determinePosition s o k)
  /\ supportScore a = s /\ opposeScore a = o.
Proof.
  unfold analyzePosition, topicLexicon.
  destruct (getTopicIndicators topic); simpl; try discriminate.
  all: match goal with
       | |- context [determinePosition ?s ?o ?k] =>
           destruct (determinePosition s o k) as [p c]
       end.
  all: destruct (extractKeyPhrases ct text topic p);
    cbn [JS.bind]; [|discriminate].
  all: intros [= <-]; cbn [position confidence supportScore opposeScore fst snd];
    auto.
Qed.


(** *** The scores the lexicons can give, and the doubles on them *)











(** ** Position summary *)


Lemma extractPositionSummary_TypeError (ct : CoreTopics) (text : string)
    (topic : Topic) (analysis : option Analysis) (e : Exn) :
  extractPositionSummary ct text topic analysis = Throw e ->
  exists msg, e = TypeError msg.
Proof.
  unfold extractPositionSummary.
  destruct (match analysis with Some a => _ | None => None end); [discriminate|].
  match goal with
  | |- context [forEach ?l ?s ?f] => destruct (forEach l s f) as [rel|e'] eqn:E
  end; simpl.
  - destruct rel; [|discriminate].
    destruct (filter _ _); discriminate.
  - intros [= <-]. apply forEach_throw in E as (s' & x & _ & H).
    destruct (sentenceMentions topic (toLowerCase x)); cbn [JS.bind] in H.
    + break_if_in H; discriminate.
    + destruct ct as [table|]; cbn [JS.bind] in H.
      * destruct (getProperty table (canonical_name topic)); cbn [JS.bind] in H.
        -- break_if_in H; discriminate.
        -- injection H as <-. unfold someIsNotAFunction. eauto.
        -- break_if_in H; discriminate.
      * injection H as <-. unfold readOfUndefined. eauto.
Qed.

(** Without a sentence of more than 20 characters the summary is a lone
    full stop. *)
Lemma extractPositionSummary_no_sentence (ct : CoreTopics) (text : string)
    (topic : Topic) (a : Analysis) :
  longSentences text = [] -> keyPhrases a = [] ->
  extractPositionSummary ct text topic (Some a) = Ok ".".
Proof.
  intros Hs Hk. unfold extractPositionSummary. rewrite Hs, Hk. reflexivity.
Qed.


(** ** One section and one topic *)

Lemma positionOf_TypeError (ct : CoreTopics) (sourceUrl : string)
    (section : Section) (topic : Topic) (e : Exn) :
  positionOf ct sourceUrl section topic = Throw e -> exists msg, e = TypeError msg.
Proof.
  unfold positionOf.
  destruct (analyzePosition ct (text section) (canonical_name topic)) as [a|e'] eqn:E;
    simpl.
  - destruct (_ && _); [|discriminate].
    destruct (extractPositionSummary ct (text section) topic (Some a)) eqn:E';
      simpl.
    + destruct (20 <? _); discriminate.
    + intros [= <-]. now apply extractPositionSummary_TypeError in E'.
  - intros [= <-]. eapply analyzePosition_TypeError; eauto.
Qed.

Lemma positionOf_undefined (sourceUrl : string) (section : Section) (topic : Topic) :
  longSentences (text section) <> [] ->
  exists msg, positionOf None sourceUrl section topic = Throw (TypeError msg).
Proof.
  intros H. unfold positionOf.
  destruct (analyzePosition_undefined (text section) (canonical_name topic) H)
    as [msg ->].
  simpl; eauto.
Qed.

(** What an emitted position records. *)
Lemma positionOf_emitted (ct : CoreTopics) (sourceUrl : string)
    (section : Section) (topic : Topic) (p : Position) :
  positionOf ct sourceUrl section topic = Ok (Some p) ->
  exists a,
    analyzePosition ct (text section) (canonical_name topic) = Ok a
    /\ Qgtb (confidence a) 0.2%Q = true
    /\ position a <> "neutral"
    /\ stance p = position a
    /\ pn_strength p = strength a
    /\ pn_topic_id p = id topic
    /\ confidence_score p = Qmin (t_confidence topic) (confidence a)
    /\ 20 < String.length (position_summary p).
Proof.
  unfold positionOf.
  destruct (analyzePosition ct (text section) (canonical_name topic)) as [a|]; simpl;
    [|discriminate].
  destruct (Qgtb (confidence a) 0.2%Q) eqn:Hc; simpl; [|discriminate].
  destruct (String.eqb (position a) "neutral") eqn:Hn; simpl; [discriminate|].
  destruct (extractPositionSummary ct (text section) topic (Some a)) as [summary|];
    simpl; [|discriminate].
  destruct (20 <? String.length summary) eqn:Hl; [|discriminate].
  intros [= <-]. exists a; cbn.
  repeat split; auto.
  - intros Heq; rewrite Heq in Hn; discriminate.
  - now apply Nat.ltb_lt.
Qed.

(** On a crawler as its constructor leaves it, no (section, topic) pair
    ever yields a position: with a long sentence the analysis throws, and
    without one the summary is too short to be kept. *)
Lemma positionOf_never_emits (sourceUrl : string) (section : Section)
    (topic : Topic) (r : option Position) :
  positionOf None sourceUrl section topic = Ok r -> r = None.
Proof.
  destruct (longSentences (text section)) as [|s l] eqn:Hs.
  - unfold positionOf.
    destruct (analyzePosition None (text section) (canonical_name topic)) as [a|] eqn:E;
      simpl; [|discriminate].
    assert (Hk : keyPhrases a = []).
    { revert E. unfold analyzePosition.
      destruct (getTopicIndicators (canonical_name topic)); simpl; try discriminate.
      all: match goal with
           | |- context [determinePosition ?s ?o ?k] =>
               destruct (determinePosition s o k) as [p c]
           end.
      all: rewrite (extractKeyPhrases_no_sentence None _ _ _ Hs); simpl.
      all: now intros [= <-]. }
    destruct (_ && _); [|now intros [= <-]].
    rewrite (extractPositionSummary_no_sentence None _ topic a Hs Hk); simpl.
    now intros [= <-].
  - intros H.
    destruct (positionOf_undefined sourceUrl section topic) as [msg E];
      [rewrite Hs; discriminate|congruence].
Qed.


(** ** One section, one page *)

Lemma positionsOfSection_TypeError (ct : CoreTopics) (d : Database)
    (sourceUrl : string) (hintTopic : option string) (acc : list Position)
    (section : Section) (e : Exn) :
  positionsOfSection ct d sourceUrl hintTopic acc section = Throw e ->
  exists msg, e = TypeError msg.
Proof.
  intros H. apply forEach_throw in H as (s' & topic & _ & H).
  destruct (positionOf ct sourceUrl section topic) eqn:E; simpl in H; [discriminate|].
  injection H as <-. eapply positionOf_TypeError; eauto.
Qed.


Lemma positionsOfSection_source (ct : CoreTopics) (d : Database)
    (sourceUrl : string) (hintTopic : option string) (acc acc' : list Position)
    (section : Section) :
  positionsOfSection ct d sourceUrl hintTopic acc section = Ok acc' ->
  forall p, In p acc' ->
    In p acc
    \/ exists topic, In topic (topicsOfSection d hintTopic section)
                     /\ positionOf ct sourceUrl section topic = Ok (Some p).
Proof.
  unfold positionsOfSection. intros H.
  refine (forEach_invariant _
            (fun acc' => forall p, In p acc' ->
               In p acc
               \/ exists topic, In topic (topicsOfSection d hintTopic section)
                   /\ positionOf ct sourceUrl section topic = Ok (Some p))
            _ _ _ _ _ H); [|now left].
  intros s topic s' Hin IH.
  destruct (positionOf ct sourceUrl section topic) as [r|] eqn:E;
    cbn [JS.bind]; [|discriminate].
  intros [= <-] p Hp. apply in_app_or in Hp as [Hp|Hp]; [auto|].
  destruct r as [q|]; cbn [optList] in Hp; [|contradiction].
  destruct Hp as [<-|[]]. right; eauto.
Qed.

Lemma extractPolicyPositions_source (ct : CoreTopics) (d : Database) (page : Page)
    (sourceUrl : string) (hintTopic : option string) (positions : list Position) :
  extractPolicyPositions ct d page sourceUrl hintTopic = Ok positions ->
  forall p, In p positions ->
    exists section topic,
      In section (findContentSections page)
      /\ In topic (topicsOfSection d hintTopic section)
      /\ positionOf ct sourceUrl section topic = Ok (Some p).
Proof.
  unfold extractPolicyPositions. intros H.
  refine (forEach_invariant _
            (fun acc => forall p, In p acc ->
               exists section topic,
                 In section (findContentSections page)
                 /\ In topic (topicsOfSection d hintTopic section)
                 /\ positionOf ct sourceUrl section topic = Ok (Some p))
            _ _ _ _ _ H); [|intros _ []].
  intros s section s' Hin IH E p Hp.
  destruct (positionsOfSection_source _ _ _ _ _ _ _ E p Hp) as [Hq|(topic & Ht & Hq)];
    eauto.
Qed.

Lemma extractPolicyPositions_TypeError (ct : CoreTopics) (d : Database) (page : Page)
    (sourceUrl : string) (hintTopic : option string) (e : Exn) :
  extractPolicyPositions ct d page sourceUrl hintTopic = Throw e ->
  exists msg, e = TypeError msg.
Proof.
  intros H. apply forEach_throw in H as (s' & section & _ & H).
  eapply positionsOfSection_TypeError; eauto.
Qed.


(** On a crawler as its constructor leaves it, a page never yields a
    position. *)
Lemma extractPolicyPositions_never_emits (d : Database) (page : Page)
    (sourceUrl : string) (hintTopic : option string) (positions : list Position) :
  extractPolicyPositions None d page sourceUrl hintTopic = Ok positions ->
  positions = [].
Proof.
  intros H. destruct positions as [|p l]; [reflexivity|].
  destruct (extractPolicyPositions_source _ _ _ _ _ _ H p (or_introl eq_refl))
    as (section & topic & _ & _ & E).
  now apply positionOf_never_emits in E.
Qed.

(** ** Topic classifier *)

Lemma fold_left_invariant {A B : Type} (I : A -> Prop) (f : A -> B -> A)
    (l : list B) (a : A) :
  I a -> (forall a x, In x l -> I a -> I (f a x)) -> I (fold_left f l a).
Proof.
  revert a; induction l as [|x l IH]; intros a Ha Hf; simpl; [assumption|].
  apply IH; [apply Hf; auto; now left|].
  intros; apply Hf; auto; now right.
Qed.

Lemma raiseConfidence_In (tid : Z) (score : Q) (topics : list Topic) (t : Topic) :
  In t (raiseConfidence tid score topics) ->
  In t topics \/ t_confidence t = score.
Proof.
  induction topics as [|u l IH]; simpl; [tauto|].
  destruct (Z.eqb (id u) tid).
  - intros [<-|H]; [|auto]. destruct (Qgtb score (t_confidence u)); cbn; auto.
  - intros [<-|H]; [auto|]. destruct (IH H); auto.
Qed.

(** The confidence of an identified topic is the weight of one of the
    aliases that were read. *)
Lemma identifyTopicsIn_confidence (rows : list TopicAliasRow) (text : string)
    (t : Topic) :
  In t (identifyTopicsIn rows text) ->
  exists row, In row rows /\ t_confidence t = row_confidence_score row.
Proof.
  unfold identifyTopicsIn. revert t.
  apply (fold_left_invariant
           (fun topics => forall t, In t topics ->
              exists row, In row rows /\ t_confidence t = row_confidence_score row)).
  - intros t [].
  - intros topics row Hrow IH t.
    destruct (includes _ _); [|apply IH].
    destruct (existsb _ topics).
    + intros H. apply raiseConfidence_In in H as [H|H]; eauto.
    + intros H. apply in_app_or in H as [H|[<-|[]]]; eauto.
Qed.

Lemma allTopicAliases_confidence (d : Database) (row : TopicAliasRow) :
  In row (allTopicAliases d) ->
  exists a, In a (topic_aliases d)
            /\ row_confidence_score row = alias_confidence_score a.
Proof.
  unfold allTopicAliases. rewrite in_flat_map. intros (t & _ & H).
  apply in_map_iff in H as (a & <- & H). apply filter_In in H as [H _]. eauto.
Qed.

(** A topic a section is analysed for carries the weight of a stored alias
    or the weight 0.9 of a hint. *)
Lemma topicsOfSection_confidence (d : Database) (hintTopic : option string)
    (section : Section) (t : Topic) :
  In t (topicsOfSection d hintTopic section) ->
  t_confidence t = 0.9%Q
  \/ exists a, In a (topic_aliases d) /\ t_confidence t = alias_confidence_score a.
Proof.
  assert (Hid : In t (identifyTopics d (text section)) ->
                exists a, In a (topic_aliases d)
                          /\ t_confidence t = alias_confidence_score a).
  { intros H. apply identifyTopicsIn_confidence in H as (row & Hrow & ->).
    now apply allTopicAliases_confidence. }
  unfold topicsOfSection.
  destruct hintTopic as [hint|]; [|auto].
  destruct (String.eqb hint ""); [auto|].
  destruct (getTopicByCanonicalName d hint); [|auto].
  destruct (existsb _ _); [auto|].
  intros [<-|H]; auto.
Qed.

Lemma Qgtb_lt (a b : Q) : Qgtb a b = true <-> (b < a)%Q.
Proof.
  unfold Qgtb. rewrite negb_true_iff. split.
  - intros H. apply Qnot_le_lt. intros Hle. apply Qle_bool_iff in Hle. congruence.
  - intros H. destruct (Qle_bool a b) eqn:E; [|reflexivity].
    apply Qle_bool_iff in E. exfalso. eapply Qlt_not_le; eauto.
Qed.




(** ** Array idioms *)

Section FindIndex.
Context {A : Type}.
Variable p : A -> bool.

Lemma findIndex_app (l1 l2 : list A) :
  findIndex p (l1 ++ l2)
  = match findIndex p l1 with
    | Some i => Some i
    | None => option_map (Nat.add (List.length l1)) (findIndex p l2)
    end.
Proof.
  induction l1 as [|x l1 IH]; simpl.
  - now destruct (findIndex p l2).
  - destruct (p x); [reflexivity|]. rewrite IH.
    destruct (findIndex p l1); simpl; [reflexivity|].
    now destruct (findIndex p l2).
Qed.

Lemma findIndex_lt (l : list A) (i : nat) :
  findIndex p l = Some i -> i < List.length l.
Proof.
  revert i; induction l as [|x l IH]; intros i; simpl; [discriminate|].
  destruct (p x); [intros [= <-]; lia|].
  destruct (findIndex p l); simpl; [|discriminate].
  intros [= <-]. specialize (IH _ eq_refl). lia.
Qed.

Lemma findIndex_None (l : list A) :
  findIndex p l = None <-> existsb p l = false.
Proof.
  induction l as [|x l IH]; simpl; [tauto|].
  destruct (p x); simpl; [split; discriminate|].
  destruct (findIndex p l) as [i|]; simpl.
  - split; [discriminate|]. intros H. apply IH in H. discriminate.
  - split; [intros _; now apply IH|reflexivity].
Qed.
End FindIndex.

(** The filter [index === self.findIndex(s => key(s) === key(x))] keeps
    the first element of every key and drops the later ones. *)
Section KeepFirst.
Context {A : Type}.
Variable key : A -> string.

Lemma filterIndexed_keptFrom (l : list A) :
  filterIndexed (isFirstBy key) l = keptFrom key [] l.
Proof. reflexivity. Qed.

Lemma isFirstBy_at (seen l : list A) (x : A) :
  isFirstBy key x (List.length seen) (seen ++ x :: l)
  = negb (existsb (sameKey key x) seen).
Proof.
  unfold isFirstBy. rewrite findIndex_app.
  destruct (findIndex (fun s => String.eqb (key s) (key x)) seen) as [i|] eqn:E.
  - assert (existsb (sameKey key x) seen = true) as ->.
    { destruct (existsb (sameKey key x) seen) eqn:E'; [reflexivity|].
      apply findIndex_None in E'. unfold sameKey in E'. congruence. }
    apply findIndex_lt in E. simpl. apply Nat.eqb_neq. lia.
  - apply findIndex_None in E. unfold sameKey. rewrite E. simpl.
    rewrite String.eqb_refl. simpl. rewrite Nat.add_0_r. apply Nat.eqb_refl.
Qed.

Lemma keptFrom_cons (seen l : list A) (x : A) :
  keptFrom key seen (x :: l)
  = (if existsb (sameKey key x) seen then [] else [x]) ++ keptFrom key (seen ++ [x]) l.
Proof.
  unfold keptFrom. simpl. rewrite isFirstBy_at.
  replace (seen ++ x :: l) with ((seen ++ [x]) ++ l) by now rewrite <- app_assoc.
  replace (S (List.length seen)) with (List.length (seen ++ [x]))
    by (rewrite length_app; simpl; lia).
  now destruct (existsb (sameKey key x) seen).
Qed.

Lemma keptFrom_In (l seen : list A) (y : A) :
  In y (keptFrom key seen l) -> In y l /\ existsb (sameKey key y) seen = false.
Proof.
  revert seen; induction l as [|x l IH]; intros seen; [intros []|].
  rewrite keptFrom_cons. intros H. apply in_app_or in H as [H|H].
  - destruct (existsb (sameKey key x) seen) eqn:E; [destruct H|].
    destruct H as [<-|[]]. split; [now left|assumption].
  - apply IH in H as [H1 H2]. split; [now right|].
    rewrite existsb_app in H2. now apply orb_false_iff in H2.
Qed.

Lemma keptFrom_NoDup (l seen : list A) : NoDup (map key (keptFrom key seen l)).
Proof.
  revert seen; induction l as [|x l IH]; intros seen; [constructor|].
  rewrite keptFrom_cons.
  destruct (existsb (sameKey key x) seen); simpl; [apply IH|].
  constructor; [|apply IH].
  intros H. apply in_map_iff in H as (y & Hk & Hy).
  apply keptFrom_In in Hy as [_ Hy]. rewrite existsb_app in Hy.
  apply orb_false_iff in Hy as [_ Hy]. simpl in Hy. unfold sameKey in Hy.
  rewrite Hk, String.eqb_refl in Hy. discriminate.
Qed.

(** Every element has its key kept, unless the key was seen before. *)
Lemma keptFrom_complete (l seen : list A) (y : A) :
  In y l ->
  existsb (sameKey key y) seen = true
  \/ exists z, In z (keptFrom key seen l) /\ key z = key y.
Proof.
  revert seen; induction l as [|x l IH]; intros seen; [intros []|].
  rewrite keptFrom_cons. intros [<-|H].
  - destruct (existsb (sameKey key x) seen); [now left|].
    right. exists x. split; [now left|reflexivity].
  - destruct (IH (seen ++ [x]) H) as [Hs|(z & Hz & Hk)].
    + rewrite existsb_app in Hs. apply orb_true_iff in Hs as [Hs|Hs]; [now left|].
      simpl in Hs. rewrite orb_false_r in Hs. unfold sameKey in Hs.
      apply String.eqb_eq in Hs.
      destruct (existsb (sameKey key x) seen) eqn:E.
      * left. unfold sameKey in E |- *. now rewrite Hs in E.
      * right. exists x. split; [now left|assumption].
    + right. exists z. split; [apply in_or_app; now right|assumption].
Qed.

(** The three facts about [l.filter(...)] the extractors rely on. *)
Lemma filterIndexed_isFirstBy (l : list A) :
  NoDup (map key (filterIndexed (isFirstBy key) l))
  /\ (forall y, In y (filterIndexed (isFirstBy key) l) -> In y l)
  /\ (forall y, In y l ->
        exists z, In z (filterIndexed (isFirstBy key) l) /\ key z = key y).
Proof.
  rewrite filterIndexed_keptFrom. split; [apply keptFrom_NoDup|]. split.
  - intros y H. now apply keptFrom_In in H.
  - intros y H. destruct (keptFrom_complete l [] y H) as [E|E]; [discriminate|auto].
Qed.
End KeepFirst.

Section Sort.
Context {A : Type}.
Variable le : A -> A -> bool.
Hypothesis le_total : forall x y, le x y = true \/ le y x = true.
Hypothesis le_trans : forall x y z, le x y = true -> le y z = true -> le x z = true.

Lemma insertSorted_Permutation (x : A) (l : list A) :
  Permutation (insertSorted le x l) (x :: l).
Proof.
  induction l as [|y l IH]; simpl; [reflexivity|].
  destruct (le x y); [reflexivity|].
  rewrite IH. apply perm_swap.
Qed.

Lemma sort_Permutation (l : list A) : Permutation (sort le l) l.
Proof.
  induction l as [|x l IH]; simpl; [reflexivity|].
  rewrite insertSorted_Permutation. now constructor.
Qed.

Lemma insertSorted_sorted (x : A) (l : list A) :
  StronglySorted (fun a b => le a b = true) l ->
  StronglySorted (fun a b => le a b = true) (insertSorted le x l).
Proof.
  induction 1 as [|y l Hl IH Hy]; simpl; [repeat constructor|].
  destruct (le x y) eqn:E.
  - constructor; [now constructor|].
    constructor; [assumption|].
    eapply Forall_impl; [|exact Hy]. intros z Hz. eapply le_trans; eauto.
  - constructor; [assumption|].
    assert (Hyx : le y x = true) by (destruct (le_total x y); congruence).
    eapply Permutation_Forall; [symmetry; apply insertSorted_Permutation|].
    now constructor.
Qed.

Lemma sort_sorted (l : list A) :
  StronglySorted (fun a b => le a b = true) (sort le l).
Proof.
  induction l as [|x l IH]; simpl; [constructor|].
  now apply insertSorted_sorted.
Qed.
End Sort.

Lemma firstn_incl {A : Type} (n : nat) (l : list A) (x : A) :
  In x (firstn n l) -> In x l.
Proof.
  revert n; induction l as [|y l IH]; intros [|n]; simpl; try tauto.
  intros [H|H]; [now left|right; eauto].
Qed.

Lemma firstn_StronglySorted {A : Type} (R : A -> A -> Prop) (n : nat) (l : list A) :
  StronglySorted R l -> StronglySorted R (firstn n l).
Proof.
  intros H; revert n; induction H as [|x l Hl IH Hx]; intros [|n]; simpl;
    try constructor; auto.
  rewrite Forall_forall in *. intros y Hy. apply Hx. eapply firstn_incl; eauto.
Qed.

Lemma firstn_NoDup_map {A B : Type} (f : A -> B) (n : nat) (l : list A) :
  NoDup (map f l) -> NoDup (map f (firstn n l)).
Proof.
  revert n; induction l as [|x l IH]; intros [|n]; simpl; try constructor.
  - inversion H; subst. intros Hin. apply H2.
    apply in_map_iff in Hin as (y & Hy & Hin). apply in_map_iff.
    exists y; split; [assumption|]. eapply firstn_incl; eauto.
  - inversion H; subst. now apply IH.
Qed.

(** The order of [ORDER BY] on text: bytes compared from the left. *)
Lemma string_compare_trans (a b c : string) :
  String.compare a b <> Gt -> String.compare b c <> Gt -> String.compare a c <> Gt.
Proof.
  revert b c; induction a as [|x a IH]; intros [|y b] [|z c]; simpl; try congruence.
  unfold Ascii.compare.
  destruct (N.compare_spec (N_of_ascii x) (N_of_ascii y)) as [Hxy|Hxy|Hxy];
    destruct (N.compare_spec (N_of_ascii y) (N_of_ascii z)) as [Hyz|Hyz|Hyz];
    destruct (N.compare_spec (N_of_ascii x) (N_of_ascii z)) as [Hxz|Hxz|Hxz];
    try congruence; try lia.
  apply IH.
Qed.

Lemma string_leb_trans (a b c : string) :
  String.leb a b = true -> String.leb b c = true -> String.leb a c = true.
Proof.
  unfold String.leb. intros Hab Hbc.
  assert (H : String.compare a c <> Gt).
  { apply (string_compare_trans a b c).
    - destruct (String.compare a b); congruence.
    - destruct (String.compare b c); congruence. }
  destruct (String.compare a c); congruence.
Qed.

Lemma StronglySorted_impl {A : Type} (R R' : A -> A -> Prop) (l : list A) :
  (forall a b, R a b -> R' a b) -> StronglySorted R l -> StronglySorted R' l.
Proof.
  intros HR; induction 1 as [|x l Hl IH Hx]; constructor; auto.
  eapply Forall_impl; [|exact Hx]. auto.
Qed.

(** An element is kept exactly when it is the first of its key. *)
Lemma keptFrom_first {A : Type} (key : A -> string) (l seen : list A) (y : A) :
  In y (keptFrom key seen l)
  <-> exists before after,
        l = before ++ y :: after
        /\ existsb (sameKey key y) (seen ++ before) = false.
Proof.
  revert seen; induction l as [|x l IH]; intros seen.
  - split; [intros []|]. intros (b & a & H & _). now destruct b.
  - rewrite keptFrom_cons. split.
    + intros H. apply in_app_or in H as [H|H].
      * destruct (existsb (sameKey key x) seen) eqn:E; [destruct H|].
        destruct H as [<-|[]]. exists [], l. now rewrite app_nil_r.
      * apply IH in H as (b & a & -> & H). exists (x :: b), a. split; [reflexivity|].
        now rewrite <- app_assoc in H.
    + intros (b & a & Hl & H). destruct b as [|x' b]; simpl in Hl.
      * injection Hl as -> ->. rewrite app_nil_r in H. rewrite H. now left.
      * injection Hl as -> ->. apply in_or_app. right. apply IH.
        exists b, a. split; [reflexivity|]. now rewrite <- app_assoc.
Qed.

(** ** Content extractor *)

Lemma sectionOfElement_kept (sel : string) (e : Element) :
  (exists s, sectionOfElement sel e = Some s)
  <-> 100 < String.length (trim (el_text e)) < 5000.
Proof.
  unfold sectionOfElement.
  set (n := String.length (trim (el_text e))).
  destruct (Nat.ltb_spec 100 n) as [H1|H1];
    destruct (Nat.ltb_spec n 5000) as [H2|H2]; cbn [andb].
  - split; [intros _; lia|eauto].
  - split; [intros [s H]; discriminate|lia].
  - split; [intros [s H]; discriminate|lia].
  - split; [intros [s H]; discriminate|lia].
Qed.

Lemma metaSection_kept (page : Page) :
  (exists s, metaSection page = Some s)
  <-> exists d, metaDescription page = Some d /\ 50 < String.length d.
Proof.
  unfold metaSection. destruct (metaDescription page) as [d|].
  - destruct (String.eqb d "") eqn:E0; simpl.
    + apply String.eqb_eq in E0 as ->. split; [intros [s H]; discriminate|].
      intros (d & [= <-] & H). simpl in H. lia.
    + destruct (50 <? String.length d) eqn:E; split.
      * intros _. exists d. split; [reflexivity|now apply Nat.ltb_lt].
      * eauto.
      * intros [s H]; discriminate.
      * intros (d' & [= <-] & H). apply Nat.ltb_ge in E. lia.
  - split; [intros [s H]; discriminate|intros (d & H & _); discriminate].
Qed.

Lemma candidateSections_In (page : Page) (s : Section) :
  In s (candidateSections page)
  <-> (exists sel e, In sel selectors /\ In e (select page sel)
                     /\ sectionOfElement sel e = Some s)
      \/ metaSection page = Some s.
Proof.
  unfold candidateSections. rewrite in_app_iff, in_flat_map. split.
  - intros [(sel & Hsel & H)|H].
    + apply in_flat_map in H as (e & He & H).
      destruct (sectionOfElement sel e) eqn:E; [|destruct H].
      destruct H as [<-|[]]. left; eauto.
    + destruct (metaSection page); [|destruct H]. destruct H as [<-|[]]. now right.
  - intros [(sel & e & Hsel & He & H)|H].
    + left. exists sel. split; [assumption|]. apply in_flat_map.
      exists e. split; [assumption|]. rewrite H. now left.
    + right. rewrite H. now left.
Qed.

Lemma scoreOrder_total (a b : Section) :
  scoreOrder a b = true \/ scoreOrder b a = true.
Proof.
  unfold scoreOrder.
  destruct (Nat.le_ge_cases (sectionScore b) (sectionScore a)) as [H|H];
    [left|right]; now apply Nat.leb_le.
Qed.

Lemma scoreOrder_trans (a b c : Section) :
  scoreOrder a b = true -> scoreOrder b c = true -> scoreOrder a c = true.
Proof.
  unfold scoreOrder. rewrite !Nat.leb_le. lia.
Qed.

(** C8, as the code has it: an element matched by a selector yields a
    section exactly when its trimmed text has more than 100 and fewer than
    5000 characters, and the meta description yields one exactly when it has
    more than 50; of the sections that share their first 200 characters only
    the first is kept; the kept sections are ranked by the score
    2 isKeySection + hasStructuredContent, highest first; at most 15 are
    returned. *)
Theorem findContentSections_ranked (page : Page) :
  (forall sel e,
      (exists s, sectionOfElement sel e = Some s)
      <-> 100 < String.length (trim (el_text e)) < 5000)
  /\ ((exists s, metaSection page = Some s)
      <-> exists d, metaDescription page = Some d /\ 50 < String.length d)
  /\ (forall s,
        In s (candidateSections page)
        <-> (exists sel e, In sel selectors /\ In e (select page sel)
                           /\ sectionOfElement sel e = Some s)
            \/ metaSection page = Some s)
  /\ (forall s, sectionScore s
                = (if isKeySection_ s then 2 else 0)
                  + (if hasStructuredContent_ s then 1 else 0))
  /\ exists kept ranked,
      (forall s, In s kept
                 <-> exists before after,
                       candidateSections page = before ++ s :: after
                       /\ existsb (sameKey head200 s) before = false)
      /\ NoDup (map head200 kept)
      /\ Permutation ranked kept
      /\ StronglySorted (fun a b => sectionScore b <= sectionScore a) ranked
      /\ findContentSections page = firstn 15 ranked
      /\ StronglySorted (fun a b => sectionScore b <= sectionScore a)
                        (findContentSections page)
      /\ NoDup (map head200 (findContentSections page))
      /\ List.length (findContentSections page) <= 15.
Proof.
  split; [apply sectionOfElement_kept|].
  split; [apply metaSection_kept|].
  split; [apply candidateSections_In|].
  split; [reflexivity|].
  exists (filterIndexed (isFirstBy head200) (candidateSections page)).
  exists (sort scoreOrder (filterIndexed (isFirstBy head200) (candidateSections page))).
  assert (Hsorted : StronglySorted (fun a b => sectionScore b <= sectionScore a)
                      (sort scoreOrder
                         (filterIndexed (isFirstBy head200) (candidateSections page)))).
  { apply StronglySorted_impl with (R := fun a b => scoreOrder a b = true).
    - intros a b H. now apply Nat.leb_le.
    - apply sort_sorted; [apply scoreOrder_total|apply scoreOrder_trans]. }
  assert (Hnodup : NoDup (map head200
                            (filterIndexed (isFirstBy head200)
                                           (candidateSections page))))
    by apply filterIndexed_isFirstBy.
  split; [|split; [|split; [|split; [|split; [|split; [|split]]]]]].
  - intros s. rewrite filterIndexed_keptFrom. apply keptFrom_first.
  - exact Hnodup.
  - apply sort_Permutation.
  - exact Hsorted.
  - reflexivity.
  - now apply firstn_StronglySorted.
  - apply firstn_NoDup_map.
    eapply Permutation_NoDup; [|exact Hnodup].
    apply Permutation_map. symmetry. apply sort_Permutation.
  - apply firstn_le_length.
Qed.

(** C8 as stated fails on a page whose meta description has 61 characters:
    the section made of it is returned although its text is shorter than
    100 characters; and an element whose text has exactly 100 characters is
    dropped. *)
Lemma findContentSections_keeps_short_meta :
  (exists s, In s (findContentSections Demo.homePage)
             /\ String.length (text s) = 61)
  /\ String.length (trim (el_text (Demo.block Demo.hundred))) = 100
  /\ sectionOfElement ".content" (Demo.block Demo.hundred) = None.
Proof.
  split; [|split; reflexivity].
  eexists. split; [left; reflexivity|reflexivity].
Qed.

(** ** Page discovery *)

Lemma resolveHref_cases (base : URL) (href : string) :
  (startsWith href "http" = true -> resolveHref base href = Some href)
  /\ (startsWith href "http" = false -> startsWith href "/" = true ->
      resolveHref base href
      = Some (protocol base ++ "//" ++ hostname base ++ href)%string)
  /\ (startsWith href "http" = false -> startsWith href "/" = false ->
      resolveHref base href = None).
Proof.
  unfold resolveHref. repeat split.
  - now intros ->.
  - now intros -> ->.
  - now intros -> ->.
Qed.

Section PageDiscovery.
Context `{Platform}.

(** A page that an anchor contributes is the resolved [href], it parses,
    and its host is the host of the base. *)
Lemma pageOfAnchor_sameHost (base : URL) (a : Anchor) (p : PolicyPage) :
  pageOfAnchor base a = Some p ->
  resolveHref base (a_href a) = Some (url p)
  /\ exists u, parseURL (url p) = Some u /\ hostname u = hostname base.
Proof.
  unfold pageOfAnchor.
  destruct (String.eqb (a_href a) ""); [discriminate|].
  destruct (resolveHref base (a_href a)) as [fullUrl|]; [|discriminate].
  destruct (parseURL fullUrl) as [u|] eqn:E; [|discriminate].
  destruct (String.eqb (hostname u) (hostname base)) eqn:Eh; simpl; [|discriminate].
  destruct (_ || _); [|discriminate].
  intros [= <-]. simpl. split; [reflexivity|].
  exists u. split; [assumption|]. now apply String.eqb_eq.
Qed.

(** C9, as the code has it: an [href] that starts with [http] is taken
    as it is, one that starts with a slash is put behind the protocol and
    host of the base, and any other is skipped; every page returned
    resolves from an anchor, parses, and has the host of the base; the
    list holds no URL twice, keeps the first page of each URL, and has at
    most 15 pages; /issues/healthcare on a base https://x.gov resolves to
    https://x.gov/issues/healthcare. *)
Theorem discoverPolicyPages_sameHost (page : Page) (baseUrl : string) (base : URL) :
  parseURL baseUrl = Some base ->
  exists pages,
    discoverPolicyPages page baseUrl = Ok pages
    /\ List.length pages <= 15
    /\ NoDup (map url pages)
    /\ (forall p, In p pages ->
          exists a u,
            In a (anchors page)
            /\ pageOfAnchor base a = Some p
            /\ resolveHref base (a_href a) = Some (url p)
            /\ parseURL (url p) = Some u
            /\ hostname u = hostname base)
    /\ (forall a p,
          In a (anchors page) -> pageOfAnchor base a = Some p ->
          List.length (flat_map (fun a => optList (pageOfAnchor base a))
                                (anchors page)) <= 15 ->
          exists q, In q pages /\ url q = url p)
    /\ (forall href,
          (startsWith href "http" = true -> resolveHref base href = Some href)
          /\ (startsWith href "http" = false -> startsWith href "/" = true ->
              resolveHref base href
              = Some (protocol base ++ "//" ++ hostname base ++ href)%string)
          /\ (startsWith href "http" = false -> startsWith href "/" = false ->
              resolveHref base href = None))
    /\ (protocol base = "https:" -> hostname base = "x.gov" ->
        resolveHref base "/issues/healthcare"
        = Some "https://x.gov/issues/healthcare").
Proof.
  intros Hbase. unfold discoverPolicyPages. rewrite Hbase.
  set (found := flat_map (fun a => optList (pageOfAnchor base a)) (anchors page)).
  destruct (filterIndexed_isFirstBy url found) as (Hnd & Hsub & Hall).
  eexists; split; [reflexivity|].
  split; [apply firstn_le_length|].
  split; [now apply firstn_NoDup_map|].
  split; [|split; [|split]].
  - intros p Hp. apply firstn_incl, Hsub in Hp. unfold found in Hp.
    apply in_flat_map in Hp as (a & Ha & Hp).
    destruct (pageOfAnchor base a) as [q|] eqn:E; [|destruct Hp].
    destruct Hp as [<-|[]].
    destruct (pageOfAnchor_sameHost _ _ _ E) as (Hr & u & Hu & Hh).
    exists a, u. auto.
  - intros a p Ha Hp Hlen.
    assert (Hin : In p found).
    { unfold found. apply in_flat_map. exists a. split; [assumption|].
      rewrite Hp. now left. }
    destruct (Hall p Hin) as (q & Hq & Hk). exists q. split; [|assumption].
    rewrite firstn_all2; [assumption|].
    etransitivity; [|exact Hlen].
    rewrite filterIndexed_keptFrom. unfold keptFrom.
    rewrite length_map. etransitivity; [apply filter_length_le|].
    rewrite length_combine, length_seq. simpl. lia.
  - apply resolveHref_cases.
  - intros Hp Hh. unfold resolveHref. simpl. now rewrite Hp, Hh.
Qed.
End PageDiscovery.

(** The link of the scenario resolves, and is the one page discovered. *)
Lemma discoverPolicyPages_sameHost_witness :
  @parseURL (Demo.platform []) Demo.homeUrl
  = Some {| protocol := "https:"; hostname := "x.gov"; pathname := "/index" |}
  /\ @discoverPolicyPages (Demo.platform []) Demo.homePage Demo.homeUrl
     = Ok [ {| url := "https://x.gov/issues/healthcare";
               pp_text := "healthcare";
               topic := Some "healthcare" |} ].
Proof.
  assert (Hb : @parseURL (Demo.platform []) Demo.homeUrl
               = Some {| protocol := "https:"; hostname := "x.gov";
                         pathname := "/index" |}) by reflexivity.
  split; [exact Hb|].
  destruct (@discoverPolicyPages_sameHost (Demo.platform []) Demo.homePage
              Demo.homeUrl _ Hb) as (pages & E & _).
  rewrite E. vm_compute in E. injection E as <-. reflexivity.
Defined.

(** C9 as stated fails on a relative link without a leading slash: the
    code does not resolve it against the base, it skips it. *)
Lemma discoverPolicyPages_skips_relative :
  resolveHref {| protocol := "https:"; hostname := "x.gov"; pathname := "/index" |}
              "issues/healthcare" = None
  /\ @discoverPolicyPages (Demo.platform []) Demo.relativePage Demo.homeUrl = Ok [].
Proof. split; reflexivity. Qed.

(** ** Crawl scheduler *)

Lemma daysSinceLessThan_spec `{Platform} (nowMs : Z) (cl : CrawlLogRow) (days : Z) :
  daysSinceLessThan nowMs cl days = true
  <-> (nowMs - dateOfStamp (log_crawled_at cl) < days * msPerDay)%Z.
Proof.
  unfold daysSinceLessThan. rewrite Qgtb_lt.
  unfold Qlt, Qdiv, Qmult, Qinv, inject_Z, msPerDay. simpl. lia.
Qed.

Lemma within_spec (days nowSeconds : Z) (cl : CrawlLogRow) :
  within days nowSeconds cl = true
  <-> (nowSeconds - log_crawled_at cl < days * secondsPerDay)%Z.
Proof. unfold within. rewrite Z.ltb_lt. lia. Qed.

Lemma inSubquery_spec (d : Database) (cond : CrawlLogRow -> bool) (p : Politician) :
  inSubquery d cond p = true
  <-> exists cl, In cl (crawl_log d) /\ log_politician_id cl = p_id p /\ cond cl = true.
Proof.
  unfold inSubquery. rewrite existsb_exists. split.
  - intros (cl & Hin & H). apply andb_true_iff in H as [Hc He].
    apply String.eqb_eq in He. eauto.
  - intros (cl & Hin & He & Hc). exists cl. split; [assumption|].
    rewrite Hc, He. now rewrite String.eqb_refl.
Qed.

Lemma laterOf_fold (rows : list CrawlLogRow) (acc : option CrawlLogRow) :
  match fold_left laterOf rows acc with
  | Some best =>
      (acc = Some best \/ In best rows)
      /\ (forall cl, acc = Some cl \/ In cl rows ->
                     (log_crawled_at cl <= log_crawled_at best)%Z)
  | None => acc = None /\ rows = []
  end.
Proof.
  revert acc; induction rows as [|r rows IH]; intros acc; simpl.
  - destruct acc as [best|]; [|auto]. split; [auto|].
    intros cl [[= <-]|[]]. lia.
  - specialize (IH (laterOf acc r)).
    destruct (fold_left laterOf rows (laterOf acc r)) as [best|].
    + destruct IH as [Hin Hmax]. split.
      * destruct Hin as [Hin|Hin]; [|auto].
        unfold laterOf in Hin. destruct acc as [b|].
        -- destruct (log_crawled_at b <? log_crawled_at r)%Z;
             injection Hin as <-; auto.
        -- injection Hin as <-; auto.
      * intros cl Hcl.
        assert (Hl : exists m, laterOf acc r = Some m
                               /\ (log_crawled_at cl <= log_crawled_at m)%Z
                     \/ In cl rows).
        { unfold laterOf. destruct Hcl as [->|[<-|Hcl]].
          - destruct (Z.ltb_spec (log_crawled_at cl) (log_crawled_at r));
              eexists; left; split; try reflexivity; lia.
          - destruct acc as [b|].
            + destruct (Z.ltb_spec (log_crawled_at b) (log_crawled_at r));
                eexists; left; split; try reflexivity; lia.
            + eexists; left; split; [reflexivity|lia].
          - exists r. now right. }
        destruct Hl as (m & [(Hm & Hle)|Hr]).
        -- specialize (Hmax m (or_introl Hm)). lia.
        -- apply Hmax. now right.
    + destruct IH as [Hl _]. unfold laterOf in Hl.
      destruct acc as [b|]; [|discriminate].
      destruct (log_crawled_at b <? log_crawled_at r)%Z; discriminate.
Qed.

(** Where the scan stops: every row before the one it keeps is strictly
    older, so that among rows of one stamp the first is kept. *)
Lemma laterOf_fold_first (rows : list CrawlLogRow) (acc : option CrawlLogRow) :
  match fold_left laterOf rows acc with
  | Some best =>
      (acc = Some best
       /\ forall cl, In cl rows -> (log_crawled_at cl <= log_crawled_at best)%Z)
      \/ (exists before after,
            rows = before ++ best :: after
            /\ (forall cl, acc = Some cl \/ In cl before ->
                           (log_crawled_at cl < log_crawled_at best)%Z)
            /\ (forall cl, In cl after ->
                           (log_crawled_at cl <= log_crawled_at best)%Z))
  | None => True
  end.
Proof.
  revert acc; induction rows as [|r rows IH]; intros acc; cbn [fold_left].
  - destruct acc as [best|]; [|exact I]. left. split; [reflexivity|].
    intros cl [].
  - specialize (IH (laterOf acc r)).
    destruct (fold_left laterOf rows (laterOf acc r)) as [best|]; [|exact I].
    destruct IH as [[Ha Hle]|(before & after & -> & Hlt & Hle)].
    + unfold laterOf in Ha. destruct acc as [b|].
      * destruct (Z.ltb_spec (log_crawled_at b) (log_crawled_at r));
          injection Ha as <-.
        -- right. exists [], rows. split; [reflexivity|]. split; [|assumption].
           intros cl [[= <-]|[]]. assumption.
        -- left. split; [reflexivity|]. intros cl [<-|Hin]; [lia|auto].
      * injection Ha as <-. right. exists [], rows.
        split; [reflexivity|]. split; [|assumption].
        intros cl [Hn|[]]. discriminate.
    + right. exists (r :: before), after. split; [reflexivity|].
      split; [|assumption].
      assert (Hm : forall cl, acc = Some cl \/ cl = r ->
                     exists m, laterOf acc r = Some m
                               /\ (log_crawled_at cl <= log_crawled_at m)%Z).
      { intros cl [Hc|Hc]; subst; unfold laterOf.
        - destruct (Z.ltb_spec (log_crawled_at cl) (log_crawled_at r));
            eexists; split; try reflexivity; lia.
        - destruct acc as [b|].
          + destruct (Z.ltb_spec (log_crawled_at b) (log_crawled_at r));
              eexists; split; try reflexivity; lia.
          + eexists; split; [reflexivity|lia]. }
      intros cl [Hacc|[<-|Hin]].
      * destruct (Hm cl (or_introl Hacc)) as (m & Em & Hle').
        specialize (Hlt m (or_introl Em)). lia.
      * destruct (Hm r (or_intror eq_refl)) as (m & Em & Hle').
        specialize (Hlt m (or_introl Em)). lia.
      * apply Hlt. now right.
Qed.

(** The row [ORDER BY crawled_at DESC LIMIT 1] returns is a row of the
    politician that no other row of the politician is later than; there is
    none exactly when the politician has no row. *)
Lemma mostRecentLog_spec (d : Database) (politicianId : string) :
  match mostRecentLog d politicianId with
  | Some best =>
      In best (crawl_log d)
      /\ log_politician_id best = politicianId
      /\ (forall cl, In cl (crawl_log d) -> log_politician_id cl = politicianId ->
                     (log_crawled_at cl <= log_crawled_at best)%Z)
  | None =>
      forall cl, In cl (crawl_log d) -> log_politician_id cl <> politicianId
  end.
Proof.
  unfold mostRecentLog.
  set (rows := filter _ (crawl_log d)).
  pose proof (laterOf_fold rows None) as H.
  destruct (fold_left laterOf rows None) as [best|].
  - destruct H as [[H|H] Hmax]; [discriminate|].
    apply filter_In in H as [Hin Hid]. apply String.eqb_eq in Hid.
    repeat split; auto.
    intros cl Hcl Hpid. apply Hmax. right. apply filter_In.
    split; [assumption|]. now apply String.eqb_eq.
  - destruct H as [_ H]. intros cl Hcl Hpid.
    assert (Hin : In cl rows).
    { apply filter_In. split; [assumption|]. now apply String.eqb_eq. }
    rewrite H in Hin. destruct Hin.
Qed.

(** Among the rows of the politician, in the order of insertion, every row
    before the returned one is strictly older and none after it is later. *)
Lemma mostRecentLog_first (d : Database) (politicianId : string) (best : CrawlLogRow) :
  mostRecentLog d politicianId = Some best ->
  exists before after,
    filter (fun cl => String.eqb (log_politician_id cl) politicianId) (crawl_log d)
    = before ++ best :: after
    /\ (forall cl, In cl before -> (log_crawled_at cl < log_crawled_at best)%Z)
    /\ (forall cl, In cl after -> (log_crawled_at cl <= log_crawled_at best)%Z).
Proof.
  unfold mostRecentLog.
  set (rows := filter _ (crawl_log d)).
  pose proof (laterOf_fold_first rows None) as H. intros E. rewrite E in H.
  destruct H as [[H _]|(before & after & Hr & Hlt & Hle)]; [discriminate|].
  exists before, after. split; [assumption|]. split; [|assumption].
  intros cl Hin. apply Hlt. now right.
Qed.

Lemma byName_total (p q : Politician) : byName p q = true \/ byName q p = true.
Proof. apply String.leb_total. Qed.

Lemma byName_trans (p q r : Politician) :
  byName p q = true -> byName q r = true -> byName p r = true.
Proof. apply string_leb_trans. Qed.


Lemma eligible_spec (d : Database) (nowSeconds : Z) (p : Politician) :
  eligible d nowSeconds p = true
  <-> (exists w, p_website p = Some w /\ w <> "")
      /\ ~ exists cl, In cl (crawl_log d) /\ log_politician_id cl = p_id p
                      /\ coolingDown nowSeconds cl.
Proof.
  unfold eligible. rewrite !andb_true_iff, !negb_true_iff. split.
  - intros [[[Hw H1] H2] H3]. split.
    + unfold hasWebsite in Hw. destruct (p_website p) as [w|]; [|discriminate].
      exists w. split; [reflexivity|]. intros ->. discriminate.
    + intros (cl & Hin & Hid & [(Hs & Ht)|[(Hs & Hm & Ht)|(Hs & Hm & Ht)]]).
      * assert (inSubquery d (recentSuccess nowSeconds) p = true); [|congruence].
        apply inSubquery_spec. exists cl. repeat split; auto.
        unfold recentSuccess. rewrite Hs. simpl. now apply within_spec.
      * assert (inSubquery d (recentHostNotFound nowSeconds) p = true); [|congruence].
        apply inSubquery_spec. exists cl. repeat split; auto.
        unfold recentHostNotFound. rewrite Hs, Hm. simpl. now apply within_spec.
      * assert (inSubquery d (recentForbidden nowSeconds) p = true); [|congruence].
        apply inSubquery_spec. exists cl. repeat split; auto.
        unfold recentForbidden. rewrite Hs, Hm. simpl. now apply within_spec.
  - intros [(w & Hw & Hne) Hno].
    assert (Hsub : forall cond,
               (forall cl, cond cl = true -> coolingDown nowSeconds cl) ->
               inSubquery d cond p = false).
    { intros cond Hc. destruct (inSubquery d cond p) eqn:E; [|reflexivity].
      apply inSubquery_spec in E as (cl & Hin & Hid & Hcl).
      exfalso. apply Hno. exists cl. auto. }
    repeat split.
    + unfold hasWebsite. rewrite Hw. apply negb_true_iff.
      now apply String.eqb_neq.
    + apply Hsub. intros cl H. unfold recentSuccess in H.
      apply andb_true_iff in H as [Hs Ht]. left.
      split; [now apply String.eqb_eq|now apply within_spec].
    + apply Hsub. intros cl H. unfold recentHostNotFound in H.
      apply andb_true_iff in H as [H Ht]. apply andb_true_iff in H as [Hs Hm].
      right; left. repeat split; [now apply String.eqb_eq|assumption|now apply within_spec].
    + apply Hsub. intros cl H. unfold recentForbidden in H.
      apply andb_true_iff in H as [H Ht]. apply andb_true_iff in H as [Hs Hm].
      right; right. repeat split; [now apply String.eqb_eq|assumption|now apply within_spec].
Qed.

(** C3, as the code has it.  The batch query returns, ordered by name, the
    politicians that have a website and no log row, recent or not the most
    recent, that is a success younger than 7 days, a host-not-found error
    younger than 30 days or a 403 error younger than 7 days; an error of
    another cause excludes nobody from it.  A rule on the most recent row,
    with four cases, is applied by [shouldSkipPolitician] alone, to a single
    politician: it counts the age of the row from the stored stamp as the
    date parser of the process reads it, and without a row it never skips.
    The most recent row is a row of the politician that none of her rows is
    later than, the first inserted among those of its stamp. *)
Theorem scheduler_skip_policy `{platform : Platform} (d : Database) :
  (forall nowSeconds,
      StronglySorted (fun p q => String.leb (p_name p) (p_name q) = true)
                     (selectPoliticiansWithWebsites d nowSeconds)
      /\ forall p,
           In p (selectPoliticiansWithWebsites d nowSeconds)
           <-> In p (politicians d)
               /\ (exists w, p_website p = Some w /\ w <> "")
               /\ ~ exists cl, In cl (crawl_log d)
                               /\ log_politician_id cl = p_id p
                               /\ coolingDown nowSeconds cl)
  /\ (forall nowMs politicianId,
        shouldSkipPolitician d nowMs politicianId = true
        <-> exists cl,
              mostRecentLog d politicianId = Some cl
              /\ ((log_crawl_status cl = "success"
                   /\ (nowMs - dateOfStamp (log_crawled_at cl) < 7 * msPerDay)%Z)
                  \/ (log_crawl_status cl = "error"
                      /\ mentions cl "ENOTFOUND" = true
                      /\ (nowMs - dateOfStamp (log_crawled_at cl) < 30 * msPerDay)%Z)
                  \/ (log_crawl_status cl = "error"
                      /\ mentions cl "ENOTFOUND" = false
                      /\ mentions cl "403" = true
                      /\ (nowMs - dateOfStamp (log_crawled_at cl) < 7 * msPerDay)%Z)
                  \/ (log_crawl_status cl = "error"
                      /\ mentions cl "ENOTFOUND" = false
                      /\ mentions cl "403" = false
                      /\ (nowMs - dateOfStamp (log_crawled_at cl) < 1 * msPerDay)%Z)))
  /\ (forall politicianId,
        match mostRecentLog d politicianId with
        | Some best =>
            In best (crawl_log d)
            /\ log_politician_id best = politicianId
            /\ (forall cl, In cl (crawl_log d) ->
                           log_politician_id cl = politicianId ->
                           (log_crawled_at cl <= log_crawled_at best)%Z)
            /\ exists before after,
                 filter (fun cl => String.eqb (log_politician_id cl) politicianId)
                        (crawl_log d)
                 = before ++ best :: after
                 /\ (forall cl, In cl before ->
                                (log_crawled_at cl < log_crawled_at best)%Z)
                 /\ (forall cl, In cl after ->
                                (log_crawled_at cl <= log_crawled_at best)%Z)
        | None =>
            forall cl, In cl (crawl_log d) -> log_politician_id cl <> politicianId
        end).
Proof.
  split; [|split].
  - intros nowSeconds. split.
    + apply sort_sorted; [apply byName_total|apply byName_trans].
    + intros p. unfold selectPoliticiansWithWebsites.
      rewrite <- eligible_spec, <- filter_In. split.
      * apply Permutation_in, sort_Permutation.
      * apply Permutation_in. symmetry. apply sort_Permutation.
  - intros nowMs politicianId. unfold shouldSkipPolitician.
    destruct (mostRecentLog d politicianId) as [cl|];
      [|split; [discriminate|intros (cl & H & _); discriminate]].
    destruct (String.eqb_spec (log_crawl_status cl) "success") as [Hs|Hs].
    { rewrite daysSinceLessThan_spec. split.
      - intros H. exists cl. split; [reflexivity|]. left. auto.
      - intros (cl' & [= <-] & [(_ & H)|[(He & _)|[(He & _)|(He & _)]]]);
          [assumption|congruence..]. }
    destruct (String.eqb_spec (log_crawl_status cl) "error") as [He|He].
    2: { split; [discriminate|].
         intros (cl' & [= <-] & [(H & _)|[(H & _)|[(H & _)|(H & _)]]]); congruence. }
    destruct (mentions cl "ENOTFOUND") eqn:En;
      [|destruct (mentions cl "403") eqn:Ef]; rewrite daysSinceLessThan_spec.
    + split.
      * intros H. exists cl. split; [reflexivity|]. right; left. auto.
      * intros (cl' & [= <-] & [(H & _)|[(_ & _ & H)|[(_ & H & _)|(_ & H & _)]]]);
          [congruence|assumption|congruence..].
    + split.
      * intros H. exists cl. split; [reflexivity|]. right; right; left. auto.
      * intros (cl' & [= <-] & [(H & _)|[(_ & H & _)|[(_ & _ & _ & H)|(_ & _ & H & _)]]]);
          [congruence|congruence|assumption|congruence].
    + split.
      * intros H. exists cl. split; [reflexivity|]. right; right; right. auto.
      * intros (cl' & [= <-] & [(H & _)|[(_ & H & _)|[(_ & _ & H & _)|(_ & _ & _ & H)]]]);
          [congruence|congruence|congruence|assumption].
  - intros politicianId.
    pose proof (mostRecentLog_spec d politicianId) as Hs.
    pose proof (mostRecentLog_first d politicianId) as Hf.
    destruct (mostRecentLog d politicianId) as [best|]; [|assumption].
    destruct Hs as (H1 & H2 & H3). repeat split; auto.
Qed.

(** C3 as stated fails one hour after an attempt that ended in an HTTP 500:
    the most recent row of the politician is an error of another cause that
    is younger than one day, and the batch query still returns her (while
    [shouldSkipPolitician], in a process whose zone is UTC, skips her at the
    same instant). *)
Lemma scheduler_returns_after_recent_error :
  selectPoliticiansWithWebsites Demo.afterFailure (1000000 + 3600) = [Demo.ann]
  /\ mostRecentLog Demo.afterFailure (p_id Demo.ann) = Some Demo.failedAttempt
  /\ log_crawl_status Demo.failedAttempt = "error"
  /\ mentions Demo.failedAttempt "ENOTFOUND" = false
  /\ mentions Demo.failedAttempt "403" = false
  /\ ((1000000 + 3600) - log_crawled_at Demo.failedAttempt < 1 * secondsPerDay)%Z
  /\ @shouldSkipPolitician (Demo.platform []) Demo.afterFailure
       ((1000000 + 3600) * 1000) (p_id Demo.ann)
     = true.
Proof. repeat split; vm_compute; reflexivity. Qed.

(** ** Position store *)

Lemma samePair_rowOfPosition (rowId timestamp : Z) (politicianId : string)
    (p : Position) (subject : string) (topicId : Z) :
  samePair subject topicId (rowOfPosition rowId timestamp politicianId p)
  = String.eqb politicianId subject && Z.eqb (pn_topic_id p) topicId.
Proof. reflexivity. Qed.

Lemma filter_after_removal {A : Type} (f g : A -> bool) (l : list A) :
  (forall x, g x = true -> f x = false) ->
  filter f (filter (fun x => negb (g x)) l) = filter f l.
Proof.
  intros H; induction l as [|x l IH]; [reflexivity|]. cbn [filter].
  destruct (g x) eqn:E; cbn [negb].
  - now rewrite (H x E).
  - cbn [filter]. now rewrite IH.
Qed.

Lemma filter_removed {A : Type} (f : A -> bool) (l : list A) :
  filter f (filter (fun x => negb (f x)) l) = [].
Proof.
  induction l as [|x l IH]; [reflexivity|]. cbn [filter].
  destruct (f x) eqn:E; cbn [negb]; [assumption|].
  cbn [filter]. now rewrite E.
Qed.

Lemma outsidePositions_refl (c : Crawler) : outsidePositions c c.
Proof. repeat split. Qed.

Lemma outsidePositions_trans (c1 c2 c3 : Crawler) :
  outsidePositions c1 c2 -> outsidePositions c2 c3 -> outsidePositions c1 c3.
Proof.
  unfold outsidePositions. intros H1 H2.
  repeat match goal with H : _ /\ _ |- _ => destruct H end.
  repeat split; congruence.
Qed.

(** The rows of a pair after one write. *)
Lemma written_rows (rows : list PositionRow) (newId timestamp : Z)
    (politicianId : string) (p : Position) (subject : string) (topicId : Z) :
  filter (samePair subject topicId)
         (filter (fun r => negb (samePair politicianId (pn_topic_id p) r)) rows
          ++ [rowOfPosition newId timestamp politicianId p])
  = if String.eqb politicianId subject && Z.eqb (pn_topic_id p) topicId
    then [rowOfPosition newId timestamp politicianId p]
    else filter (samePair subject topicId) rows.
Proof.
  rewrite filter_app. cbn [filter]. rewrite samePair_rowOfPosition.
  destruct (String.eqb_spec politicianId subject) as [->|Hs];
    [destruct (Z.eqb_spec (pn_topic_id p) topicId) as [->|Ht]|]; cbn [andb].
  - now rewrite filter_removed.
  - rewrite app_nil_r. apply filter_after_removal.
    intros r E. unfold samePair in *. apply andb_true_iff in E as [-> E].
    cbn [andb]. apply Z.eqb_eq in E. rewrite E. now apply Z.eqb_neq.
  - rewrite app_nil_r. apply filter_after_removal.
    intros r E. unfold samePair in *. apply andb_true_iff in E as [E _].
    apply String.eqb_eq in E. rewrite E.
    apply String.eqb_neq in Hs. now rewrite Hs.
Qed.

(** The statement writes, or a foreign key fails. *)
Lemma insertOrReplacePosition_cases (timestamp : Z) (politicianId : string)
    (p : Position) (d : Database) :
  (hasPolitician d politicianId = true
   /\ hasTopic d (pn_topic_id p) = true
   /\ insertOrReplacePosition timestamp politicianId p d
      = Ok (setPositions d
              (filter (fun r => negb (samePair politicianId (pn_topic_id p) r))
                      (politician_positions d)
               ++ [rowOfPosition (last_position_id d + 1) timestamp politicianId p])
              (last_position_id d + 1)))
  \/ ((hasPolitician d politicianId = false \/ hasTopic d (pn_topic_id p) = false)
      /\ insertOrReplacePosition timestamp politicianId p d = Throw foreignKeyFailed).
Proof.
  unfold insertOrReplacePosition.
  destruct (hasPolitician d politicianId), (hasTopic d (pn_topic_id p));
    cbn [andb]; auto.
Qed.

(** What one call of [savePosition] does to a state. *)
Lemma savePosition_cases (politicianId : string) (p : Position) (c : Crawler)
    (w : World) :
  (hasPolitician (db c) politicianId = true
   /\ hasTopic (db c) (pn_topic_id p) = true
   /\ savePosition politicianId p (c, w)
      = (Returns tt,
         (setDb c
            (setPositions (db c)
               (filter (fun r => negb (samePair politicianId (pn_topic_id p) r))
                       (politician_positions (db c))
                ++ [rowOfPosition (last_position_id (db c) + 1)
                                  (currentTimestamp w) politicianId p])
               (last_position_id (db c) + 1)),
          w)))
  \/ ((hasPolitician (db c) politicianId = false
       \/ hasTopic (db c) (pn_topic_id p) = false)
      /\ savePosition politicianId p (c, w) = (Throws foreignKeyFailed, (c, w))).
Proof.
  unfold savePosition. cbn [fst snd].
  destruct (insertOrReplacePosition_cases (currentTimestamp w) politicianId p (db c))
    as [(Hp & Ht & ->)|(Hno & ->)]; auto.
Qed.

Lemma afterSave_outside (c : Crawler) (call : SaveCall) :
  outsidePositions c (afterSave c call).
Proof.
  unfold afterSave.
  destruct (savePosition_cases (for_politician call) (with_position call) c
              (in_world call)) as [(_ & _ & ->)|(_ & ->)];
    repeat split.
Qed.

Lemma afterSave_rows (c : Crawler) (call : SaveCall) (subject : string)
    (topicId : Z) :
  filter (samePair subject topicId) (politician_positions (db (afterSave c call)))
  = if forPair subject topicId call
       && (hasPolitician (db c) (for_politician call)
           && hasTopic (db c) (pn_topic_id (with_position call)))
    then [rowOfPosition (last_position_id (db c) + 1)
                        (currentTimestamp (in_world call)) (for_politician call)
                        (with_position call)]
    else filter (samePair subject topicId) (politician_positions (db c)).
Proof.
  unfold afterSave.
  destruct (savePosition_cases (for_politician call) (with_position call) c
              (in_world call)) as [(Hp & Ht & ->)|(Hno & ->)]; cbn [fst snd].
  - rewrite Hp, Ht. cbn [andb db setDb politician_positions setPositions].
    rewrite andb_true_r. apply written_rows.
  - destruct Hno as [E|E]; rewrite E; cbn [andb]; rewrite ?andb_false_r;
      reflexivity.
Qed.

Lemma saves_outside (calls : list SaveCall) (c : Crawler) :
  outsidePositions c (fold_left afterSave calls c).
Proof.
  revert c; induction calls as [|call calls IH]; intros c; cbn [fold_left].
  - apply outsidePositions_refl.
  - eapply outsidePositions_trans; [apply afterSave_outside|apply IH].
Qed.

Lemma later_calls_keep_rows (later : list SaveCall) (c : Crawler)
    (subject : string) (topicId : Z) :
  forallb (fun call => negb (forPair subject topicId call)) later = true ->
  filter (samePair subject topicId)
         (politician_positions (db (fold_left afterSave later c)))
  = filter (samePair subject topicId) (politician_positions (db c)).
Proof.
  revert c; induction later as [|call later IH]; intros c; [reflexivity|].
  cbn [forallb fold_left]. intros H. apply andb_true_iff in H as [Hc Hl].
  rewrite IH by assumption. rewrite afterSave_rows.
  apply negb_true_iff in Hc. now rewrite Hc.
Qed.

(** C2: for a politician and a topic that are stored, whatever was written
    before, a call of [savePosition] for the pair returns, and after it and
    any later calls for other pairs the table of the crawler holds exactly
    one row for the pair, which carries the values of that call (a missing
    stance or strength is stored as its default) and the time of that call;
    the confidence of earlier calls plays no part.  A call for a politician
    or a topic that is not stored throws and leaves the state as it was. *)
Theorem savePosition_replaces (c : Crawler) (earlier later : list SaveCall)
    (last : SaveCall) (subject : string) (topicId : Z) :
  hasPolitician (db c) subject = true ->
  hasTopic (db c) topicId = true ->
  forPair subject topicId last = true ->
  forallb (fun call => negb (forPair subject topicId call)) later = true ->
  (exists c',
      savePosition (for_politician last) (with_position last)
                   (fold_left afterSave earlier c, in_world last)
      = (Returns tt, (c', in_world last))
      /\ outsidePositions (fold_left afterSave earlier c) c')
  /\ (exists row,
        filter (samePair subject topicId)
               (politician_positions
                  (db (fold_left afterSave (earlier ++ last :: later) c)))
        = [row]
        /\ pos_politician_id row = subject
        /\ pos_topic_id row = topicId
        /\ pos_position_summary row = position_summary (with_position last)
        /\ pos_position_details row = position_details (with_position last)
        /\ pos_is_key_issue row
           = (if is_key_issue (with_position last) then 1 else 0)%Z
        /\ pos_source_url row = source_url (with_position last)
        /\ pos_source_section row = source_section (with_position last)
        /\ pos_confidence_score row = confidence_score (with_position last)
        /\ pos_stance row = orElse (stance (with_position last)) "neutral"
        /\ pos_strength row = orElse (pn_strength (with_position last)) "moderate"
        /\ pos_key_phrases row = key_phrases (with_position last)
        /\ pos_last_updated row = currentTimestamp (in_world last))
  /\ (forall s politicianId p,
        hasPolitician (db (fst s)) politicianId = false
        \/ hasTopic (db (fst s)) (pn_topic_id p) = false ->
        savePosition politicianId p s = (Throws foreignKeyFailed, s)).
Proof.
  intros Hpol Htopic Hlast Hlater.
  pose proof (saves_outside earlier c) as (_ & Hps & Hts & _).
  pose proof Hlast as Hpair. unfold forPair in Hpair.
  apply andb_true_iff in Hpair as [Hs Ht].
  apply String.eqb_eq in Hs. apply Z.eqb_eq in Ht.
  assert (Hp' : hasPolitician (db (fold_left afterSave earlier c))
                              (for_politician last) = true).
  { unfold hasPolitician in *. now rewrite Hps, Hs. }
  assert (Ht' : hasTopic (db (fold_left afterSave earlier c))
                         (pn_topic_id (with_position last)) = true).
  { unfold hasTopic in *. now rewrite Hts, Ht. }
  split; [|split].
  - destruct (savePosition_cases (for_politician last) (with_position last)
                (fold_left afterSave earlier c) (in_world last))
      as [(_ & _ & E)|([E|E] & _)]; [|congruence..].
    eexists. split; [exact E|]. repeat split.
  - rewrite fold_left_app. cbn [fold_left].
    rewrite later_calls_keep_rows by assumption.
    rewrite afterSave_rows, Hlast, Hp', Ht'. cbn [andb].
    eexists; split; [reflexivity|].
    cbn. repeat split; auto.
    unfold orElse. destruct (String.eqb_spec (key_phrases (with_position last)) "");
      auto.
  - intros [c0 w0] politicianId p Hno. cbn [fst] in Hno.
    destruct (savePosition_cases politicianId p c0 w0)
      as [(E1 & E2 & _)|(_ & E)]; [|exact E].
    destruct Hno; congruence.
Qed.

(** A confident position, then a doubtful one on the same topic: the
    doubtful one is the row that stays. *)
Lemma savePosition_replaces_witness :
  exists row,
    filter (samePair "A000001" 1)
           (politician_positions
              (db (fold_left afterSave
                     ([ {| in_world := Demo.homeLoads;
                           for_politician := "A000001";
                           with_position := Demo.confident |} ]
                      ++ {| in_world := Demo.brokenPolicyPage;
                            for_politician := "A000001";
                            with_position := Demo.doubtful |} :: [])
                     (constructor Demo.directory))))
    = [row]
    /\ pos_confidence_score row = 0.4%Q
    /\ pos_stance row = "mixed".
Proof.
  destruct (savePosition_replaces (constructor Demo.directory)
              [ {| in_world := Demo.homeLoads; for_politician := "A000001";
                   with_position := Demo.confident |} ]
              []
              {| in_world := Demo.brokenPolicyPage; for_politician := "A000001";
                 with_position := Demo.doubtful |}
              "A000001" 1 eq_refl eq_refl eq_refl eq_refl)
    as (_ & (row & Hrows & _ & _ & _ & _ & _ & _ & _ & Hc & Hs & _) & _).
  exists row. split; [exact Hrows|]. split; [exact Hc|exact Hs].
Defined.

(** ** Fetcher *)

Section Fetcher.
Context `{Platform}.
Variable retries : nat.
Variable url : string.
Variable parsed : URL.
Hypothesis url_parses : parseURL url = Some parsed.

Lemma fetchFrom_error_retry (lat : Z) (e : Exn) (net : list NetStep)
    (retryCount : nat) (now : Z) (tr : list Event) :
  retryCount < retries ->
  fetchFrom retries ({| latency := lat; outcome := NetworkError e |} :: net)
            url retryCount now tr
  = fetchFrom retries net url (retryCount + 1)
              (now + lat + 1000 * (Z.of_nat retryCount + 1))%Z
              (tr ++ [Request url; Sleep (1000 * (Z.of_nat retryCount + 1))%Z]).
Proof.
  intros Hlt. cbn [fetchFrom]. rewrite url_parses. cbn [outcome latency].
  apply Nat.ltb_lt in Hlt. rewrite Hlt. unfold retryDelay.
  now rewrite <- app_assoc.
Qed.

Lemma fetchFrom_error_exhausted (lat : Z) (e : Exn) (net : list NetStep)
    (retryCount : nat) (now : Z) (tr : list Event) :
  retries <= retryCount ->
  fetchFrom retries ({| latency := lat; outcome := NetworkError e |} :: net)
            url retryCount now tr
  = (Throws e,
     {| now := (now + lat)%Z; network := net; trace := tr ++ [Request url] |}).
Proof.
  intros Hge. cbn [fetchFrom]. rewrite url_parses. cbn [outcome latency].
  apply Nat.ltb_ge in Hge. now rewrite Hge.
Qed.

(** A timeout fails the fetch at once, whatever retries are left. *)
Lemma fetchFrom_timeout (lat : Z) (net : list NetStep)
    (retryCount : nat) (now0 : Z) (tr : list Event) :
  exists w,
    fetchFrom retries ({| latency := lat; outcome := Timeout |} :: net)
              url retryCount now0 tr
    = (Throws requestTimeout, w)
    /\ now w = (now0 + lat)%Z.
Proof.
  cbn [fetchFrom]. rewrite url_parses. cbn [outcome latency].
  destruct (retryCount <? retries); eexists; split; reflexivity.
Qed.

(** With retries left, the retry nobody awaits is made all the same. *)
Lemma fetchFrom_timeout_retry (lat : Z) (net : list NetStep)
    (retryCount : nat) (now0 : Z) (tr : list Event) :
  retryCount < retries ->
  fetchFrom retries ({| latency := lat; outcome := Timeout |} :: net)
            url retryCount now0 tr
  = (Throws requestTimeout,
     detached (now0 + lat)
       (fetchFrom retries net url (retryCount + 1)
                  (now0 + lat + 1000 * (Z.of_nat retryCount + 1))%Z
                  (tr ++ [Request url;
                          Sleep (1000 * (Z.of_nat retryCount + 1))%Z]))).
Proof.
  intros Hlt. cbn [fetchFrom]. rewrite url_parses. cbn [outcome latency].
  apply Nat.ltb_lt in Hlt. rewrite Hlt. unfold retryDelay.
  now rewrite <- app_assoc.
Qed.

Lemma fetchFrom_timeout_exhausted (lat : Z) (net : list NetStep)
    (retryCount : nat) (now0 : Z) (tr : list Event) :
  retries <= retryCount ->
  fetchFrom retries ({| latency := lat; outcome := Timeout |} :: net)
            url retryCount now0 tr
  = (Throws requestTimeout,
     {| now := (now0 + lat)%Z; network := net; trace := tr ++ [Request url] |}).
Proof.
  intros Hge. cbn [fetchFrom]. rewrite url_parses. cbn [outcome latency].
  apply Nat.ltb_ge in Hge. now rewrite Hge.
Qed.

Lemma fetchFrom_ok (lat : Z) (statusMessage : string) (location : option string)
    (body : string) (net : list NetStep) (retryCount : nat) (now : Z)
    (tr : list Event) :
  fetchFrom retries
            ({| latency := lat;
                outcome := Response 200 statusMessage location body |} :: net)
            url retryCount now tr
  = (Returns body,
     {| now := (now + lat)%Z; network := net; trace := tr ++ [Request url] |}).
Proof. cbn [fetchFrom]. now rewrite url_parses. Qed.

Lemma fetchFrom_redirect (lat statusCode : Z) (statusMessage : string)
    (location : option string) (target body : string) (net : list NetStep)
    (retryCount : nat) (now : Z) (tr : list Event) :
  (300 <= statusCode < 400)%Z ->
  redirectTarget location = Some target ->
  fetchFrom retries
            ({| latency := lat;
                outcome := Response statusCode statusMessage location body |} :: net)
            url retryCount now tr
  = fetchFrom retries net target retryCount (now + lat)%Z (tr ++ [Request url]).
Proof.
  intros [Hlo Hhi] Ht. cbn [fetchFrom]. rewrite url_parses. cbn [outcome latency].
  apply Z.leb_le in Hlo. apply Z.ltb_lt in Hhi. now rewrite Hlo, Hhi, Ht.
Qed.

Lemma fetchFrom_status (lat statusCode : Z) (statusMessage : string)
    (location : option string) (body : string) (net : list NetStep)
    (retryCount : nat) (now : Z) (tr : list Event) :
  statusCode <> 200%Z ->
  ~ (300 <= statusCode < 400)%Z \/ redirectTarget location = None ->
  fetchFrom retries
            ({| latency := lat;
                outcome := Response statusCode statusMessage location body |} :: net)
            url retryCount now tr
  = (Throws (httpError statusCode statusMessage),
     {| now := (now + lat)%Z; network := net; trace := tr ++ [Request url] |}).
Proof.
  intros Hne Hno. cbn [fetchFrom]. rewrite url_parses. cbn [outcome latency].
  assert ((if (300 <=? statusCode)%Z && (statusCode <? 400)%Z
           then redirectTarget location else None) = None) as ->.
  { destruct Hno as [Hno| ->]; [|now destruct (_ && _)].
    destruct (Z.leb_spec 300 statusCode); destruct (Z.ltb_spec statusCode 400);
      cbn [andb]; try reflexivity. lia. }
  apply Z.eqb_neq in Hne. now rewrite Hne.
Qed.

(** C6, where the code keeps it and where it does not.  An 'error' of the
    request (connection reset or refused, DNS failure) is retried while
    fewer than [maxRetries] retries were made, after a delay of (attempt
    number) seconds, and the error of the last attempt is what the fetch
    fails with; with the 3 retries of the crawler, four errors in a row end
    the fetch after delays of 1, 2 and 3 seconds.  A 'timeout' is not: the
    fetch fails at once with "Request timeout", at the instant of the
    timeout and whatever retries are left; with retries left the delay and
    the next request are made all the same, but their result reaches
    nobody. *)
Theorem fetch_retries_network_errors :
  (forall lat e net retryCount now tr,
      retryCount < retries ->
      fetchFrom retries ({| latency := lat; outcome := NetworkError e |} :: net)
                url retryCount now tr
      = fetchFrom retries net url (retryCount + 1)
                  (now + lat + 1000 * (Z.of_nat retryCount + 1))%Z
                  (tr ++ [Request url;
                          Sleep (1000 * (Z.of_nat retryCount + 1))%Z]))
  /\ (forall lat e net retryCount now tr,
        retries <= retryCount ->
        fetchFrom retries ({| latency := lat; outcome := NetworkError e |} :: net)
                  url retryCount now tr
        = (Throws e,
           {| now := (now + lat)%Z; network := net;
              trace := tr ++ [Request url] |}))
  /\ (retries = 3 ->
      forall l0 e0 l1 e1 l2 e2 l3 e3 net now tr,
        fetchFrom retries
                  ({| latency := l0; outcome := NetworkError e0 |}
                   :: {| latency := l1; outcome := NetworkError e1 |}
                   :: {| latency := l2; outcome := NetworkError e2 |}
                   :: {| latency := l3; outcome := NetworkError e3 |} :: net)
                  url 0 now tr
        = (Throws e3,
           {| now := (now + l0 + 1000 + l1 + 2000 + l2 + 3000 + l3)%Z;
              network := net;
              trace := tr ++ [Request url; Sleep 1000; Request url; Sleep 2000;
                              Request url; Sleep 3000; Request url] |}))
  /\ (forall lat net retryCount now0 tr,
        fst (fetchFrom retries ({| latency := lat; outcome := Timeout |} :: net)
                       url retryCount now0 tr)
        = Throws requestTimeout
        /\ now (snd (fetchFrom retries
                                ({| latency := lat; outcome := Timeout |} :: net)
                                url retryCount now0 tr))
           = (now0 + lat)%Z
        /\ (retryCount < retries ->
            fetchFrom retries ({| latency := lat; outcome := Timeout |} :: net)
                      url retryCount now0 tr
            = (Throws requestTimeout,
               detached (now0 + lat)
                 (fetchFrom retries net url (retryCount + 1)
                            (now0 + lat + 1000 * (Z.of_nat retryCount + 1))%Z
                            (tr ++ [Request url;
                                    Sleep (1000 * (Z.of_nat retryCount + 1))%Z]))))
        /\ (retries <= retryCount ->
            fetchFrom retries ({| latency := lat; outcome := Timeout |} :: net)
                      url retryCount now0 tr
            = (Throws requestTimeout,
               {| now := (now0 + lat)%Z; network := net;
                  trace := tr ++ [Request url] |})))
  /\ (forall d s url' retryCount,
        maxRetries (constructor d) = 3
        /\ fetchWebsiteContent url' retryCount s
           = (fst (fetchFrom (maxRetries (fst s)) (network (snd s)) url' retryCount
                             (now (snd s)) (trace (snd s))),
              (fst s,
               snd (fetchFrom (maxRetries (fst s)) (network (snd s)) url'
                              retryCount (now (snd s)) (trace (snd s)))))).
Proof.
  split; [intros; now apply fetchFrom_error_retry|].
  split; [intros; now apply fetchFrom_error_exhausted|].
  split; [|split].
  2:{ intros lat net retryCount now0 tr.
      destruct (fetchFrom_timeout lat net retryCount now0 tr) as (w & E & Hw).
      rewrite E. cbn [fst snd]. split; [reflexivity|]. split; [exact Hw|].
      rewrite <- E.
      split; [apply fetchFrom_timeout_retry|apply fetchFrom_timeout_exhausted]. }
  - intros Hr l0 e0 l1 e1 l2 e2 l3 e3 net now tr.
    rewrite fetchFrom_error_retry by lia.
    rewrite fetchFrom_error_retry by lia.
    rewrite fetchFrom_error_retry by lia.
    rewrite fetchFrom_error_exhausted by lia.
    cbn [Nat.add Z.of_nat]. rewrite <- !app_assoc. cbn [app].
    repeat f_equal; lia.
  - intros d s url' retryCount. split; [reflexivity|].
    unfold fetchWebsiteContent. now destruct (fetchFrom _ _ _ _ _ _).
Qed.
End Fetcher.

(** Four refused connections in a row: three retries, then the failure. *)
Lemma fetch_retries_network_errors_witness :
  @parseURL (Demo.platform []) Demo.homeUrl
  = Some {| protocol := "https:"; hostname := "x.gov"; pathname := "/index" |}
  /\ @fetchFrom (Demo.platform []) 3
       [ Demo.after 40 Demo.refused; Demo.after 40 Demo.refused;
         Demo.after 40 Demo.refused; Demo.after 40 Demo.refused;
         Demo.after 90 (Response 200 "OK" None "<html></html>") ]
       Demo.homeUrl 0 0 []
     = (Throws (Error "connect ECONNREFUSED 203.0.113.7:443"),
        {| now := 6160;
           network := [ Demo.after 90 (Response 200 "OK" None "<html></html>") ];
           trace := [ Request Demo.homeUrl; Sleep 1000; Request Demo.homeUrl;
                      Sleep 2000; Request Demo.homeUrl; Sleep 3000;
                      Request Demo.homeUrl ] |}).
Proof.
  assert (Hb : @parseURL (Demo.platform []) Demo.homeUrl
               = Some {| protocol := "https:"; hostname := "x.gov";
                         pathname := "/index" |}) by reflexivity.
  split; [exact Hb|].
  destruct (@fetch_retries_network_errors (Demo.platform []) 3 Demo.homeUrl _ Hb)
    as (_ & _ & Hfour & _).
  exact (Hfour eq_refl 40%Z _ 40%Z _ 40%Z _ 40%Z _ _ 0%Z []).
Defined.

(** The code at the input on which it departs from C6: with all three
    retries left and a network that answers the next request, a timeout
    fails the fetch at once, at the instant of the timeout; the delay of one
    second and the second request are made, and the page that request
    loads is lost. *)
Lemma fetch_fails_on_first_timeout :
  @fetchFrom (Demo.platform []) 3
    [ Demo.after 30000 Timeout;
      Demo.after 90 (Response 200 "OK" None "<html></html>") ]
    Demo.homeUrl 0 0 []
  = (Throws (Error "Request timeout"),
     {| now := 30000;
        network := [];
        trace := [ Request Demo.homeUrl; Sleep 1000; Request Demo.homeUrl ] |}).
Proof. reflexivity. Qed.

(** C7, as the code has it: a response with status 200 resolves the fetch
    with the body; a 3xx response that carries a Location is followed, with
    the retry count kept; every other response, those with another 2xx
    status among them, fails the fetch at once, without a retry, with an
    error whose message carries the status code. *)
Theorem fetch_settles_on_status `{Platform} (retries : nat) (url : string)
    (parsed : URL) :
  parseURL url = Some parsed ->
  forall lat statusCode statusMessage location body net retryCount now tr,
    (statusCode = 200%Z ->
     fetchFrom retries
               ({| latency := lat;
                   outcome := Response statusCode statusMessage location body |}
                :: net)
               url retryCount now tr
     = (Returns body,
        {| now := (now + lat)%Z; network := net; trace := tr ++ [Request url] |}))
    /\ (forall target,
          (300 <= statusCode < 400)%Z -> redirectTarget location = Some target ->
          fetchFrom retries
                    ({| latency := lat;
                        outcome := Response statusCode statusMessage location body |}
                     :: net)
                    url retryCount now tr
          = fetchFrom retries net target retryCount (now + lat)%Z
                      (tr ++ [Request url]))
    /\ (statusCode <> 200%Z ->
        ~ (300 <= statusCode < 400)%Z \/ redirectTarget location = None ->
        fetchFrom retries
                  ({| latency := lat;
                      outcome := Response statusCode statusMessage location body |}
                   :: net)
                  url retryCount now tr
        = (Throws (httpError statusCode statusMessage),
           {| now := (now + lat)%Z; network := net; trace := tr ++ [Request url] |})
        /\ message (httpError statusCode statusMessage)
           = ("HTTP " ++ showZ statusCode ++ ": " ++ statusMessage)%string).
Proof.
  intros Hurl lat statusCode statusMessage location body net retryCount now tr.
  split; [|split].
  - intros ->. now apply fetchFrom_ok with (parsed := parsed).
  - intros target Hr Ht. now apply fetchFrom_redirect with (parsed := parsed).
  - intros Hne Hno. split; [|reflexivity].
    now apply fetchFrom_status with (parsed := parsed).
Qed.

(** A 403 fails the fetch with the status in the message. *)
Lemma fetch_settles_on_status_witness :
  @parseURL (Demo.platform []) Demo.homeUrl
  = Some {| protocol := "https:"; hostname := "x.gov"; pathname := "/index" |}
  /\ @fetchFrom (Demo.platform []) 3
       [ Demo.after 90 (Response 403 "Forbidden" None "") ]
       Demo.homeUrl 0 0 []
     = (Throws (Error "HTTP 403: Forbidden"),
        {| now := 90; network := []; trace := [ Request Demo.homeUrl ] |}).
Proof.
  assert (Hb : @parseURL (Demo.platform []) Demo.homeUrl
               = Some {| protocol := "https:"; hostname := "x.gov";
                         pathname := "/index" |}) by reflexivity.
  split; [exact Hb|].
  destruct (@fetch_settles_on_status (Demo.platform []) 3 Demo.homeUrl _ Hb
              90%Z 403%Z "Forbidden" None "" [] 0 0%Z [])
    as (_ & _ & Hfail).
  apply Hfail; [discriminate|left; lia].
Defined.

(** C7 as stated fails on a 2xx response other than 200: a 201 with a body
    fails the fetch. *)
Lemma fetch_rejects_201 :
  @fetchFrom (Demo.platform []) 3
    [ Demo.after 90 (Response 201 "Created" None "<html></html>") ]
    Demo.homeUrl 0 0 []
  = (Throws (Error "HTTP 201: Created"),
     {| now := 90; network := []; trace := [ Request Demo.homeUrl ] |}).
Proof. reflexivity. Qed.

(** ** What a computation leaves alone *)

Create HintDb frame.

Lemma framed_ret {A : Type} (a : A) : framed (ret a).
Proof. intros s. apply outsidePositions_refl. Qed.

Lemma framed_throw {A : Type} (e : Exn) : framed (@throw A e).
Proof. intros s. apply outsidePositions_refl. Qed.

Lemma framed_bindM {A B : Type} (m : M A) (k : A -> M B) :
  framed m -> (forall a, framed (k a)) -> framed (bindM m k).
Proof.
  intros Hm Hk s. unfold bindM. specialize (Hm s).
  destruct (m s) as [[a|e|] s1]; cbn [fst snd] in *; auto.
  eapply outsidePositions_trans; [exact Hm|]. apply Hk.
Qed.

Lemma framed_tryCatch {A : Type} (m : M A) (handler : Exn -> M A) :
  framed m -> (forall e, framed (handler e)) -> framed (tryCatch m handler).
Proof.
  intros Hm Hh s. unfold tryCatch. specialize (Hm s).
  destruct (m s) as [[a|e|] s1]; cbn [fst snd] in *; auto.
  eapply outsidePositions_trans; [exact Hm|]. apply Hh.
Qed.

Lemma framed_liftResult {A : Type} (r : result A) : framed (liftResult r).
Proof. destruct r; [apply framed_ret|apply framed_throw]. Qed.

Lemma framed_forEachM {A S : Type} (l : list A) (f : S -> A -> M S) (s0 : S) :
  (forall s x, framed (f s x)) -> framed (forEachM l s0 f).
Proof.
  intros Hf; revert s0; induction l as [|x l IH]; intros s0; cbn [forEachM].
  - apply framed_ret.
  - apply framed_bindM; auto.
Qed.

Lemma framed_getCrawler : framed getCrawler.
Proof. intros s. apply outsidePositions_refl. Qed.

Lemma framed_dateNow : framed dateNow.
Proof. intros s. apply outsidePositions_refl. Qed.

Lemma framed_sleep (ms : Z) : framed (sleep ms).
Proof. intros s. apply outsidePositions_refl. Qed.

Lemma framed_savePosition (politicianId : string) (p : Position) :
  framed (savePosition politicianId p).
Proof.
  intros [c w].
  destruct (savePosition_cases politicianId p c w) as [(_ & _ & ->)|(_ & ->)];
    repeat split.
Qed.

Lemma framed_savePositions (politicianId : string) (positions : list Position) :
  framed (savePositions politicianId positions).
Proof. apply framed_forEachM. intros; apply framed_savePosition. Qed.

Lemma framed_extractPage (page : Page) (sourceUrl : string)
    (hintTopic : option string) :
  framed (extractPage page sourceUrl hintTopic).
Proof.
  unfold extractPage. apply framed_bindM; [apply framed_getCrawler|].
  intros c. apply framed_liftResult.
Qed.

#[export] Hint Resolve framed_ret framed_throw framed_liftResult framed_getCrawler
  framed_dateNow framed_sleep framed_savePosition framed_savePositions
  framed_extractPage : frame.

Section Pipeline.
Context `{Platform}.

Lemma framed_fetchWebsiteContent (url : string) (retryCount : nat) :
  framed (fetchWebsiteContent url retryCount).
Proof.
  intros s. unfold fetchWebsiteContent.
  destruct (fetchFrom _ _ _ _ _ _). apply outsidePositions_refl.
Qed.

Lemma framed_crawlPolicyPage (positions : list Position) (policyPage : PolicyPage) :
  framed (crawlPolicyPage positions policyPage).
Proof.
  unfold crawlPolicyPage. apply framed_tryCatch; [|auto with frame].
  apply framed_bindM; [apply framed_fetchWebsiteContent|]. intros content.
  apply framed_bindM.
  - destruct (String.eqb content ""); [auto with frame|].
    apply framed_bindM; auto with frame.
  - intros positions'. apply framed_bindM; auto with frame.
Qed.

Lemma framed_collectPositions (politician : Politician) :
  framed (collectPositions politician).
Proof.
  unfold collectPositions. destruct (p_website politician); [|auto with frame].
  apply framed_bindM; [apply framed_fetchWebsiteContent|]. intros content.
  destruct (String.eqb content ""); [auto with frame|].
  apply framed_bindM; [auto with frame|]. intros positions.
  apply framed_bindM; [auto with frame|]. intros policyPages.
  apply framed_forEachM. intros; apply framed_crawlPolicyPage.
Qed.

Lemma framed_crawlWebsite (politician : Politician) :
  framed (crawlWebsite politician).
Proof.
  unfold crawlWebsite.
  apply framed_bindM; [apply framed_collectPositions|]. intros positions.
  apply framed_bindM; auto with frame.
Qed.

(** What the block throws before it has counted its positions. *)
Lemma collectPositions_throws (politician : Politician) (s s1 : State) (e : Exn) :
  collectPositions politician s = (Throws e, s1) ->
  crawlWebsite politician s = (Throws e, s1) /\ countedBy politician s = 0.
Proof.
  intros E. unfold crawlWebsite, countedBy, bindM. rewrite E. auto.
Qed.

End Pipeline.


Section Subject.
Context `{Platform}.

(** What [extractPositionsFromWebsite] does, by the way its [try] block
    ends. *)
Lemma extractPositionsFromWebsite_outcome (politician : Politician)
    (website : string) (s : State) :
  p_website politician = Some website ->
  match crawlWebsite politician s with
  | (Returns n, s1) =>
      exists s',
        extractPositionsFromWebsite politician s = (Returns tt, s')
        /\ crawl_log (db (fst s'))
           = crawl_log (db (fst s))
             ++ [attemptRow politician website "success" n None
                            (now (snd s)) (snd s1)]
        /\ processedCount (fst s') = processedCount (fst s) + 1
        /\ errorsCount (fst s') = errorsCount (fst s)
  | (Throws e, s1) =>
      exists s',
        extractPositionsFromWebsite politician s = (Returns tt, s')
        /\ crawl_log (db (fst s'))
           = crawl_log (db (fst s))
             ++ [attemptRow politician website "error" (countedBy politician s)
                            (Some (message e)) (now (snd s)) (snd s1)]
        /\ processedCount (fst s') = processedCount (fst s) + 1
        /\ errorsCount (fst s') = errorsCount (fst s) + 1
  | (Hangs, s1) => extractPositionsFromWebsite politician s = (Hangs, s1)
  end.
Proof.
  intros Hw. pose proof (framed_collectPositions politician s) as Hf.
  unfold extractPositionsFromWebsite, crawlWebsite, countedBy, bindM, tryCatch,
    dateNow.
  destruct (collectPositions politician s) as [[positions|e|] [c0 w0]];
    cbn [fst snd] in *.
  - pose proof (framed_savePositions (p_id politician) positions (c0, w0)) as Hg.
    pose proof (outsidePositions_trans _ _ _ Hf Hg) as Hfg.
    destruct (savePositions (p_id politician) positions (c0, w0))
      as [[u|e|] [c1 w1]]; cbn [fst snd] in *.
    + rewrite Hw. eexists. split; [reflexivity|].
      destruct Hfg as (Hlog & _ & _ & _ & _ & _ & Hp & He & _).
      cbn. rewrite Hlog, Hp, He. auto.
    + rewrite Hw. eexists. split; [reflexivity|].
      destruct Hfg as (Hlog & _ & _ & _ & _ & _ & Hp & He & _).
      cbn. rewrite Hlog, Hp, He. auto.
    + reflexivity.
  - rewrite Hw. eexists. split; [reflexivity|].
    destruct Hf as (Hlog & _ & _ & _ & _ & _ & Hp & He & _).
    cbn. rewrite Hlog, Hp, He. auto.
  - reflexivity.
Qed.
End Subject.

(** ** A page whose classification throws *)

Section Propagation.
Context `{Platform}.


End Propagation.





Section Run.
Context `{Platform}.


End Run.



(** A run over the directory on that network ends, with one row. *)
Example crawlAllPoliticians_ends :
  exists s',
    @crawlAllPoliticians (Demo.platform Demo.documents) None
      (constructor Demo.directory, Demo.brokenPolicyPage)
    = (Returns tt, s')
    /\ map log_politician_id (crawl_log (db (fst s'))) = ["A000001"]
    /\ processedCount (fst s') = 1.
Proof.
  eexists. split; [vm_compute; reflexivity|]. split; reflexivity.
Qed.

(* ================================================================== *)
(** * Part III: further properties of the pipeline *)
(* ================================================================== *)

(** ** Topic classifier: one entry per topic, with the best weight *)

Lemma raiseConfidence_ids (tid : Z) (score : Q) (topics : list Topic) :
  map id (raiseConfidence tid score topics) = map id topics.
Proof.
  induction topics as [|u l IH]; simpl; [reflexivity|].
  destruct (Z.eqb (id u) tid).
  - destruct (Qgtb score (t_confidence u)); reflexivity.
  - simpl. now rewrite IH.
Qed.

Lemma raiseConfidence_spec (tid : Z) (score : Q) (topics : list Topic) (t' : Topic) :
  NoDup (map id topics) ->
  In t' (raiseConfidence tid score topics) ->
  exists t, In t topics /\ id t' = id t
            /\ if Z.eqb (id t) tid
               then t_confidence t'
                    = (if Qgtb score (t_confidence t) then score else t_confidence t)
               else t' = t.
Proof.
  induction topics as [|u l IH]; simpl; [tauto|].
  intros Hnd. inversion Hnd as [|? ? Hnotin Hnd']; subst.
  destruct (Z.eqb (id u) tid) eqn:E.
  - intros [<-|H].
    + exists u. rewrite E. split; [now left|].
      destruct (Qgtb score (t_confidence u)); auto.
    + exists t'. split; [now right|]. split; [reflexivity|].
      destruct (Z.eqb (id t') tid) eqn:E'; [|reflexivity].
      exfalso. apply Hnotin. apply Z.eqb_eq in E, E'. rewrite E, <- E'.
      now apply in_map.
  - intros [<-|H].
    + exists u. rewrite E. split; [now left|]. auto.
    + destruct (IH Hnd' H) as (t & Ht & Hid & Hc). exists t. split; [now right|]. auto.
Qed.

Lemma Qgtb_false_le (a b : Q) : Qgtb a b = false -> (a <= b)%Q.
Proof.
  unfold Qgtb. rewrite negb_false_iff. apply Qle_bool_iff.
Qed.

Lemma classified_step (text : string) (seen : list TopicAliasRow)
    (topics : list Topic) (row : TopicAliasRow) :
  classified text seen topics ->
  classified text (seen ++ [row])
    (if includes (toLowerCase text) (row_alias row) then
       if existsb (fun t => Z.eqb (id t) (row_id row)) topics
       then raiseConfidence (row_id row) (row_confidence_score row) topics
       else topics ++ [ {| id := row_id row;
                           canonical_name := row_canonical_name row;
                           display_name := row_display_name row;
                           t_confidence := row_confidence_score row |} ]
     else topics).
Proof.
  intros (Hnd & Hatt & Hmax & Hall).
  destruct (includes (toLowerCase text) (row_alias row)) eqn:Hin.
  2:{ repeat split; auto.
      - intros t Ht. destruct (Hatt t Ht) as (r & Hr & H). exists r.
        split; [apply in_or_app; now left|exact H].
      - intros t r Ht Hr. apply in_app_or in Hr as [Hr|[<-|[]]]; [now apply Hmax|].
        congruence.
      - intros r Hr. apply in_app_or in Hr as [Hr|[<-|[]]]; [now apply Hall|].
        congruence. }
  destruct (existsb (fun t => Z.eqb (id t) (row_id row)) topics) eqn:Hex.
  - repeat split.
    + now rewrite raiseConfidence_ids.
    + intros t' Ht'.
      destruct (raiseConfidence_spec _ _ _ _ Hnd Ht') as (t & Ht & Hid & Hc).
      destruct (Z.eqb (id t) (row_id row)) eqn:E.
      * destruct (Qgtb (row_confidence_score row) (t_confidence t)).
        -- exists row. split; [apply in_or_app; right; now left|].
           apply Z.eqb_eq in E. repeat split; auto; congruence.
        -- destruct (Hatt t Ht) as (r & Hr & Hi & Hri & Hrc). exists r.
           split; [apply in_or_app; now left|]. repeat split; auto; congruence.
      * subst t'. destruct (Hatt t Ht) as (r & Hr & H). exists r.
        split; [apply in_or_app; now left|exact H].
    + intros t' r Ht' Hr Hi Hri.
      destruct (raiseConfidence_spec _ _ _ _ Hnd Ht') as (t & Ht & Hid & Hc).
      destruct (Z.eqb (id t) (row_id row)) eqn:E.
      * rewrite Hc. apply in_app_or in Hr as [Hr|[<-|[]]].
        -- assert (Hle : (row_confidence_score r <= t_confidence t)%Q)
             by (apply (Hmax t r); auto; congruence).
           destruct (Qgtb (row_confidence_score row) (t_confidence t)) eqn:G; auto.
           apply Qgtb_lt in G. eapply Qle_trans; [exact Hle|]. now apply Qlt_le_weak.
        -- destruct (Qgtb (row_confidence_score row) (t_confidence t)) eqn:G.
           ++ apply Qle_refl.
           ++ now apply Qgtb_false_le.
      * subst t'. apply in_app_or in Hr as [Hr|[<-|[]]]; [now apply (Hmax t r)|].
        apply Z.eqb_neq in E. congruence.
    + intros r Hr Hi.
      assert (Hsome : exists t, In t topics /\ id t = row_id r).
      { apply in_app_or in Hr as [Hr|[<-|[]]]; [now apply Hall|].
        apply existsb_exists in Hex as (t & Ht & E). apply Z.eqb_eq in E. eauto. }
      destruct Hsome as (t & Ht & Hid).
      assert (Hids : In (id t) (map id (raiseConfidence (row_id row)
                                          (row_confidence_score row) topics)))
        by (rewrite raiseConfidence_ids; now apply in_map).
      apply in_map_iff in Hids as (t' & Hid' & Ht'). exists t'. split; congruence.
  - assert (Hfresh : ~ In (row_id row) (map id topics)).
    { intros H. apply in_map_iff in H as (t & Hid & Ht).
      assert (existsb (fun t => Z.eqb (id t) (row_id row)) topics = true)
        by (apply existsb_exists; exists t; split; auto; now apply Z.eqb_eq).
      congruence. }
    repeat split.
    + rewrite map_app. simpl. apply NoDup_app; auto.
      * constructor; [intros []|constructor].
      * intros x Hx [<-|[]]. auto.
    + intros t Ht. apply in_app_or in Ht as [Ht|[<-|[]]].
      * destruct (Hatt t Ht) as (r & Hr & H). exists r.
        split; [apply in_or_app; now left|exact H].
      * exists row. split; [apply in_or_app; right; now left|]. auto.
    + intros t r Ht Hr Hi Hri. apply in_app_or in Ht as [Ht|[<-|[]]].
      * apply in_app_or in Hr as [Hr|[<-|[]]]; [now apply (Hmax t r)|].
        exfalso. apply Hfresh. rewrite Hri. now apply in_map.
      * cbn [t_confidence id] in *. apply in_app_or in Hr as [Hr|[<-|[]]].
        -- exfalso. destruct (Hall r Hr Hi) as (t & Ht & Hid).
           apply Hfresh. rewrite <- Hri, <- Hid. now apply in_map.
        -- apply Qle_refl.
    + intros r Hr Hi. apply in_app_or in Hr as [Hr|[<-|[]]].
      * destruct (Hall r Hr Hi) as (t & Ht & Hid). exists t.
        split; [apply in_or_app; now left|exact Hid].
      * eexists. split; [apply in_or_app; right; left; reflexivity|]. reflexivity.
Qed.

Lemma identifyTopicsIn_classified (rows : list TopicAliasRow) (text : string) :
  classified text rows (identifyTopicsIn rows text).
Proof.
  unfold identifyTopicsIn.
  assert (G : forall rest seen topics,
             classified text seen topics ->
             classified text (seen ++ rest)
               (fold_left
                  (fun topics row =>
                     if includes (toLowerCase text) (row_alias row) then
                       if existsb (fun t => Z.eqb (id t) (row_id row)) topics
                       then raiseConfidence (row_id row) (row_confidence_score row) topics
                       else topics ++ [ {| id := row_id row;
                                           canonical_name := row_canonical_name row;
                                           display_name := row_display_name row;
                                           t_confidence := row_confidence_score row |} ]
                     else topics)
                  rest topics)).
  { induction rest as [|row rest IH]; intros seen topics H; simpl.
    - now rewrite app_nil_r.
    - replace (seen ++ row :: rest) with ((seen ++ [row]) ++ rest)
        by (rewrite <- app_assoc; reflexivity).
      apply IH. now apply classified_step. }
  apply (G rows [] []).
  repeat split; try constructor; intros ? []; intros; contradiction.
Qed.

(** X1: the topic classifier lists a topic once, however many of its
    aliases occur in the text; the confidence of the entry is the weight of
    one of the aliases of that topic that occur, no alias of the topic that
    occurs has a greater weight, and every topic with an alias that occurs
    in the lower-cased text is listed. *)
Theorem identifyTopics_once_with_best_weight (d : Database) (text : string) :
  NoDup (map id (identifyTopics d text))
  /\ (forall t, In t (identifyTopics d text) ->
        (exists row, In row (allTopicAliases d)
                     /\ includes (toLowerCase text) (row_alias row) = true
                     /\ row_id row = id t
                     /\ t_confidence t = row_confidence_score row)
        /\ forall row, In row (allTopicAliases d) ->
             includes (toLowerCase text) (row_alias row) = true ->
             row_id row = id t ->
             (row_confidence_score row <= t_confidence t)%Q)
  /\ (forall row, In row (allTopicAliases d) ->
        includes (toLowerCase text) (row_alias row) = true ->
        exists t, In t (identifyTopics d text) /\ id t = row_id row).
Proof.
  destruct (identifyTopicsIn_classified (allTopicAliases d) text)
    as (Hnd & Hatt & Hmax & Hall).
  split; [exact Hnd|]. split; [|exact Hall].
  intros t Ht. split; [now apply Hatt|].
  intros row Hrow Hi Hid. now apply (Hmax t row).
Qed.

(** ** One section: topics and positions without repetition *)

Lemma topicsOfSection_NoDup (d : Database) (hintTopic : option string)
    (section : Section) :
  NoDup (map id (topicsOfSection d hintTopic section)).
Proof.
  assert (Hnd : NoDup (map id (identifyTopics d (text section))))
    by apply identifyTopicsIn_classified.
  unfold topicsOfSection.
  destruct hintTopic as [hint|]; [|exact Hnd].
  destruct (String.eqb hint ""); [exact Hnd|].
  destruct (getTopicByCanonicalName d hint) as [row|]; [|exact Hnd].
  destruct (existsb _ _) eqn:Hex; [exact Hnd|].
  cbn [map id]. constructor; [|exact Hnd].
  intros H. apply in_map_iff in H as (t & Hid & Ht).
  assert (existsb (fun t => Z.eqb (id t) (topic_id row))
                  (identifyTopics d (text section)) = true)
    by (apply existsb_exists; exists t; split; auto; now apply Z.eqb_eq).
  congruence.
Qed.

Lemma topicsOfSection_hinted (d : Database) (hint : string) (row : TopicRow)
    (section : Section) :
  hint <> "" ->
  getTopicByCanonicalName d hint = Some row ->
  In (topic_id row) (map id (topicsOfSection d (Some hint) section)).
Proof.
  intros Hne Hrow. unfold topicsOfSection.
  destruct (String.eqb hint "") eqn:E; [apply String.eqb_eq in E; contradiction|].
  rewrite Hrow.
  destruct (existsb _ _) eqn:Hex.
  - apply existsb_exists in Hex as (t & Ht & Hid). apply Z.eqb_eq in Hid.
    rewrite <- Hid. now apply in_map.
  - now left.
Qed.

Lemma forEach_positions_NoDup (ct : CoreTopics) (sourceUrl : string)
    (section : Section) (topics : list Topic) (acc acc' : list Position) :
  NoDup (map id topics) ->
  NoDup (map pn_topic_id acc) ->
  (forall p, In p acc -> ~ In (pn_topic_id p) (map id topics)) ->
  forEach topics acc
    (fun positions topic =>
       p <- positionOf ct sourceUrl section topic ;;
       Ok (positions ++ optList p)) = Ok acc' ->
  NoDup (map pn_topic_id acc').
Proof.
  revert acc; induction topics as [|t l IH]; intros acc Hl Hacc Hdis; simpl.
  - now intros [= <-].
  - inversion Hl as [|? ? Hnotin Hl']; subst.
    destruct (positionOf ct sourceUrl section t) as [r|] eqn:E;
      cbn [JS.bind]; [|discriminate].
    apply IH; auto.
    + destruct r as [p|]; cbn [optList].
      * rewrite map_app. apply NoDup_app; auto.
        -- cbn. constructor; [intros []|constructor].
        -- intros x Hx [<-|[]].
           apply in_map_iff in Hx as (q & Hq & Hin).
           apply positionOf_emitted in E as (_ & _ & _ & _ & _ & _ & Hid & _).
           apply (Hdis q Hin). rewrite Hq, Hid. now left.
      * now rewrite app_nil_r.
    + intros p Hp Hin. apply in_app_or in Hp as [Hp|Hp].
      * apply (Hdis p Hp). now right.
      * destruct r as [q|]; cbn [optList] in Hp; [|contradiction].
        destruct Hp as [<-|[]].
        apply positionOf_emitted in E as (_ & _ & _ & _ & _ & _ & Hid & _).
        apply Hnotin. now rewrite <- Hid.
Qed.

(** X2: a hint never doubles a topic.  The topics one section is analysed
    for have pairwise different ids, whether or not the page came with a
    topic hint; the topics the classifier found are all among them; a hint
    that names a stored topic puts that topic among them; and the positions
    one section yields are for pairwise different topics. *)
Theorem section_yields_one_position_per_topic (ct : CoreTopics) (d : Database)
    (sourceUrl : string) (hintTopic : option string) (section : Section) :
  NoDup (map id (topicsOfSection d hintTopic section))
  /\ incl (identifyTopics d (text section)) (topicsOfSection d hintTopic section)
  /\ (forall hint row,
        hintTopic = Some hint -> hint <> "" ->
        getTopicByCanonicalName d hint = Some row ->
        In (topic_id row) (map id (topicsOfSection d hintTopic section)))
  /\ (forall positions,
        positionsOfSection ct d sourceUrl hintTopic [] section = Ok positions ->
        NoDup (map pn_topic_id positions)).
Proof.
  split; [apply topicsOfSection_NoDup|]. split; [|split].
  - unfold topicsOfSection.
    destruct hintTopic as [hint|]; [|apply incl_refl].
    destruct (String.eqb hint ""); [apply incl_refl|].
    destruct (getTopicByCanonicalName d hint) as [row|]; [|apply incl_refl].
    destruct (existsb _ _); [apply incl_refl|].
    intros u Hu. now right.
  - intros hint row -> Hne Hrow. now apply topicsOfSection_hinted.
  - intros positions H. unfold positionsOfSection in H.
    eapply forEach_positions_NoDup; [apply topicsOfSection_NoDup| | |exact H].
    + constructor.
    + intros p [].
Qed.

(** ** Taxonomy store: seeding again changes nothing *)

Lemma extendsTaxonomy_refl (d : Database) : extendsTaxonomy d d.
Proof.
  repeat split; auto; exists []; now rewrite app_nil_r.
Qed.

Lemma extendsTaxonomy_trans (d1 d2 d3 : Database) :
  extendsTaxonomy d1 d2 -> extendsTaxonomy d2 d3 -> extendsTaxonomy d1 d3.
Proof.
  intros (H1 & H2 & H3 & H4 & (t & Ht) & (a & Ha))
         (G1 & G2 & G3 & G4 & (t' & Ht') & (a' & Ha')).
  repeat split; try congruence.
  - exists (t ++ t'). now rewrite Ht', Ht, app_assoc.
  - exists (a ++ a'). now rewrite Ha', Ha, app_assoc.
Qed.

Lemma insertTopic_extends (d : Database) (canonical display description : string) :
  extendsTaxonomy d (insertTopic d canonical display description).
Proof.
  unfold insertTopic. destruct (existsb _ _).
  - repeat split; cbn; exists []; now rewrite app_nil_r.
  - repeat split; cbn; eauto. exists []. now rewrite app_nil_r.
Qed.

Lemma insertAlias_extends (d : Database) (topicId : Z) (a : string) (score : Q) :
  extendsTaxonomy d (insertAlias d topicId a score).
Proof.
  unfold insertAlias. destruct (existsb _ _); [apply extendsTaxonomy_refl|].
  repeat split; cbn; eauto. exists []. now rewrite app_nil_r.
Qed.

Lemma insertAlias_topics (d : Database) (topicId : Z) (a : string) (score : Q) :
  policy_topics (insertAlias d topicId a score) = policy_topics d.
Proof.
  unfold insertAlias. destruct (existsb _ _); reflexivity.
Qed.

Lemma insertAlias_has (d : Database) (topicId : Z) (a : string) (score : Q) :
  hasAlias (insertAlias d topicId a score) topicId a = true.
Proof.
  unfold insertAlias, hasAlias.
  destruct (existsb _ (topic_aliases d)) eqn:E; [exact E|].
  cbn. rewrite existsb_app. cbn. rewrite Z.eqb_refl, String.eqb_refl.
  apply orb_true_r.
Qed.


Lemma hasAlias_extends (d d' : Database) (topicId : Z) (a : string) :
  extendsTaxonomy d d' -> hasAlias d topicId a = true -> hasAlias d' topicId a = true.
Proof.
  intros (_ & _ & _ & _ & _ & (al & Hal)). unfold hasAlias.
  rewrite Hal, existsb_app. now intros ->.
Qed.

Lemma find_app_Some {A : Type} (f : A -> bool) (l l' : list A) (x : A) :
  find f l = Some x -> find f (l ++ l') = Some x.
Proof.
  induction l as [|y l IH]; simpl; [discriminate|].
  destruct (f y); auto.
Qed.

Lemma getTopicByCanonicalName_extends (d d' : Database) (name : string)
    (row : TopicRow) :
  extendsTaxonomy d d' ->
  getTopicByCanonicalName d name = Some row ->
  getTopicByCanonicalName d' name = Some row.
Proof.
  intros (_ & _ & _ & _ & (ts & Hts) & _). unfold getTopicByCanonicalName.
  rewrite Hts. apply find_app_Some.
Qed.

Lemma installed_extends (d d' : Database) (topic : CoreTopic) :
  extendsTaxonomy d d' -> installed d topic -> installed d' topic.
Proof.
  intros He (row & Hrow & Hal). exists row. split.
  - eapply getTopicByCanonicalName_extends; eauto.
  - intros a Ha. eapply hasAlias_extends; eauto.
Qed.

Lemma insertTopic_stored (d : Database) (canonical display description : string) :
  exists row,
    getTopicByCanonicalName (insertTopic d canonical display description) canonical
    = Some row.
Proof.
  unfold getTopicByCanonicalName.
  destruct (find _ _) as [row|] eqn:E; [eauto|exfalso].
  assert (Hex : existsb (fun t => String.eqb (topic_canonical_name t) canonical)
                        (policy_topics (insertTopic d canonical display description))
                = true).
  { unfold insertTopic.
    destruct (existsb _ (policy_topics d)) eqn:Hd; [exact Hd|].
    cbn. rewrite existsb_app. cbn. rewrite String.eqb_refl. apply orb_true_r. }
  apply existsb_exists in Hex as (t & Ht & Hp).
  pose proof (find_none _ _ E t Ht) as Hn. cbv beta in Hn. congruence.
Qed.

Lemma insertAliases_spec (topicId : Z) (score : Q) (names : list string)
    (d : Database) :
  let d' := fold_left (fun db a => insertAlias db topicId (toLowerCase a) score)
                      names d in
  extendsTaxonomy d d'
  /\ forall a, In a (map toLowerCase names) -> hasAlias d' topicId a = true.
Proof.
  revert d; induction names as [|n l IH]; intros d; simpl.
  - split; [apply extendsTaxonomy_refl|intros a []].
  - destruct (IH (insertAlias d topicId (toLowerCase n) score)) as (He & Hh).
    split.
    + eapply extendsTaxonomy_trans; [apply insertAlias_extends|exact He].
    + intros a [<-|Ha]; [|now apply Hh].
      eapply hasAlias_extends; [exact He|apply insertAlias_has].
Qed.

Lemma seedTopic_installs (d : Database) (topic : CoreTopic) :
  extendsTaxonomy d (seedTopic d topic) /\ installed (seedTopic d topic) topic.
Proof.
  unfold seedTopic.
  set (d1 := insertTopic d (ct_canonical_name topic) (ct_display_name topic)
                         (ct_description topic)).
  assert (H1 : extendsTaxonomy d d1) by apply insertTopic_extends.
  destruct (insertTopic_stored d (ct_canonical_name topic) (ct_display_name topic)
              (ct_description topic)) as (row & Hrow).
  fold d1 in Hrow. rewrite Hrow.
  set (d2 := insertAlias d1 (topic_id row) (ct_canonical_name topic) 1.0%Q).
  set (d3 := insertAlias d2 (topic_id row) (toLowerCase (ct_display_name topic)) 1.0%Q).
  assert (H2 : extendsTaxonomy d1 d2) by apply insertAlias_extends.
  assert (H3 : extendsTaxonomy d2 d3) by apply insertAlias_extends.
  destruct (insertAliases_spec (topic_id row) 0.8%Q (ct_aliases topic) d3)
    as (H4 & Hal).
  cbv zeta in H4, Hal.
  set (d4 := fold_left _ (ct_aliases topic) d3) in *.
  split.
  - eapply extendsTaxonomy_trans; [exact H1|].
    eapply extendsTaxonomy_trans; [exact H2|].
    eapply extendsTaxonomy_trans; [exact H3|exact H4].
  - exists row. split.
    + eapply getTopicByCanonicalName_extends; [|exact Hrow].
      eapply extendsTaxonomy_trans; [exact H2|].
      eapply extendsTaxonomy_trans; [exact H3|exact H4].
    + intros a [<-|[<-|Ha]].
      * eapply hasAlias_extends; [|apply insertAlias_has].
        eapply extendsTaxonomy_trans; [exact H3|exact H4].
      * eapply hasAlias_extends; [exact H4|apply insertAlias_has].
      * now apply Hal.
Qed.



Lemma seedTopics_install (topics : list CoreTopic) (d : Database) :
  extendsTaxonomy d (fold_left seedTopic topics d)
  /\ forall topic, In topic topics -> installed (fold_left seedTopic topics d) topic.
Proof.
  revert d; induction topics as [|t l IH]; intros d; simpl.
  - split; [apply extendsTaxonomy_refl|intros ? []].
  - destruct (seedTopic_installs d t) as (He & Hi).
    destruct (IH (seedTopic d t)) as (He' & Hi').
    split; [eapply extendsTaxonomy_trans; eauto|].
    intros topic [<-|Hin]; [|now apply Hi'].
    eapply installed_extends; eauto.
Qed.


Lemma initializeTopicMappings_installs (d : Database) :
  extendsTaxonomy d (initializeTopicMappings d)
  /\ forall topic, In topic coreTopicsSeed ->
       installed (initializeTopicMappings d) topic.
Proof. exact (seedTopics_install coreTopicsSeed d). Qed.



(** ** Page discovery and the taxonomy: a hint names a stored topic *)

Lemma detectTopicFromUrl_key (path linkText t : string) :
  detectTopicFromUrl path linkText = Some t ->
  exists keywords,
    In (t, keywords) topicMap
    /\ existsb (fun keyword =>
                  includes (toLowerCase (path ++ " " ++ linkText)) keyword)
               keywords = true.
Proof.
  unfold detectTopicFromUrl.
  destruct (find _ topicMap) as [[k ws]|] eqn:E; [|discriminate].
  intros [= <-]. apply find_some in E as [Hin Hp]. exists ws. split; assumption.
Qed.

Lemma topicMap_keys_seeded (t : string) (keywords : list string) :
  In (t, keywords) topicMap ->
  t <> "" /\ exists topic, In topic coreTopicsSeed /\ ct_canonical_name topic = t.
Proof.
  intros Hin.
  assert (Hk : In t (map ct_canonical_name coreTopicsSeed)).
  { change (map ct_canonical_name coreTopicsSeed) with (map fst topicMap).
    now apply (in_map fst) in Hin. }
  split.
  - assert (Hne : forallb (fun k => negb (String.eqb k ""))
                          (map ct_canonical_name coreTopicsSeed) = true)
      by reflexivity.
    rewrite forallb_forall in Hne. specialize (Hne t Hk).
    intros ->. discriminate.
  - apply in_map_iff in Hk as (topic & Hn & Ht). eauto.
Qed.

Lemma getTopicByCanonicalName_name (d : Database) (name : string) (row : TopicRow) :
  getTopicByCanonicalName d name = Some row -> topic_canonical_name row = name.
Proof.
  unfold getTopicByCanonicalName. intros H.
  apply find_some in H as [_ Hp]. now apply String.eqb_eq in Hp.
Qed.

(** X4: the hint of a discovered page always takes effect.  On the database
    the seeding of the constructor leaves, whatever the file held, the topic that
    [detectTopicFromUrl] reads off a path and a link text is a stored topic,
    so every section of a page fetched with that hint is analysed for it,
    whether or not the text of the section names it. *)
Theorem hinted_topic_is_analysed (d : Database) (path linkText t : string)
    (section : Section) :
  detectTopicFromUrl path linkText = Some t ->
  exists row,
    getTopicByCanonicalName (initializeTopicMappings d) t = Some row
    /\ topic_canonical_name row = t
    /\ In (topic_id row)
          (map id (topicsOfSection (initializeTopicMappings d) (Some t) section)).
Proof.
  intros H. apply detectTopicFromUrl_key in H as (keywords & Hin & _).
  apply topicMap_keys_seeded in Hin as (Hne & topic & Htopic & <-).
  destruct (initializeTopicMappings_installs d) as (_ & Hi).
  destruct (Hi topic Htopic) as (row & Hrow & _).
  exists row. split; [exact Hrow|]. split.
  - now apply getTopicByCanonicalName_name in Hrow.
  - apply topicsOfSection_hinted; [exact Hne|exact Hrow].
Qed.

(** A link to /issues/medicare on a directory without taxonomy rows. *)
Lemma hinted_topic_is_analysed_witness :
  detectTopicFromUrl "/issues/medicare" "our plan" = Some "healthcare"
  /\ exists row,
      getTopicByCanonicalName (initializeTopicMappings Demo.directory) "healthcare"
      = Some row
      /\ topic_canonical_name row = "healthcare"
      /\ In (topic_id row)
            (map id (topicsOfSection (initializeTopicMappings Demo.directory)
                       (Some "healthcare")
                       {| selector := "main"; title := "Plan";
                          text := "We will lower the cost of prescriptions";
                          isKeySection_ := true;
                          hasStructuredContent_ := false |})).
Proof.
  split; [reflexivity|].
  apply (hinted_topic_is_analysed Demo.directory "/issues/medicare" "our plan").
  reflexivity.
Defined.

(** ** Strings: containment *)

Lemma prefix_spec (p s : string) :
  prefix p s = true <-> exists b, s = (p ++ b)%string.
Proof.
  revert s; induction p as [|c p IH]; intros s.
  - split; [intros _; now exists s|intros _; now destruct s].
  - destruct s as [|c' s]; cbn [prefix append].
    + split; [discriminate|intros [b Hb]; discriminate].
    + destruct (ascii_dec c c') as [<-|Hne].
      * rewrite IH. split; intros [b Hb]; exists b; [now rewrite Hb|now injection Hb].
      * split; [discriminate|]. intros [b Hb]. injection Hb as Hc _. congruence.
Qed.

Lemma includes_spec (s sub : string) :
  includes s sub = true <-> exists a b, s = (a ++ sub ++ b)%string.
Proof.
  induction s as [|c s IH].
  - cbn [includes]. rewrite orb_false_r, prefix_spec. split.
    + intros [b Hb]. now exists "", b.
    + intros (a & b & Hab). destruct a; [now exists b|discriminate].
  - cbn [includes]. rewrite orb_true_iff, prefix_spec, IH. split.
    + intros [[b Hb]|(a & b & Hab)].
      * now exists "", b.
      * exists (String c a), b. cbn. now rewrite Hab.
    + intros (a & b & Hab). destruct a as [|c' a].
      * left. now exists b.
      * right. injection Hab as _ Hab. now exists a, b.
Qed.

Lemma string_app_assoc (a b c : string) : ((a ++ b) ++ c = a ++ (b ++ c))%string.
Proof.
  induction a as [|x a IH]; cbn; [reflexivity|now rewrite IH].
Qed.

Lemma includes_trans (s p k : string) :
  includes s p = true -> includes p k = true -> includes s k = true.
Proof.
  rewrite !includes_spec. intros (a & b & ->) (a' & b' & ->).
  exists (a ++ a')%string, (b' ++ b)%string.
  now rewrite !string_app_assoc.
Qed.

Lemma includes_app_l (s t p : string) :
  includes s p = true -> includes (s ++ t) p = true.
Proof.
  rewrite !includes_spec. intros (a & b & ->).
  exists a, (b ++ t)%string. now rewrite !string_app_assoc.
Qed.

Lemma includes_app_r (s t p : string) :
  includes t p = true -> includes (s ++ t) p = true.
Proof.
  rewrite !includes_spec. intros (a & b & ->).
  exists (s ++ a)%string, b. now rewrite !string_app_assoc.
Qed.

Lemma toLowerCase_app (a b : string) :
  toLowerCase (a ++ b) = (toLowerCase a ++ toLowerCase b)%string.
Proof.
  induction a as [|c a IH]; cbn; [reflexivity|now rewrite IH].
Qed.

Lemma includes_toLowerCase (s p : string) :
  includes s p = true -> includes (toLowerCase s) (toLowerCase p) = true.
Proof.
  rewrite !includes_spec. intros (a & b & ->).
  exists (toLowerCase a), (toLowerCase b). now rewrite !toLowerCase_app.
Qed.

(** ** Page discovery: a page kept for a topic word carries a hint *)

Lemma topicPatterns_have_keywords (pattern : string) :
  In pattern topicPatterns ->
  exists entry keyword,
    In entry topicMap /\ In keyword (snd entry)
    /\ includes (toLowerCase pattern) keyword = true.
Proof.
  intros Hin.
  assert (Hall : forallb (fun pattern =>
                   existsb (fun entry =>
                     existsb (fun keyword => includes (toLowerCase pattern) keyword)
                             (snd entry)) topicMap) topicPatterns = true)
    by (vm_compute; reflexivity).
  rewrite forallb_forall in Hall. specialize (Hall pattern Hin).
  apply existsb_exists in Hall as (entry & He & Hk).
  apply existsb_exists in Hk as (keyword & Hk & Hi). eauto.
Qed.

Lemma detectTopicFromUrl_matchesTopic (path linkText : string) :
  existsb (fun topic => includes path topic || includes linkText topic)
          topicPatterns = true ->
  exists t, detectTopicFromUrl path linkText = Some t.
Proof.
  intros H. apply existsb_exists in H as (pattern & Hp & Hi).
  destruct (topicPatterns_have_keywords pattern Hp) as (entry & keyword & He & Hk & Hkw).
  assert (Hc : includes (toLowerCase (path ++ " " ++ linkText)) keyword = true).
  { apply includes_trans with (p := toLowerCase pattern); [|exact Hkw].
    apply includes_toLowerCase.
    apply orb_true_iff in Hi as [Hi|Hi].
    - now apply includes_app_l.
    - now apply includes_app_r, includes_app_r. }
  unfold detectTopicFromUrl.
  destruct (find _ topicMap) as [[t ws]|] eqn:E; [now exists t|exfalso].
  pose proof (find_none _ _ E entry He) as Hn. cbv beta in Hn.
  assert (existsb (fun keyword =>
                     includes (toLowerCase (path ++ " " ++ linkText)) keyword)
                  (snd entry) = true)
    by (apply existsb_exists; eauto).
  congruence.
Qed.

Section DiscoveryHints.
Context `{Platform}.

Lemma pageOfAnchor_reason (base : URL) (a : Anchor) (p : PolicyPage) :
  pageOfAnchor base a = Some p ->
  exists u,
    parseURL (url p) = Some u
    /\ pp_text p = toLowerCase (trim (a_text a))
    /\ topic p = detectTopicFromUrl (toLowerCase (pathname u)) (pp_text p)
    /\ (existsb (fun pattern => includes (toLowerCase (pathname u)) pattern)
                policyPatterns = true
        \/ existsb (fun topic => includes (toLowerCase (pathname u)) topic
                                 || includes (pp_text p) topic)
                   topicPatterns = true).
Proof.
  unfold pageOfAnchor.
  destruct (String.eqb (a_href a) ""); [discriminate|].
  destruct (resolveHref base (a_href a)) as [fullUrl|]; [|discriminate].
  destruct (parseURL fullUrl) as [u|] eqn:E; [|discriminate].
  destruct (negb _); [discriminate|].
  destruct (existsb _ policyPatterns) eqn:Hp;
    destruct (existsb _ topicPatterns) eqn:Ht; cbn [orb]; try discriminate.
  all: intros [= <-]; cbn [url pp_text topic]; exists u; auto.
Qed.

(** X5: why a page is a candidate.  Every page that page discovery
    returns lies under one of the seven policy paths or carries a topic
    hint: a link kept because its path or its text holds one of the topic
    words is always given a topic by [detectTopicFromUrl], and the hint is
    the canonical name of a core topic. *)
Theorem discovered_page_has_path_or_hint (page : Page) (baseUrl : string)
    (pages : list PolicyPage) (p : PolicyPage) :
  discoverPolicyPages page baseUrl = Ok pages ->
  In p pages ->
  exists u,
    parseURL (url p) = Some u
    /\ (existsb (fun pattern => includes (toLowerCase (pathname u)) pattern)
                policyPatterns = true
        \/ exists t, topic p = Some t)
    /\ (forall t, topic p = Some t ->
          In t (map ct_canonical_name coreTopicsSeed)).
Proof.
  unfold discoverPolicyPages.
  destruct (parseURL baseUrl) as [base|]; [|discriminate].
  intros E Hp.
  set (found := flat_map (fun a => optList (pageOfAnchor base a)) (anchors page))
    in E.
  assert (E' : firstn 15 (filterIndexed (isFirstBy url) found) = pages)
    by congruence.
  rewrite <- E' in Hp. unfold found in Hp.
  apply firstn_incl in Hp.
  apply (proj1 (proj2 (filterIndexed_isFirstBy url _))) in Hp.
  apply in_flat_map in Hp as (a & Ha & Hp).
  destruct (pageOfAnchor base a) as [q|] eqn:Eq; [|destruct Hp].
  destruct Hp as [<-|[]].
  destruct (pageOfAnchor_reason _ _ _ Eq) as (u & Hu & Htext & Htopic & Hwhy).
  exists u. split; [exact Hu|]. split.
  - destruct Hwhy as [Hpat|Htop]; [now left|right].
    rewrite Htopic. now apply detectTopicFromUrl_matchesTopic.
  - intros t Ht. rewrite Htopic in Ht.
    apply detectTopicFromUrl_key in Ht as (keywords & Hin & _).
    apply topicMap_keys_seeded in Hin as (_ & topic & Hin & <-).
    now apply in_map.
Qed.
End DiscoveryHints.

(** The page discovered in the scenario: under /issues/, hinted healthcare. *)
Lemma discovered_page_has_path_or_hint_witness :
  exists p u,
    @discoverPolicyPages (Demo.platform []) Demo.homePage Demo.homeUrl = Ok [p]
    /\ @parseURL (Demo.platform []) (url p) = Some u
    /\ existsb (fun pattern => includes (toLowerCase (pathname u)) pattern)
               policyPatterns = true
    /\ topic p = Some "healthcare"
    /\ In "healthcare" (map ct_canonical_name coreTopicsSeed).
Proof.
  pose (p := {| url := "https://x.gov/issues/healthcare"; pp_text := "healthcare";
                topic := Some "healthcare" |}).
  assert (Hd : @discoverPolicyPages (Demo.platform []) Demo.homePage Demo.homeUrl
               = Ok [p]) by (vm_compute; reflexivity).
  destruct (@discovered_page_has_path_or_hint (Demo.platform []) Demo.homePage
              Demo.homeUrl [p] p Hd (or_introl eq_refl))
    as (u & Hu & _ & Hseed).
  exists p, u. split; [exact Hd|]. split; [exact Hu|].
  split; [|split; [reflexivity|now apply Hseed]].
  vm_compute in Hu. injection Hu as <-. reflexivity.
Defined.

(** ** Strings: lengths *)

Lemma string_length_app (a b : string) :
  String.length (a ++ b) = String.length a + String.length b.
Proof.
  induction a as [|c a IH]; cbn; [reflexivity|now rewrite IH].
Qed.

Lemma substring0_length (n : nat) (s : string) :
  String.length (substring0 n s) <= n.
Proof.
  unfold substring0. revert s; induction n as [|n IH]; intros s.
  - destruct s; cbn; lia.
  - destruct s as [|c s]; cbn; [lia|]. specialize (IH s). lia.
Qed.

Lemma trimStart_length (s : string) :
  String.length (trimStart s) <= String.length s.
Proof.
  induction s as [|c s IH]; cbn; [lia|].
  destruct (isWhiteSpace c); cbn; lia.
Qed.

Lemma trimEnd_length (s : string) :
  String.length (trimEnd s) <= String.length s.
Proof.
  induction s as [|c s IH]; cbn [trimEnd]; [cbn; lia|].
  destruct (trimEnd s) as [|c' t].
  - destruct (isWhiteSpace c); cbn; lia.
  - cbn in *. lia.
Qed.

Lemma trim_length (s : string) : String.length (trim s) <= String.length s.
Proof.
  unfold trim. etransitivity; [apply trimEnd_length|apply trimStart_length].
Qed.

Lemma join_length_head (sep x : string) (l : list string) :
  String.length x <= String.length (join sep (x :: l)).
Proof.
  destruct l as [|y l]; cbn [join]; [lia|].
  rewrite string_length_app. lia.
Qed.

Lemma summary_of_long (l : list string) :
  l <> [] ->
  (forall x, In x l -> 20 < String.length x) ->
  20 < String.length (join ". " (firstn 2 l) ++ ".").
Proof.
  intros Hne Hl. destruct l as [|x l]; [congruence|].
  rewrite string_length_app. change (firstn 2 (x :: l)) with (x :: firstn 1 l).
  pose proof (join_length_head ". " x (firstn 1 l)).
  pose proof (Hl x (or_introl eq_refl)). lia.
Qed.

(** ** Key phrases *)

Lemma extractKeyPhrases_phrases (ct : CoreTopics) (text topic position : string)
    (phrases : list string) :
  extractKeyPhrases ct text topic position = Ok phrases ->
  List.length phrases <= 3
  /\ forall phrase, In phrase phrases ->
       exists sentence,
         In sentence (longSentences text)
         /\ phrase = trim sentence
         /\ String.length phrase < 200
         /\ existsb (fun word => includes (toLowerCase sentence) word)
                    (stanceWords position) = true.
Proof.
  unfold extractKeyPhrases.
  match goal with
  | |- context [forEach ?l ?s ?f] => destruct (forEach l s f) as [k|] eqn:E
  end; cbn [JS.bind]; [|discriminate].
  intros E'. assert (Hk : phrases = firstn 3 k) by congruence. clear E'.
  split; [rewrite Hk; apply firstn_le_length|].
  intros phrase Hin. rewrite Hk in Hin. apply firstn_incl in Hin.
  revert phrase Hin.
  refine (forEach_invariant _
            (fun acc => forall phrase, In phrase acc ->
               exists sentence,
                 In sentence (longSentences text)
                 /\ phrase = trim sentence
                 /\ String.length phrase < 200
                 /\ existsb (fun word => includes (toLowerCase sentence) word)
                            (stanceWords position) = true)
            _ _ _ _ _ E); [|intros ? []].
  intros acc sentence acc' Hs IH Hstep.
  match type of Hstep with
  | JS.bind ?m _ = _ => destruct m as [hasTopicKeyword|]
  end; cbn [JS.bind] in Hstep; [|discriminate].
  destruct hasTopicKeyword; cbn [andb] in Hstep;
    [|injection Hstep as <-; exact IH].
  match type of Hstep with
  | (if ?w && ?b then _ else _) = _ => destruct w eqn:Hw; destruct b eqn:Hb
  end; cbn [andb] in Hstep; injection Hstep as <-; try exact IH.
  intros phrase Hp. apply in_app_or in Hp as [Hp|[<-|[]]]; [now apply IH|].
  exists sentence. repeat split; auto. now apply Nat.ltb_lt.
Qed.

Lemma analyzePosition_keyPhrases (ct : CoreTopics) (text topic : string)
    (a : Analysis) :
  analyzePosition ct text topic = Ok a ->
  extractKeyPhrases ct text topic (position a) = Ok (keyPhrases a)
  /\ (strength a = "strong" \/ strength a = "moderate").
Proof.
  unfold analyzePosition.
  destruct (getTopicIndicators topic); cbn [JS.bind]; try discriminate.
  all: match goal with
       | |- context [determinePosition ?s ?o ?k] =>
           destruct (determinePosition s o k) as [p c]
       end.
  all: destruct (extractKeyPhrases ct text topic p) as [k|] eqn:E;
    cbn [JS.bind]; [|discriminate].
  all: intros [= <-]; cbn [position keyPhrases strength].
  all: split; [exact E|].
  all: destruct (0 <? _); auto.
Qed.

Lemma longSentences_long (text sentence : string) :
  In sentence (longSentences text) ->
  In sentence (splitSentences text) /\ 20 < String.length (trim sentence).
Proof.
  unfold longSentences. rewrite filter_In, Nat.ltb_lt. tauto.
Qed.

(** X6: the key phrases of an analysis.  Whenever [analyzePosition]
    returns, it reports at most three key phrases; each is a trimmed
    sentence of the text with more than 20 and fewer than 200 characters
    that holds one of the five support words when the stance found is
    [support], and one of the five oppose words for every other stance, so
    the key phrases of a [mixed] stance never show its support side. *)
Theorem key_phrases_follow_the_stance (ct : CoreTopics) (text topic : string)
    (a : Analysis) :
  analyzePosition ct text topic = Ok a ->
  List.length (keyPhrases a) <= 3
  /\ forall phrase, In phrase (keyPhrases a) ->
       exists sentence,
         In sentence (splitSentences text)
         /\ phrase = trim sentence
         /\ 20 < String.length phrase < 200
         /\ existsb (fun word => includes (toLowerCase sentence) word)
                    (stanceWords (position a)) = true.
Proof.
  intros H. apply analyzePosition_keyPhrases in H as [H _].
  apply extractKeyPhrases_phrases in H as [Hlen Hall].
  split; [exact Hlen|].
  intros phrase Hin. destruct (Hall phrase Hin) as (sentence & Hs & -> & Hl & Hw).
  apply longSentences_long in Hs as [Hs Hlong].
  exists sentence. repeat split; auto.
Qed.

(** The statement of the scenario: its one sentence is the key phrase. *)
Lemma key_phrases_follow_the_stance_witness :
  exists a,
    analyzePosition Demo.keywords Demo.statement "healthcare" = Ok a
    /\ keyPhrases a = [Demo.statement]
    /\ List.length (keyPhrases a) <= 3.
Proof.
  eexists. split; [vm_compute; reflexivity|]. split; [reflexivity|].
  refine (proj1 (key_phrases_follow_the_stance Demo.keywords Demo.statement
                   "healthcare" _ _)).
  vm_compute. reflexivity.
Defined.

(** ** The summary of a position *)

Lemma extractKeyPhrases_inherited (table : list (string * list string))
    (text topic position : string) :
  longSentences text <> [] ->
  getProperty table topic = Inherited ->
  extractKeyPhrases (Some table) text topic position = Throw someIsNotAFunction.
Proof.
  intros Hs Hp. unfold extractKeyPhrases.
  destruct (longSentences text); [congruence|].
  cbn [forEach]. rewrite Hp. reflexivity.
Qed.

Lemma extractPositionSummary_full_stop (ct : CoreTopics) (text : string)
    (topic : Topic) (analysis : option Analysis) (summary : string) :
  extractPositionSummary ct text topic analysis = Ok summary ->
  exists body, summary = (body ++ ".")%string.
Proof.
  unfold extractPositionSummary.
  destruct analysis as [a|]; [destruct (keyPhrases a) as [|phrase phrases]|].
  2: intros [= <-]; eauto.
  all: match goal with
       | |- context [forEach ?l ?s ?f] => destruct (forEach l s f) as [rel|]
       end; cbn [JS.bind]; [|discriminate].
  all: destruct rel; [destruct (filter _ _)|]; intros [= <-]; eauto.
Qed.

Lemma extractPositionSummary_long (ct : CoreTopics) (text : string)
    (topic : Topic) (a : Analysis) :
  analyzePosition ct text (canonical_name topic) = Ok a ->
  longSentences text <> [] ->
  exists summary,
    extractPositionSummary ct text topic (Some a) = Ok summary
    /\ 20 < String.length summary.
Proof.
  intros Ha Hs. apply analyzePosition_keyPhrases in Ha as [Hk _].
  assert (Hlong : forall x, In x (longSentences text) -> 20 < String.length x).
  { intros x Hx. apply longSentences_long in Hx as [_ Hx].
    pose proof (trim_length x). lia. }
  unfold extractPositionSummary.
  destruct (keyPhrases a) as [|phrase phrases] eqn:Hph.
  2:{ eexists. split; [reflexivity|]. apply summary_of_long; [discriminate|].
      intros x Hx.
      destruct (proj2 (extractKeyPhrases_phrases _ _ _ _ _ Hk) x Hx)
        as (sentence & Hsen & -> & _).
      now apply longSentences_long in Hsen. }
  destruct ct as [table|];
    [|rewrite (extractKeyPhrases_undefined _ _ _ Hs) in Hk; discriminate].
  assert (Hp : getProperty table (canonical_name topic) <> Inherited).
  { intros Hp. rewrite (extractKeyPhrases_inherited _ _ _ _ Hs Hp) in Hk.
    discriminate. }
  match goal with
  | |- context [forEach ?l ?s ?f] =>
      destruct (forEach_total f l s) as [rel Hrel]
  end.
  { intros acc x. destruct (sentenceMentions topic (toLowerCase x));
      [|destruct (getProperty table (canonical_name topic)); [|congruence|]];
      cbn [JS.bind]; repeat destruct (_ && _); eauto. }
  rewrite Hrel. cbn [JS.bind].
  assert (Hrel_long : forall x, In x rel -> 20 < String.length x).
  { refine (forEach_invariant _
              (fun acc => forall x, In x acc -> 20 < String.length x)
              _ _ _ _ _ Hrel); [|intros ? []].
    intros acc sentence acc' Hin IH Hstep.
    assert (Hadd : forall x, In x (acc ++ [trim sentence]) -> 20 < String.length x).
    { intros x Hx. apply in_app_or in Hx as [Hx|[<-|[]]]; [now apply IH|].
      now apply longSentences_long in Hin. }
    match type of Hstep with
    | JS.bind ?m _ = _ => destruct m as [hasTopicKeyword|]
    end; cbn [JS.bind] in Hstep; [|discriminate].
    repeat match type of Hstep with
           | (if ?b then _ else _) = _ => destruct b
           end; injection Hstep as <-; assumption. }
  destruct rel as [|r rel].
  - destruct (filter _ (longSentences text)) as [|f fs] eqn:Hf.
    + eexists. split; [reflexivity|]. now apply summary_of_long.
    + eexists. split; [reflexivity|]. apply summary_of_long; [discriminate|].
      intros x Hx. rewrite <- Hf in Hx. apply filter_In in Hx as [Hx _]. auto.
  - eexists. split; [reflexivity|]. apply summary_of_long; [discriminate|auto].
Qed.

Lemma positionOf_fields (ct : CoreTopics) (sourceUrl : string)
    (section : Section) (topic : Topic) (p : Position) :
  positionOf ct sourceUrl section topic = Ok (Some p) ->
  exists a summary,
    analyzePosition ct (text section) (canonical_name topic) = Ok a
    /\ extractPositionSummary ct (text section) topic (Some a) = Ok summary
    /\ p = {| pn_topic_id := id topic;
              position_summary := summary;
              position_details := substring0 1500 (text section);
              is_key_issue :=
                isKeyIssue section || String.eqb (strength a) "strong";
              source_url := sourceUrl;
              source_section := orElse (title section) (selector section);
              confidence_score := Qmin (t_confidence topic) (confidence a);
              stance := position a;
              pn_strength := strength a;
              key_phrases := join "; " (keyPhrases a) |}.
Proof.
  unfold positionOf.
  destruct (analyzePosition ct (text section) (canonical_name topic)) as [a|];
    cbn [JS.bind]; [|discriminate].
  destruct (_ && _); [|discriminate].
  destruct (extractPositionSummary ct (text section) topic (Some a))
    as [summary|] eqn:Es; cbn [JS.bind]; [|discriminate].
  cbn [position_summary]. destruct (20 <? String.length summary); [|discriminate].
  intros [= <-]. exists a, summary. repeat split. exact Es.
Qed.

(** X7: the last guard of [extractPolicyPositions].  Once the stance
    analysis of a section for a topic has returned, building the position
    never throws, and a position is emitted exactly when the stance
    confidence exceeds 0.2, the stance is not neutral, and the text has a
    sentence of more than 20 characters: the test on the length of the
    summary rejects the sections without such a sentence, and only those. *)
Theorem position_emitted_exactly_when (ct : CoreTopics) (sourceUrl : string)
    (section : Section) (topic : Topic) (a : Analysis) :
  analyzePosition ct (text section) (canonical_name topic) = Ok a ->
  (exists r, positionOf ct sourceUrl section topic = Ok r)
  /\ ((exists p, positionOf ct sourceUrl section topic = Ok (Some p))
      <-> (0.2 < confidence a)%Q
          /\ position a <> "neutral"
          /\ longSentences (text section) <> []).
Proof.
  intros Ha.
  assert (Hsum : exists summary,
             extractPositionSummary ct (text section) topic (Some a) = Ok summary
             /\ (longSentences (text section) = [] -> summary = ".")
             /\ (longSentences (text section) <> [] -> 20 < String.length summary)).
  { destruct (longSentences (text section)) as [|s l] eqn:Hs.
    - exists ".". split; [|split; [reflexivity|congruence]].
      apply extractPositionSummary_no_sentence; [exact Hs|].
      apply analyzePosition_keyPhrases in Ha as [Hk _].
      rewrite (extractKeyPhrases_no_sentence ct _ _ _ Hs) in Hk. congruence.
    - destruct (extractPositionSummary_long ct (text section) topic a Ha)
        as (summary & E & Hl); [rewrite Hs; discriminate|].
      exists summary. split; [exact E|]. split; [discriminate|auto]. }
  destruct Hsum as (summary & Hsum & Hnone & Hsome).
  assert (Hpos : positionOf ct sourceUrl section topic
                 = if Qgtb (confidence a) 0.2%Q
                      && negb (String.eqb (position a) "neutral")
                   then if 20 <? String.length summary
                        then Ok (Some
                          {| pn_topic_id := id topic;
                             position_summary := summary;
                             position_details := substring0 1500 (text section);
                             is_key_issue :=
                               isKeyIssue section
                               || String.eqb (strength a) "strong";
                             source_url := sourceUrl;
                             source_section :=
                               orElse (title section) (selector section);
                             confidence_score :=
                               Qmin (t_confidence topic) (confidence a);
                             stance := position a;
                             pn_strength := strength a;
                             key_phrases := join "; " (keyPhrases a) |})
                        else Ok None
                   else Ok None).
  { unfold positionOf. rewrite Ha. cbn [JS.bind].
    destruct (_ && _); [|reflexivity]. rewrite Hsum. reflexivity. }
  rewrite Hpos. split.
  - destruct (_ && _); [destruct (20 <? _)|]; eauto.
  - split.
    + intros [p Hp].
      destruct (Qgtb (confidence a) 0.2%Q) eqn:Hc; cbn [andb] in Hp;
        [|discriminate].
      destruct (String.eqb (position a) "neutral") eqn:Hn; cbn [negb] in Hp;
        [discriminate|].
      destruct (20 <? String.length summary) eqn:Hl; [|discriminate].
      split; [now apply Qgtb_lt|]. split.
      * intros Heq. rewrite Heq in Hn. discriminate.
      * intros Hs. rewrite (Hnone Hs) in Hl. discriminate.
    + intros (Hc & Hn & Hs).
      apply Qgtb_lt in Hc. rewrite Hc.
      destruct (String.eqb (position a) "neutral") eqn:En;
        [apply String.eqb_eq in En; contradiction|].
      cbn [andb negb].
      assert ((20 <? String.length summary) = true) as ->
        by (apply Nat.ltb_lt; auto).
      eauto.
Qed.

(** The statement of the scenario gives a position; a section of short
    sentences would not. *)
Lemma position_emitted_exactly_when_witness :
  exists p,
    positionOf Demo.keywords Demo.homeUrl
      {| selector := "main"; title := "Home"; text := Demo.statement;
         isKeySection_ := true; hasStructuredContent_ := false |}
      {| id := 1; canonical_name := "healthcare"; display_name := "Healthcare";
         t_confidence := 0.8%Q |}
    = Ok (Some p).
Proof.
  destruct (analyzePosition Demo.keywords Demo.statement "healthcare")
    as [a|] eqn:Ha; [|vm_compute in Ha; discriminate].
  apply (proj2 (proj2 (position_emitted_exactly_when Demo.keywords Demo.homeUrl
                         {| selector := "main"; title := "Home";
                            text := Demo.statement;
                            isKeySection_ := true;
                            hasStructuredContent_ := false |}
                         {| id := 1; canonical_name := "healthcare";
                            display_name := "Healthcare"; t_confidence := 0.8%Q |}
                         a Ha))).
  vm_compute in Ha. injection Ha as <-.
  split; [reflexivity|]. split; [discriminate|].
  vm_compute. discriminate.
Defined.

(** ** What an emitted position holds *)

Lemma determinePosition_range (s o k : nat) :
  (fst (determinePosition s o k) = "support"
   \/ fst (determinePosition s o k) = "oppose"
   \/ fst (determinePosition s o k) = "mixed"
   \/ fst (determinePosition s o k) = "neutral")
  /\ (snd (determinePosition s o k) <= 0.9)%Q.
Proof.
  unfold determinePosition.
  destruct (o <? s); [|destruct (s <? o); [|destruct (_ || _)]]; cbn [fst snd].
  - split; [auto|apply Q.le_min_l].
  - split; [auto|apply Q.le_min_l].
  - split; [auto|]. eapply Qle_trans; [apply Q.le_min_l|]. discriminate.
  - split; [auto 6|]. discriminate.
Qed.

(** X8: every position a page yields is well formed.  It names the URL it
    was extracted from and a section of the page; its stance is support,
    oppose or mixed and its strength strong or moderate; a strong position
    is a key issue; its details are the first 1500 characters of the
    section at most; its summary has more than 20 characters and ends with
    a full stop; and its confidence is at most 0.9. *)
Theorem emitted_position_well_formed (ct : CoreTopics) (d : Database)
    (page : Page) (sourceUrl : string) (hintTopic : option string)
    (positions : list Position) (p : Position) :
  extractPolicyPositions ct d page sourceUrl hintTopic = Ok positions ->
  In p positions ->
  source_url p = sourceUrl
  /\ (stance p = "support" \/ stance p = "oppose" \/ stance p = "mixed")
  /\ (pn_strength p = "strong" \/ pn_strength p = "moderate")
  /\ (pn_strength p = "strong" -> is_key_issue p = true)
  /\ String.length (position_details p) <= 1500
  /\ 20 < String.length (position_summary p)
  /\ (exists body, position_summary p = (body ++ ".")%string)
  /\ (confidence_score p <= 0.9)%Q
  /\ exists section,
       In section (findContentSections page)
       /\ position_details p = substring0 1500 (text section)
       /\ source_section p = orElse (title section) (selector section).
Proof.
  intros Hext Hp.
  destruct (extractPolicyPositions_source _ _ _ _ _ _ Hext p Hp)
    as (section & topic & Hs & _ & E).
  destruct (positionOf_emitted _ _ _ _ _ E)
    as (a' & Ha' & _ & Hne & _ & _ & _ & _ & Hlen).
  destruct (positionOf_fields _ _ _ _ _ E) as (a & summary & Ha & Hsum & ->).
  assert (a' = a) by congruence. subst a'.
  cbn [source_url stance pn_strength is_key_issue position_details
       position_summary confidence_score source_section] in *.
  destruct (analyzePosition_inversion _ _ _ _ Ha) as (Hpos & Hconf & _).
  destruct (analyzePosition_keyPhrases _ _ _ _ Ha) as (_ & Hstr).
  match type of Hpos with
  | _ = fst (determinePosition ?s ?o ?k) =>
      destruct (determinePosition_range s o k) as (Hrange & Hle)
  end.
  rewrite <- Hpos in Hrange. rewrite <- Hconf in Hle.
  split; [reflexivity|]. split.
  { destruct Hrange as [H|[H|[H|H]]]; auto. contradiction. }
  split; [exact Hstr|]. split.
  { intros ->. apply orb_true_r. }
  split; [apply substring0_length|]. split; [exact Hlen|]. split.
  { eapply extractPositionSummary_full_stop; eauto. }
  split.
  { eapply Qle_trans; [apply Q.le_min_r|exact Hle]. }
  exists section. auto.
Qed.

(** The position of the scenario. *)
Lemma emitted_position_well_formed_witness :
  exists p,
    extractPolicyPositions Demo.keywords (db (constructor Demo.directory))
      Demo.homePage Demo.homeUrl None = Ok [p]
    /\ source_url p = Demo.homeUrl
    /\ pn_strength p = "strong"
    /\ is_key_issue p = true
    /\ (confidence_score p <= 0.9)%Q.
Proof.
  eexists.
  assert (He : extractPolicyPositions Demo.keywords (db (constructor Demo.directory))
                 Demo.homePage Demo.homeUrl None
               = Ok [ {| pn_topic_id := 1;
                         position_summary := (Demo.statement ++ ".")%string;
                         position_details := Demo.statement;
                         is_key_issue := true;
                         source_url := Demo.homeUrl;
                         source_section := "Home";
                         confidence_score :=
                           Qmin 0.8 (Qmin 0.9 (0.3 + num 2 * 0.15 + num 1 * 0.1));
                         stance := "support";
                         pn_strength := "strong";
                         key_phrases := Demo.statement |} ])
    by (vm_compute; reflexivity).
  split; [exact He|].
  destruct (emitted_position_well_formed _ _ _ _ _ _ _ He (or_introl eq_refl))
    as (Hurl & _ & _ & Hkey & _ & _ & _ & Hconf & _).
  split; [exact Hurl|]. split; [reflexivity|]. split; [now apply Hkey|exact Hconf].
Defined.

(** ** Fetcher: what one fetch can cost *)

Lemma sleeps_app (a b : list Event) : sleeps (a ++ b) = sleeps a ++ sleeps b.
Proof. unfold sleeps. now rewrite flat_map_app. Qed.

Lemma requests_app (a b : list Event) : requests (a ++ b) = requests a ++ requests b.
Proof. unfold requests. now rewrite flat_map_app. Qed.

Section FetchAccount.
Context `{Platform}.
Variable retries : nat.

Lemma fetchAccount_settled (lat : Z) (o : Outcome) (net : list NetStep)
    (url : string) (retryCount : nat) (now0 : Z) (tr : list Event)
    (r : completion string) :
  r <> Hangs ->
  (o = Timeout -> r = Throws requestTimeout) ->
  fetchAccount retries ({| latency := lat; outcome := o |} :: net) retryCount
    now0 tr
    (r, {| now := (now0 + lat)%Z; network := net; trace := tr ++ [Request url] |}).
Proof.
  intros Hr Ho. exists [ {| latency := lat; outcome := o |} ], [Request url], 0.
  cbn [fst snd network trace now app sleeps requests flat_map seq map
       List.length timedOut existsb outcome latency total fold_right].
  split; [reflexivity|]. split; [reflexivity|]. split; [reflexivity|].
  split; [lia|]. split; [now left|]. split; [intros E; now elim Hr|].
  split.
  - intros _. split; [lia|reflexivity].
  - destruct o; cbn [isTimeout orb]; try discriminate.
    intros _. split; [now apply Ho|].
    cbn [awaited outcome isTimeout errorsIn filter isNetworkError List.length
         seq map latency total fold_right]. lia.
Qed.

Lemma fetchAccount_step (lat statusCode : Z) (statusMessage : string)
    (location : option string) (body : string) (net : list NetStep)
    (url : string) (retryCount : nat) (now0 : Z) (tr : list Event)
    (res : completion string * World) :
  fetchAccount retries net retryCount (now0 + lat)%Z (tr ++ [Request url]) res ->
  fetchAccount retries
    ({| latency := lat;
        outcome := Response statusCode statusMessage location body |} :: net)
    retryCount now0 tr res.
Proof.
  intros (used & added & k & Hnet & Htr & Hsl & Hk & Hreq & Hh & Hnow & Hto).
  unfold errorsIn in *.
  exists ({| latency := lat;
             outcome := Response statusCode statusMessage location body |}
          :: used),
         (Request url :: added), k.
  unfold errorsIn.
  change (sleeps (Request url :: added)) with (sleeps added).
  change (requests (Request url :: added)) with (url :: requests added).
  cbn [timedOut existsb outcome isTimeout orb awaited errorsIn filter
       isNetworkError].
  fold (timedOut used).
  split; [cbn [app]; now rewrite <- Hnet|].
  split; [rewrite Htr, <- app_assoc; reflexivity|].
  split; [exact Hsl|]. split; [exact Hk|].
  split; [cbn [List.length]; destruct Hreq as [E|[E En]];
          [left; lia|right; split; [lia|exact En]]|].
  split; [intros E; destruct (Hh E) as (E1 & E2 & E3);
          cbn [List.length]; repeat split; auto; lia|].
  split.
  - intros E. destruct (Hnow E) as [E1 E2]. split.
    + rewrite E1. cbn [map total fold_right latency].
      fold (total (map latency used)). lia.
    + intros Hr. cbn [List.length]. now rewrite E2.
  - intros E. destruct (Hto E) as [E1 E2]. split; [exact E1|].
    rewrite E2. cbn [map total fold_right latency].
    fold (total (map latency (awaited used))). lia.
Qed.

Lemma total_delays (retryCount k : nat) :
  total (map retryDelay (seq retryCount (S k)))
  = (retryDelay retryCount + total (map retryDelay (seq (retryCount + 1) k)))%Z.
Proof. cbn [seq map total fold_right]. now rewrite Nat.add_1_r. Qed.

Lemma fetchAccount_retry (lat : Z) (e : Exn) (net : list NetStep) (url : string)
    (retryCount : nat) (now0 : Z) (tr : list Event)
    (res : completion string * World) :
  retryCount < retries ->
  fetchAccount retries net (retryCount + 1)
               (now0 + lat + retryDelay retryCount)%Z
               ((tr ++ [Request url]) ++ [Sleep (retryDelay retryCount)]) res ->
  fetchAccount retries ({| latency := lat; outcome := NetworkError e |} :: net)
               retryCount now0 tr res.
Proof.
  intros Hlt (used & added & k & Hnet & Htr & Hsl & Hk & Hreq & Hh & Hnow & Hto).
  unfold errorsIn in *.
  exists ({| latency := lat; outcome := NetworkError e |} :: used),
         (Request url :: Sleep (retryDelay retryCount) :: added), (S k).
  unfold errorsIn.
  change (sleeps (Request url :: Sleep (retryDelay retryCount) :: added))
    with (retryDelay retryCount :: sleeps added).
  change (requests (Request url :: Sleep (retryDelay retryCount) :: added))
    with (url :: requests added).
  cbn [timedOut existsb outcome isTimeout orb awaited errorsIn filter
       isNetworkError].
  fold (timedOut used).
  split; [cbn [app]; now rewrite <- Hnet|].
  split; [rewrite Htr, <- !app_assoc; reflexivity|].
  split; [cbn [seq map]; rewrite Hsl; now rewrite Nat.add_1_r|].
  split; [lia|].
  split; [cbn [List.length]; destruct Hreq as [E|[E En]];
          [left; lia|right; split; [lia|exact En]]|].
  split; [intros E; destruct (Hh E) as (E1 & E2 & E3);
          cbn [List.length]; repeat split; auto; lia|].
  split.
  - intros E. destruct (Hnow E) as [E1 E2]. split.
    + rewrite E1. cbn [map total fold_right latency].
      fold (total (map latency used)). fold (total (sleeps added)). lia.
    + intros Hr. cbn [List.length]. now rewrite E2.
  - intros E. destruct (Hto E) as [E1 E2]. split; [exact E1|].
    rewrite E2. cbn [List.length].
    rewrite total_delays. cbn [map total fold_right latency].
    fold (total (map latency (awaited used))). lia.
Qed.

Lemma fetchAccount_detached (lat : Z) (net : list NetStep) (url : string)
    (retryCount : nat) (now0 : Z) (tr : list Event)
    (res : completion string * World) :
  retryCount < retries ->
  fetchAccount retries net (retryCount + 1)
               (now0 + lat + retryDelay retryCount)%Z
               ((tr ++ [Request url]) ++ [Sleep (retryDelay retryCount)]) res ->
  fetchAccount retries ({| latency := lat; outcome := Timeout |} :: net)
               retryCount now0 tr
               (Throws requestTimeout, detached (now0 + lat) res).
Proof.
  intros Hlt (used & added & k & Hnet & Htr & Hsl & Hk & Hreq & _).
  exists ({| latency := lat; outcome := Timeout |} :: used),
         (Request url :: Sleep (retryDelay retryCount) :: added), (S k).
  change (sleeps (Request url :: Sleep (retryDelay retryCount) :: added))
    with (retryDelay retryCount :: sleeps added).
  change (requests (Request url :: Sleep (retryDelay retryCount) :: added))
    with (url :: requests added).
  cbn [fst snd detached network trace now timedOut existsb outcome isTimeout orb
       awaited errorsIn filter isNetworkError List.length seq map latency total
       fold_right].
  split; [cbn [app]; now rewrite <- Hnet|].
  split; [rewrite Htr, <- !app_assoc; reflexivity|].
  split; [rewrite Hsl; now rewrite Nat.add_1_r|].
  split; [lia|].
  split; [destruct Hreq as [E|[E En]];
          [left; lia|right; split; [lia|exact En]]|].
  split; [discriminate|].
  split; [discriminate|].
  intros _. split; [reflexivity|lia].
Qed.

Lemma fetchAccount_invalid (net : list NetStep) (retryCount : nat) (now0 : Z)
    (tr : list Event) (e : Exn) :
  fetchAccount retries net retryCount now0 tr
    (Throws e, {| now := now0; network := net; trace := tr |}).
Proof.
  exists [], [], 0. cbn. rewrite app_nil_r.
  split; [reflexivity|]. split; [reflexivity|]. split; [reflexivity|].
  split; [lia|]. split; [now left|]. split; [discriminate|].
  split; [|discriminate]. intros _. split; [lia|reflexivity].
Qed.

Lemma fetchAccount_unanswered (url : string) (retryCount : nat) (now0 : Z)
    (tr : list Event) :
  fetchAccount retries [] retryCount now0 tr
    (Hangs, {| now := now0; network := []; trace := tr ++ [Request url] |}).
Proof.
  exists [], [Request url], 0. cbn.
  split; [reflexivity|]. split; [reflexivity|]. split; [reflexivity|].
  split; [lia|]. split; [right; split; reflexivity|].
  split; [intros _; repeat split|].
  split; [|discriminate]. intros _. split; [lia|]. intros Hr. now elim Hr.
Qed.

Lemma fetchFrom_account (net : list NetStep) (url : string) (retryCount : nat)
    (now0 : Z) (tr : list Event) :
  fetchAccount retries net retryCount now0 tr
               (fetchFrom retries net url retryCount now0 tr).
Proof.
  revert url retryCount now0 tr.
  induction net as [|[lat o] net IH]; intros url retryCount now0 tr;
    cbn [fetchFrom].
  - destruct (parseURL url);
      [apply fetchAccount_unanswered|apply fetchAccount_invalid].
  - destruct (parseURL url); [|apply fetchAccount_invalid].
    cbn [outcome latency].
    destruct o as [statusCode statusMessage location body|error|].
    + destruct (if (300 <=? statusCode)%Z && (statusCode <? 400)%Z
                then redirectTarget location else None) as [target|].
      * apply fetchAccount_step with (url := url). apply IH.
      * destruct (negb (statusCode =? 200)%Z);
          apply fetchAccount_settled; discriminate.
    + destruct (retryCount <? retries) eqn:Hlt.
      * apply Nat.ltb_lt in Hlt.
        apply fetchAccount_retry with (url := url); [exact Hlt|]. apply IH.
      * apply fetchAccount_settled; discriminate.
    + destruct (retryCount <? retries) eqn:Hlt.
      * apply Nat.ltb_lt in Hlt.
        apply fetchAccount_detached with (url := url); [exact Hlt|]. apply IH.
      * apply fetchAccount_settled; [discriminate|reflexivity].
Qed.

(** X9: what one fetch can cost.  Whatever the network answers, a fetch
    only adds to the trace and takes outcomes from the front of the
    network; it makes one request per outcome it takes, and one more, left
    unanswered, only when no outcome is left, which is the one way it can
    fail to settle.  It sets a timer before a retry only: the delays are 1,
    2, ... seconds in this order, at most [maxRetries] minus the retries
    already made of them, however many redirects were followed in between.
    While no outcome it takes is a timeout, the clock advances by the
    latencies of the outcomes plus those delays.  Once an outcome is a
    timeout, the fetch has failed with "Request timeout" at the instant of
    the first one: the clock has advanced by the latencies up to that
    timeout and one delay per error before it, while the timers, requests
    and outcomes after it are those of the retry that nobody awaits. *)
Theorem fetch_retry_budget (net : list NetStep) (url : string) (retryCount : nat)
    (now0 : Z) (tr : list Event) :
  let res := fetchFrom retries net url retryCount now0 tr in
  exists used added k,
    net = used ++ network (snd res)
    /\ trace (snd res) = tr ++ added
    /\ sleeps added = map retryDelay (seq retryCount k)
    /\ k <= retries - retryCount
    /\ (List.length (requests added) = List.length used
        \/ (List.length (requests added) = List.length used + 1
            /\ network (snd res) = []))
    /\ (fst res = Hangs ->
        List.length (requests added) = List.length used + 1
        /\ network (snd res) = []
        /\ timedOut used = false)
    /\ (timedOut used = false ->
        now (snd res) = (now0 + total (map latency used) + total (sleeps added))%Z
        /\ (fst res <> Hangs -> List.length (requests added) = List.length used))
    /\ (timedOut used = true ->
        fst res = Throws requestTimeout
        /\ now (snd res)
           = (now0 + total (map latency (awaited used))
              + total (map retryDelay (seq retryCount (errorsIn (awaited used)))))%Z).
Proof. exact (fetchFrom_account net url retryCount now0 tr). Qed.
End FetchAccount.

(** A timeout with retries left, then an error, then a page: the fetch has
    failed after the 30 seconds of the timeout, and the two retries that
    follow have used up the network. *)
Example fetch_retry_budget_after_timeout :
  @fetchFrom (Demo.platform []) 3
    [ Demo.after 30000 Timeout; Demo.after 40 Demo.refused;
      Demo.after 90 (Response 200 "OK" None "<html></html>") ]
    Demo.homeUrl 0 0 []
  = (Throws (Error "Request timeout"),
     {| now := 30000;
        network := [];
        trace := [ Request Demo.homeUrl; Sleep 1000; Request Demo.homeUrl;
                   Sleep 2000; Request Demo.homeUrl ] |}).
Proof. reflexivity. Qed.

(** ** Fetcher: redirects *)

Section Redirects.
Context `{Platform}.
Variable retries : nat.

Lemma redirectTarget_Some (target : string) :
  target <> "" -> redirectTarget (Some target) = Some target.
Proof.
  intros Hne. unfold redirectTarget.
  destruct (String.eqb target "") eqn:E; [|reflexivity].
  apply String.eqb_eq in E. contradiction.
Qed.

(** X10: redirects are followed without a bound, and a Location that is
    no absolute URL fails the fetch.  After any number of 3xx responses,
    each with a Location that parses, the fetch requests the last target
    and resolves with the body a 200 brings, with the retry count it
    started with; and when the Location of a 3xx response does not parse as
    a URL on its own (a relative reference such as /login), the fetch fails
    with the TypeError of the URL parser, without a request for it. *)
Theorem fetch_follows_every_redirect (hops : list Hop) (url : string)
    (retryCount : nat) (now0 lat : Z) (tr : list Event)
    (statusMessage body : string) (location : option string)
    (net : list NetStep) :
  parseURL url <> None ->
  Forall (fun h => (300 <= hop_status h < 400)%Z
                   /\ hop_target h <> ""
                   /\ parseURL (hop_target h) <> None) hops ->
  fetchFrom retries
            (map stepOfHop hops
             ++ {| latency := lat;
                   outcome := Response 200 statusMessage location body |} :: net)
            url retryCount now0 tr
  = (Returns body,
     {| now := (now0 + total (map hop_latency hops) + lat)%Z;
        network := net;
        trace := tr ++ map Request (url :: map hop_target hops) |})
  /\ forall h,
       (300 <= hop_status h < 400)%Z ->
       hop_target h <> "" ->
       parseURL (hop_target h) = None ->
       fetchFrom retries (stepOfHop h :: net) url retryCount now0 tr
       = (Throws invalidURL,
          {| now := (now0 + hop_latency h)%Z; network := net;
             trace := tr ++ [Request url] |}).
Proof.
  intros Hurl Hhops. split.
  - revert url now0 tr Hurl.
    induction Hhops as [|h hops (Hr & Hne & Hp) _ IH]; intros url now0 tr Hurl.
    + destruct (parseURL url) as [parsed|] eqn:E; [|congruence].
      cbn [map app]. rewrite (fetchFrom_ok retries url parsed E).
      cbn [total fold_right map]. f_equal. f_equal. lia.
    + destruct (parseURL url) as [parsed|] eqn:E; [|congruence].
      cbn [map app]. unfold stepOfHop at 1.
      rewrite (fetchFrom_redirect retries url parsed E _ _ _ _ (hop_target h))
        by (auto using redirectTarget_Some).
      rewrite IH by exact Hp.
      cbn [total fold_right map]. fold (total (map hop_latency hops)).
      f_equal. f_equal; [lia|]. now rewrite <- app_assoc.
  - intros h Hr Hne Hp.
    destruct (parseURL url) as [parsed|] eqn:E; [|congruence].
    unfold stepOfHop.
    rewrite (fetchFrom_redirect retries url parsed E _ _ _ _ (hop_target h))
      by (auto using redirectTarget_Some).
    destruct net; cbn [fetchFrom]; now rewrite Hp.
Qed.
End Redirects.

(** Two redirects, then the page. *)
Lemma fetch_follows_every_redirect_witness :
  @fetchFrom (Demo.platform []) 3
    [ Demo.after 20 (Response 301 "" (Some "https://x.gov/home") "");
      Demo.after 30 (Response 302 "" (Some "https://x.gov/welcome") "");
      Demo.after 40 (Response 200 "OK" None "<html></html>") ]
    Demo.homeUrl 0 0 []
  = (Returns "<html></html>",
     {| now := 90; network := [];
        trace := [ Request Demo.homeUrl; Request "https://x.gov/home";
                   Request "https://x.gov/welcome" ] |}).
Proof.
  refine (proj1 (@fetch_follows_every_redirect (Demo.platform []) 3
                   [ {| hop_latency := 20; hop_status := 301;
                        hop_target := "https://x.gov/home" |};
                     {| hop_latency := 30; hop_status := 302;
                        hop_target := "https://x.gov/welcome" |} ]
                   Demo.homeUrl 0 0%Z 40%Z [] "OK" "<html></html>" None [] _ _)).
  - vm_compute. discriminate.
  - repeat constructor; try lia; try discriminate; vm_compute; discriminate.
Defined.

(** ** Position store: the table stays keyed *)

Lemma NoDup_map_filter {A B : Type} (f : A -> B) (g : A -> bool) (l : list A) :
  NoDup (map f l) -> NoDup (map f (filter g l)).
Proof.
  induction l as [|x l IH]; cbn [map filter]; [auto|].
  intros Hnd. inversion Hnd as [|? ? Hnotin Hnd']; subst.
  destruct (g x); cbn [map]; [|auto].
  constructor; [|auto].
  intros Hin. apply Hnotin. apply in_map_iff in Hin as (y & Hy & Hin).
  apply filter_In in Hin as [Hin _]. apply in_map_iff. eauto.
Qed.

Lemma samePair_pairOf (politicianId : string) (topicId : Z) (r : PositionRow) :
  samePair politicianId topicId r = true <-> pairOf r = (politicianId, topicId).
Proof.
  unfold samePair, pairOf. rewrite andb_true_iff, String.eqb_eq, Z.eqb_eq.
  split; [intros [-> ->]; reflexivity|intros [= -> ->]; auto].
Qed.

Lemma written_keyed (d : Database) (timestamp : Z) (politicianId : string)
    (p : Position) :
  positionsKeyed d ->
  positionsKeyed
    (setPositions d
       (filter (fun r => negb (samePair politicianId (pn_topic_id p) r))
               (politician_positions d)
        ++ [rowOfPosition (last_position_id d + 1) timestamp politicianId p])
       (last_position_id d + 1)).
Proof.
  intros (Hpairs & Hids & Hle).
  unfold positionsKeyed.
  cbn [politician_positions last_position_id setPositions].
  set (kept := filter (fun r => negb (samePair politicianId (pn_topic_id p) r))
                      (politician_positions d)).
  assert (Hkept : forall r, In r kept ->
             In r (politician_positions d)
             /\ samePair politicianId (pn_topic_id p) r = false).
  { intros r Hr. apply filter_In in Hr as [Hr Hs].
    now apply negb_true_iff in Hs. }
  rewrite Forall_forall in Hle.
  split; [|split].
  - rewrite map_app. apply NoDup_app.
    + now apply NoDup_map_filter.
    + cbn. constructor; [intros []|constructor].
    + intros x Hx [<-|[]]. apply in_map_iff in Hx as (r & Hr & Hin).
      destruct (Hkept r Hin) as [_ Hs].
      assert (samePair politicianId (pn_topic_id p) r = true)
        by (apply samePair_pairOf; exact Hr).
      congruence.
  - rewrite map_app. apply NoDup_app.
    + now apply NoDup_map_filter.
    + cbn. constructor; [intros []|constructor].
    + intros x Hx [<-|[]]. apply in_map_iff in Hx as (r & Hr & Hin).
      destruct (Hkept r Hin) as [Hin' _]. specialize (Hle r Hin').
      cbn [pos_id rowOfPosition] in Hr. lia.
  - apply Forall_forall. intros r Hr. apply in_app_or in Hr as [Hr|[<-|[]]].
    + destruct (Hkept r Hr) as [Hin' _]. specialize (Hle r Hin'). lia.
    + cbn [pos_id rowOfPosition]. lia.
Qed.

Lemma afterSave_keyed (c : Crawler) (call : SaveCall) :
  positionsKeyed (db c) -> positionsKeyed (db (afterSave c call)).
Proof.
  intros Hk. unfold afterSave.
  destruct (savePosition_cases (for_politician call) (with_position call) c
              (in_world call)) as [(_ & _ & ->)|(_ & ->)]; cbn [fst snd db setDb].
  - now apply written_keyed.
  - exact Hk.
Qed.

(** X11: the positions table stays keyed, and a replaced row is a new
    row.  On a crawler whose table has one row per (politician, topic) pair,
    one row per key and no key above the last one handed out, every sequence
    of [savePosition] calls leaves such a table, whether the calls return or
    throw.  One call returns exactly when the politician and the topic it
    names are stored; it then leaves the world as it was and the rows of the
    other pairs as they were, in their order, the table has at most one row
    more, and the row of the pair is the last row, under a key greater than
    every key in the table before, with both time stamps at the time of the
    call: when the pair had a row, its key and the time it was created are
    gone.  Otherwise the call throws and the state is as it was. *)
Theorem savePosition_keeps_the_table_keyed (c : Crawler) (calls : list SaveCall)
    (w : World) (politicianId : string) (p : Position) :
  positionsKeyed (db c) ->
  positionsKeyed (db (fold_left afterSave calls c))
  /\ match savePosition politicianId p (c, w) with
     | (Returns _, s') =>
         let row := rowOfPosition (last_position_id (db c) + 1)
                                  (currentTimestamp w) politicianId p in
         hasPolitician (db c) politicianId = true
         /\ hasTopic (db c) (pn_topic_id p) = true
         /\ snd s' = w
         /\ politician_positions (db (fst s'))
            = filter (fun r => negb (samePair politicianId (pn_topic_id p) r))
                     (politician_positions (db c)) ++ [row]
         /\ last_position_id (db (fst s')) = pos_id row
         /\ List.length (politician_positions (db (fst s')))
            <= S (List.length (politician_positions (db c)))
         /\ pos_created_at row = currentTimestamp w
         /\ pos_last_updated row = currentTimestamp w
         /\ (forall r, In r (politician_positions (db c)) ->
                       (pos_id r < pos_id row)%Z)
         /\ positionsKeyed (db (fst s'))
     | (Throws e, s') =>
         e = foreignKeyFailed
         /\ s' = (c, w)
         /\ (hasPolitician (db c) politicianId = false
             \/ hasTopic (db c) (pn_topic_id p) = false)
     | (Hangs, _) => False
     end.
Proof.
  intros Hk. split.
  - revert c Hk. induction calls as [|call calls IH]; intros c Hk;
      cbn [fold_left]; [exact Hk|].
    apply IH. now apply afterSave_keyed.
  - destruct (savePosition_cases politicianId p c w)
      as [(Hp & Ht & ->)|(Hno & ->)]; [|auto].
    cbv zeta. cbn [fst snd db setDb politician_positions last_position_id
                   setPositions].
    split; [exact Hp|]. split; [exact Ht|]. split; [reflexivity|].
    split; [reflexivity|]. split; [reflexivity|].
    split; [|split; [reflexivity|split; [reflexivity|split]]].
    + rewrite length_app. cbn [List.length].
      pose proof (filter_length_le
                    (fun r => negb (samePair politicianId (pn_topic_id p) r))
                    (politician_positions (db c))).
      lia.
    + intros r Hr. destruct Hk as (_ & _ & Hle). rewrite Forall_forall in Hle.
      specialize (Hle r Hr). cbn [pos_id rowOfPosition]. lia.
    + now apply written_keyed.
Qed.

(** Two calls for one pair on the empty table of the scenario, and one for
    a politician that is not stored. *)
Lemma savePosition_keeps_the_table_keyed_witness :
  positionsKeyed (db (constructor Demo.directory))
  /\ positionsKeyed
       (db (fold_left afterSave
              [ {| in_world := Demo.homeLoads; for_politician := "A000001";
                   with_position := Demo.confident |};
                {| in_world := Demo.brokenPolicyPage; for_politician := "A000001";
                   with_position := Demo.doubtful |} ]
              (constructor Demo.directory)))
  /\ savePosition "Z999999" Demo.confident
                  (constructor Demo.directory, Demo.homeLoads)
     = (Throws foreignKeyFailed, (constructor Demo.directory, Demo.homeLoads)).
Proof.
  assert (Hk : positionsKeyed (db (constructor Demo.directory)))
    by (repeat split; vm_compute; constructor).
  split; [exact Hk|].
  split.
  - pose proof (savePosition_keeps_the_table_keyed (constructor Demo.directory)
                  [ {| in_world := Demo.homeLoads; for_politician := "A000001";
                       with_position := Demo.confident |};
                    {| in_world := Demo.brokenPolicyPage;
                       for_politician := "A000001";
                       with_position := Demo.doubtful |} ]
                  Demo.homeLoads "" Demo.confident Hk) as [Hcalls _].
    exact Hcalls.
  - vm_compute. reflexivity.
Defined.

(** ** From the outcome of an attempt to the next batch *)

Lemma asciiLower_app (a b : string) :
  asciiLower (a ++ b) = (asciiLower a ++ asciiLower b)%string.
Proof.
  induction a as [|c a IH]; cbn; [reflexivity|now rewrite IH].
Qed.

Lemma httpError_403_matches (statusMessage : string) :
  likeContains (Some (message (httpError 403 statusMessage))) "403" = true.
Proof.
  unfold likeContains, httpError. cbn [message].
  change (showZ 403) with "403".
  rewrite !asciiLower_app. apply includes_spec.
  exists (asciiLower "HTTP "), (asciiLower ": " ++ asciiLower statusMessage)%string.
  reflexivity.
Qed.

Lemma selected_eligible (d : Database) (nowSeconds : Z) (p : Politician) :
  In p (selectPoliticiansWithWebsites d nowSeconds) ->
  eligible d nowSeconds p = true.
Proof.
  unfold selectPoliticiansWithWebsites. intros Hin.
  apply (Permutation_in _ (sort_Permutation byName _)) in Hin.
  now apply filter_In in Hin as [_ He].
Qed.

Lemma eligible_after_quiet_row (d d' : Database) (row : CrawlLogRow)
    (nowSeconds : Z) (p : Politician) :
  crawl_log d' = crawl_log d ++ [row] ->
  recentSuccess nowSeconds row = false ->
  recentHostNotFound nowSeconds row = false ->
  recentForbidden nowSeconds row = false ->
  eligible d' nowSeconds p = eligible d nowSeconds p.
Proof.
  intros Hlog H1 H2 H3. unfold eligible, inSubquery.
  rewrite Hlog, !existsb_app. cbn [existsb]. rewrite H1, H2, H3.
  cbn [andb orb]. now rewrite !orb_false_r.
Qed.

Section NextBatch.
Context `{Platform}.

(** When the fetch of the home page throws, so does the block, before it
    has counted a position. *)
Lemma crawlWebsite_fetch_throws (politician : Politician) (website : string)
    (s : State) (e : Exn) (w : World) :
  p_website politician = Some website ->
  fetchFrom (maxRetries (fst s)) (network (snd s)) website 0 (now (snd s))
            (trace (snd s))
  = (Throws e, w) ->
  crawlWebsite politician s = (Throws e, (fst s, w))
  /\ countedBy politician s = 0.
Proof.
  intros Hw Hfetch. apply collectPositions_throws.
  unfold collectPositions. rewrite Hw.
  unfold bindM, fetchWebsiteContent. now rewrite Hfetch.
Qed.

(** X12: how the outcome of an attempt reaches the next batch.  When the
    home page of a politician answers with a 403, the attempt is logged as
    an error whose message carries the status, and the politician is left
    out of every batch drawn less than 7 days after the attempt.  When the
    request for the home page times out, the attempt is logged as an error
    as well, but the row matches none of the three conditions of the batch
    query: the eligibility of every politician, this one included, is what
    it was before the attempt, at every later time. *)
Theorem attempt_outcome_reaches_next_batch (politician : Politician)
    (website : string) (parsed : URL) (s : State) (lat : Z)
    (net : list NetStep) :
  p_website politician = Some website ->
  parseURL website = Some parsed ->
  (forall statusMessage location body,
      network (snd s)
      = {| latency := lat;
           outcome := Response 403 statusMessage location body |} :: net ->
      exists s',
        extractPositionsFromWebsite politician s = (Returns tt, s')
        /\ crawl_log (db (fst s'))
           = crawl_log (db (fst s))
             ++ [ {| log_politician_id := p_id politician;
                     log_website_url := website;
                     log_crawl_status := "error";
                     log_positions_found := 0;
                     log_error_message :=
                       Some ("HTTP 403: " ++ statusMessage)%string;
                     log_crawl_duration_ms := lat;
                     log_crawled_at := ((now (snd s) + lat) / 1000)%Z |} ]
        /\ forall nowSeconds,
             (nowSeconds - (now (snd s) + lat) / 1000 < 7 * secondsPerDay)%Z ->
             ~ In politician
                  (selectPoliticiansWithWebsites (db (fst s')) nowSeconds))
  /\ (network (snd s) = {| latency := lat; outcome := Timeout |} :: net ->
      exists s',
        extractPositionsFromWebsite politician s = (Returns tt, s')
        /\ crawl_log (db (fst s'))
           = crawl_log (db (fst s))
             ++ [ {| log_politician_id := p_id politician;
                     log_website_url := website;
                     log_crawl_status := "error";
                     log_positions_found := 0;
                     log_error_message := Some "Request timeout";
                     log_crawl_duration_ms := lat;
                     log_crawled_at := ((now (snd s) + lat) / 1000)%Z |} ]
        /\ forall nowSeconds q,
             eligible (db (fst s')) nowSeconds q
             = eligible (db (fst s)) nowSeconds q).
Proof.
  intros Hw Hp. split.
  - intros statusMessage location body Hnet.
    pose proof (extractPositionsFromWebsite_outcome politician website s Hw) as Hout.
    destruct (crawlWebsite_fetch_throws politician website s
                (httpError 403 statusMessage)
                {| now := (now (snd s) + lat)%Z; network := net;
                   trace := trace (snd s) ++ [Request website] |} Hw)
      as [E E0].
    { rewrite Hnet. apply (fetchFrom_status (maxRetries (fst s)) website parsed Hp);
        [discriminate|left; lia]. }
    rewrite E, E0 in Hout.
    destruct Hout as (s' & Hs' & Hlog & _). exists s'.
    split; [exact Hs'|].
    assert (Hrow : crawl_log (db (fst s'))
                   = crawl_log (db (fst s))
                     ++ [ {| log_politician_id := p_id politician;
                             log_website_url := website;
                             log_crawl_status := "error";
                             log_positions_found := 0;
                             log_error_message :=
                               Some (message (httpError 403 statusMessage));
                             log_crawl_duration_ms := lat;
                             log_crawled_at := ((now (snd s) + lat) / 1000)%Z |} ]).
    { rewrite Hlog. unfold attemptRow, currentTimestamp.
      cbn [now snd latency Z.of_nat].
      replace (now (snd s) + lat - now (snd s))%Z with lat by lia.
      reflexivity. }
    split; [exact Hrow|].
    intros nowSeconds Ht Hin. apply selected_eligible in Hin.
    apply eligible_spec in Hin as [_ Hno]. apply Hno.
    eexists. split; [rewrite Hrow; apply in_or_app; right; left; reflexivity|].
    split; [reflexivity|]. right; right.
    cbn [log_crawl_status log_error_message log_crawled_at].
    split; [reflexivity|]. split; [apply httpError_403_matches|exact Ht].
  - intros Hnet.
    pose proof (extractPositionsFromWebsite_outcome politician website s Hw) as Hout.
    destruct (fetchFrom_timeout (maxRetries (fst s)) website parsed Hp lat net 0
                (now (snd s)) (trace (snd s))) as (w & Efetch & Hnow).
    destruct (crawlWebsite_fetch_throws politician website s requestTimeout w Hw)
      as [E E0]; [now rewrite Hnet|].
    rewrite E, E0 in Hout.
    destruct Hout as (s' & Hs' & Hlog & _). exists s'.
    split; [exact Hs'|].
    assert (Hrow : crawl_log (db (fst s'))
                   = crawl_log (db (fst s))
                     ++ [ {| log_politician_id := p_id politician;
                             log_website_url := website;
                             log_crawl_status := "error";
                             log_positions_found := 0;
                             log_error_message := Some "Request timeout";
                             log_crawl_duration_ms := lat;
                             log_crawled_at := ((now (snd s) + lat) / 1000)%Z |} ]).
    { rewrite Hlog. unfold attemptRow, currentTimestamp.
      cbn [snd Z.of_nat]. rewrite Hnow.
      replace (now (snd s) + lat - now (snd s))%Z with lat by lia.
      reflexivity. }
    split; [exact Hrow|].
    intros nowSeconds q. apply (eligible_after_quiet_row _ _ _ _ _ Hrow);
      reflexivity.
Qed.
End NextBatch.

(** The 403 of the scenario: one hour later the batch is empty. *)
Lemma attempt_outcome_reaches_next_batch_witness :
  exists s',
    @extractPositionsFromWebsite (Demo.platform Demo.documents) Demo.ann
      (constructor Demo.directory, Demo.forbidden)
    = (Returns tt, s')
    /\ ~ In Demo.ann
           (selectPoliticiansWithWebsites (db (fst s')) (1700000000 + 3600)).
Proof.
  destruct (@attempt_outcome_reaches_next_batch (Demo.platform Demo.documents)
              Demo.ann Demo.homeUrl
              {| protocol := "https:"; hostname := "x.gov"; pathname := "/index" |}
              (constructor Demo.directory, Demo.forbidden) 60%Z []
              eq_refl eq_refl) as (Hforbidden & _).
  destruct (Hforbidden "Forbidden" None "" eq_refl) as (s' & Hs' & _ & Hout).
  exists s'. split; [exact Hs'|]. apply Hout. vm_compute. reflexivity.
Defined.

(** ** The batch a run processes *)


Section Batch.
Context `{Platform}.


End Batch.

(** ** One politician on request *)

Lemma framed_inWorld {A : Type} (f : World -> completion A * World) :
  framed (inWorld f).
Proof.
  intros s. unfold inWorld. destruct (f (snd s)). apply outsidePositions_refl.
Qed.

#[export] Hint Resolve framed_inWorld : frame.

Lemma mostRecentLog_appended (d d' : Database) (row : CrawlLogRow)
    (politicianId : string) :
  crawl_log d' = crawl_log d ++ [row] ->
  log_politician_id row = politicianId ->
  (forall cl, In cl (crawl_log d) -> log_politician_id cl = politicianId ->
              (log_crawled_at cl < log_crawled_at row)%Z) ->
  mostRecentLog d' politicianId = Some row.
Proof.
  intros Hlog Hid Hold. unfold mostRecentLog.
  rewrite Hlog, filter_app, fold_left_app. cbn [filter].
  assert (String.eqb (log_politician_id row) politicianId = true) as ->
    by now apply String.eqb_eq.
  cbn [fold_left].
  pose proof (mostRecentLog_spec d politicianId) as Hspec.
  unfold mostRecentLog in Hspec.
  destruct (fold_left laterOf _ None) as [best|]; [|reflexivity].
  destruct Hspec as (Hin & Hbest & _). cbn [laterOf].
  specialize (Hold best Hin Hbest).
  destruct (Z.ltb_spec (log_crawled_at best) (log_crawled_at row));
    [reflexivity|lia].
Qed.

Lemma statusOf_cases (errorMessage : option string) :
  statusOf errorMessage = "success" \/ statusOf errorMessage = "error".
Proof.
  unfold statusOf. destruct errorMessage as [m|]; [|auto].
  destruct (String.eqb m ""); auto.
Qed.

(** The status is an error exactly for a message that is not empty. *)
Lemma statusOf_spec (errorMessage : option string) :
  (statusOf errorMessage = "error"
   <-> exists m, errorMessage = Some m /\ m <> "")
  /\ (statusOf errorMessage = "success"
      <-> errorMessage = None \/ errorMessage = Some "").
Proof.
  unfold statusOf. destruct errorMessage as [m|].
  - destruct (String.eqb_spec m "") as [->|Hne]; split; split.
    + discriminate.
    + intros (m & [= <-] & Hm). now elim Hm.
    + auto.
    + reflexivity.
    + intros _. now exists m.
    + reflexivity.
    + discriminate.
    + intros [E|[= E]]; [discriminate|now elim Hne].
  - split; split; try discriminate; auto.
    intros (m & E & _). discriminate.
Qed.

(** A row of an attempt keeps a politician out for a day at least, the day
    being counted from the stamp as the date parser reads it. *)
Lemma shouldSkipPolitician_fresh `{Platform} (d : Database) (row : CrawlLogRow)
    (politicianId : string) (nowMs : Z) :
  mostRecentLog d politicianId = Some row ->
  log_crawl_status row = "success" \/ log_crawl_status row = "error" ->
  (nowMs - dateOfStamp (log_crawled_at row) < msPerDay)%Z ->
  shouldSkipPolitician d nowMs politicianId = true.
Proof.
  intros Hrow Hstatus Hfresh. unfold shouldSkipPolitician. rewrite Hrow.
  assert (Hdays : forall days, (1 <= days)%Z ->
                    daysSinceLessThan nowMs row days = true).
  { intros days Hd. apply daysSinceLessThan_spec.
    assert (0 < msPerDay)%Z by reflexivity. nia. }
  destruct Hstatus as [-> | ->]; cbn [String.eqb Ascii.eqb Bool.eqb andb].
  - apply Hdays. lia.
  - destruct (mentions row "ENOTFOUND"); [apply Hdays; lia|].
    destruct (mentions row "403"); apply Hdays; lia.
Qed.

Section Single.
Context `{Platform} `{NodeFetch}.

Lemma framed_crawlSinglePolicyPage (positions : list Position)
    (policyPage : PolicyPage) :
  framed (crawlSinglePolicyPage positions policyPage).
Proof.
  unfold crawlSinglePolicyPage. apply framed_bindM.
  - apply framed_tryCatch; [|auto with frame].
    apply framed_bindM; [apply framed_inWorld|]. intros response.
    destruct (response_ok response); [|auto with frame].
    apply framed_bindM; [apply framed_inWorld|]. intros html.
    apply framed_bindM; auto with frame.
  - intros positions'. apply framed_bindM; auto with frame.
Qed.

Lemma framed_crawlSingleWebsite (politician : Politician) (website : string) :
  framed (crawlSingleWebsite politician website).
Proof.
  unfold crawlSingleWebsite. apply framed_tryCatch; [|auto with frame].
  apply framed_bindM; [apply framed_inWorld|]. intros response.
  destruct (negb (response_ok response)); [auto with frame|].
  apply framed_bindM; [apply framed_inWorld|]. intros html.
  apply framed_bindM; [auto with frame|]. intros positions.
  apply framed_tryCatch; [|auto with frame].
  apply framed_bindM; [auto with frame|]. intros policyPages.
  apply framed_bindM.
  - apply framed_forEachM. intros; apply framed_crawlSinglePolicyPage.
  - intros positions'. apply framed_tryCatch; [|auto with frame].
    apply framed_bindM; auto with frame.
Qed.

Lemma crawlSingleWebsite_never_throws (politician : Politician) (website : string)
    (s : State) (e : Exn) :
  fst (crawlSingleWebsite politician website s) <> Throws e.
Proof.
  unfold crawlSingleWebsite, tryCatch at 1.
  match goal with
  | |- context [match ?m with _ => _ end] => destruct m as [[a|e'|] s1]
  end; cbn; discriminate.
Qed.

(** Nothing is attempted: the politician has no website, or a recent
    attempt keeps the politician out. *)
Lemma crawlSinglePolitician_rests (politicianId : string) (politician : Politician)
    (s : State) :
  getPolitician (db (fst s)) politicianId = Some politician ->
  hasWebsite politician = false
  \/ shouldSkipPolitician (db (fst s)) (now (snd s)) (p_id politician) = true ->
  crawlSinglePolitician politicianId s = (Returns tt, s).
Proof.
  intros Hp Hrest. unfold crawlSinglePolitician, bindM, dateNow, getCrawler.
  cbn [fst snd]. rewrite Hp. unfold hasWebsite in Hrest.
  destruct (p_website politician) as [website|]; [|reflexivity].
  destruct (String.eqb website ""); [reflexivity|].
  destruct Hrest as [Hrest|Hrest]; [discriminate|]. now rewrite Hrest.
Qed.

(** An attempt is made, and logged. *)
Lemma crawlSinglePolitician_attempt (politicianId : string)
    (politician : Politician) (website : string) (s : State) :
  getPolitician (db (fst s)) politicianId = Some politician ->
  p_website politician = Some website ->
  website <> "" ->
  shouldSkipPolitician (db (fst s)) (now (snd s)) (p_id politician) = false ->
  match crawlSingleWebsite politician website s with
  | (Returns found, s1) =>
      exists s',
        crawlSinglePolitician politicianId s = (Returns tt, s')
        /\ snd s' = snd s1
        /\ crawl_log (db (fst s'))
           = crawl_log (db (fst s))
             ++ [ {| log_politician_id := p_id politician;
                     log_website_url := website;
                     log_crawl_status := statusOf (snd found);
                     log_positions_found := Z.of_nat (List.length (fst found));
                     log_error_message := snd found;
                     log_crawl_duration_ms := (now (snd s1) - now (snd s))%Z;
                     log_crawled_at := currentTimestamp (snd s1) |} ]
        /\ politicians (db (fst s')) = politicians (db (fst s))
        /\ processedCount (fst s') = processedCount (fst s)
        /\ errorsCount (fst s') = errorsCount (fst s)
  | (Throws _, _) => False
  | (Hangs, s1) => crawlSinglePolitician politicianId s = (Hangs, s1)
  end.
Proof.
  intros Hp Hw Hne Hskip.
  pose proof (framed_crawlSingleWebsite politician website s) as Hf.
  pose proof (crawlSingleWebsite_never_throws politician website s) as Hnt.
  unfold crawlSinglePolitician, bindM, dateNow, getCrawler.
  cbn [fst snd]. rewrite Hp, Hw.
  apply String.eqb_neq in Hne. rewrite Hne, Hskip.
  destruct (crawlSingleWebsite politician website s) as [[found|e|] [c1 w1]];
    cbn [fst snd] in *.
  - eexists. split; [reflexivity|].
    destruct Hf as (Hlog & Hpol & _ & _ & _ & _ & Hpc & Hec & _).
    cbn. rewrite Hlog, Hpol, Hpc, Hec. auto.
  - now elim (Hnt e).
  - reflexivity.
Qed.

Lemma crawlSinglePolitician_unknown (politicianId : string) (s : State) :
  getPolitician (db (fst s)) politicianId = None ->
  crawlSinglePolitician politicianId s
  = (Throws (politicianNotFound politicianId), s).
Proof.
  intros Hp. unfold crawlSinglePolitician, bindM, dateNow, getCrawler.
  cbn [fst snd]. now rewrite Hp.
Qed.

(** The two ways the request for the home page fails the inner block
    before a position is found. *)
Lemma crawlSingleWebsite_fetch_throws (politician : Politician)
    (website : string) (s : State) (e : Exn) (w1 : World) :
  nodeFetch website (snd s) = (Throws e, w1) ->
  crawlSingleWebsite politician website s
  = (Returns ([], Some (message e)), (fst s, w1)).
Proof.
  intros E. unfold crawlSingleWebsite, tryCatch, bindM, fetch, inWorld.
  now rewrite E.
Qed.

Lemma crawlSingleWebsite_not_ok (politician : Politician) (website : string)
    (s : State) (response : FetchResponse) (w1 : World) :
  nodeFetch website (snd s) = (Returns response, w1) ->
  response_ok response = false ->
  crawlSingleWebsite politician website s
  = (Returns ([], Some ("HTTP " ++ showZ (response_status response) ++ ": "
                        ++ response_statusText response)%string),
     (fst s, w1)).
Proof.
  intros E Hok. unfold crawlSingleWebsite, tryCatch, bindM, fetch, inWorld.
  rewrite E, Hok. reflexivity.
Qed.

Lemma getPolitician_id (d : Database) (politicianId : string)
    (politician : Politician) :
  getPolitician d politicianId = Some politician -> p_id politician = politicianId.
Proof.
  unfold getPolitician. intros Hp. apply find_some in Hp as [_ Hp].
  now apply String.eqb_eq in Hp.
Qed.

(** X14: a single crawl either rests or logs one row.  For a politician
    that is not in the table the call throws; for one without a website, or
    one that [shouldSkipPolitician] keeps out, it returns without a request,
    a row or any other change.  Otherwise it never throws, and when it
    returns it has appended exactly one row, with the message the inner
    block caught, if any, and the number of positions collected up to the
    exception: the status of the row is "error" exactly when that message
    exists and is not empty, and "success" exactly when there is none or it
    is empty.  A request for the home page that fails gives the message of
    its error and no position, and a response that is not ok gives the
    message HTTP, status, colon, status text and no position.  The
    politicians and the two counters of the crawler are unchanged. *)
Theorem crawlSinglePolitician_rests_or_logs (politicianId : string) (s : State) :
  (getPolitician (db (fst s)) politicianId = None ->
   crawlSinglePolitician politicianId s
   = (Throws (politicianNotFound politicianId), s))
  /\ forall politician,
       getPolitician (db (fst s)) politicianId = Some politician ->
       p_id politician = politicianId
       /\ (hasWebsite politician = false
           \/ shouldSkipPolitician (db (fst s)) (now (snd s)) politicianId = true ->
           crawlSinglePolitician politicianId s = (Returns tt, s))
       /\ forall website,
            p_website politician = Some website ->
            website <> "" ->
            shouldSkipPolitician (db (fst s)) (now (snd s)) politicianId = false ->
            match crawlSingleWebsite politician website s with
            | (Returns found, s1) =>
                exists s' status,
                  crawlSinglePolitician politicianId s = (Returns tt, s')
                  /\ snd s' = snd s1
                  /\ crawl_log (db (fst s'))
                     = crawl_log (db (fst s))
                       ++ [ {| log_politician_id := politicianId;
                               log_website_url := website;
                               log_crawl_status := status;
                               log_positions_found :=
                                 Z.of_nat (List.length (fst found));
                               log_error_message := snd found;
                               log_crawl_duration_ms :=
                                 (now (snd s1) - now (snd s))%Z;
                               log_crawled_at := currentTimestamp (snd s1) |} ]
                  /\ (status = "error"
                      <-> exists m, snd found = Some m /\ m <> "")
                  /\ (status = "success"
                      <-> snd found = None \/ snd found = Some "")
                  /\ politicians (db (fst s')) = politicians (db (fst s))
                  /\ processedCount (fst s') = processedCount (fst s)
                  /\ errorsCount (fst s') = errorsCount (fst s)
            | (Throws _, _) => False
            | (Hangs, s1) => crawlSinglePolitician politicianId s = (Hangs, s1)
            end
            /\ (forall e w1,
                  nodeFetch website (snd s) = (Throws e, w1) ->
                  crawlSingleWebsite politician website s
                  = (Returns ([], Some (message e)), (fst s, w1)))
            /\ (forall response w1,
                  nodeFetch website (snd s) = (Returns response, w1) ->
                  response_ok response = false ->
                  crawlSingleWebsite politician website s
                  = (Returns ([], Some ("HTTP " ++ showZ (response_status response)
                                        ++ ": " ++ response_statusText response)%string),
                     (fst s, w1))).
Proof.
  split; [apply crawlSinglePolitician_unknown|].
  - intros politician Hp.
    pose proof (getPolitician_id _ _ _ Hp) as Hid.
    split; [exact Hid|]. split.
    + intros Hrest. apply (crawlSinglePolitician_rests _ politician); [exact Hp|].
      now rewrite Hid.
    + intros website Hw Hne Hskip.
      split; [|split; [apply crawlSingleWebsite_fetch_throws
                      |apply crawlSingleWebsite_not_ok]].
      pose proof (crawlSinglePolitician_attempt politicianId politician website s
                    Hp Hw Hne) as Hatt.
      rewrite Hid in Hatt. specialize (Hatt Hskip).
      destruct (crawlSingleWebsite politician website s) as [[found|e|] s1];
        [|exact Hatt..].
      destruct Hatt as (s' & H1 & H2 & H3 & H4).
      exists s', (statusOf (snd found)).
      split; [exact H1|]. split; [exact H2|]. split; [exact H3|].
      split; [apply statusOf_spec|]. split; [apply statusOf_spec|exact H4].
Qed.

(** X15: a second single crawl right after an attempt rests.  When a
    single crawl has logged an attempt, and the earlier rows of the
    politician are older than that row, a further single crawl of the same
    politician makes no request and writes no row, whatever the outcome of
    the attempt was, as long as the clock is less than a day past the instant
    the date parser of the process reads off the stamp of the row.  In a
    process whose zone is UTC that is a day after the attempt; east of UTC
    the parser reads an earlier instant and the rest is shorter by the
    offset of the zone, west of UTC it is longer. *)
Theorem second_single_crawl_rests (politicianId : string) (s s' : State)
    (w : World) :
  crawlSinglePolitician politicianId s = (Returns tt, s') ->
  crawl_log (db (fst s')) <> crawl_log (db (fst s)) ->
  (forall cl, In cl (crawl_log (db (fst s))) ->
              log_politician_id cl = politicianId ->
              (log_crawled_at cl < currentTimestamp (snd s'))%Z) ->
  (now w - dateOfStamp (currentTimestamp (snd s')) < msPerDay)%Z ->
  crawlSinglePolitician politicianId (fst s', w) = (Returns tt, (fst s', w)).
Proof.
  intros Hrun Hchanged Hold Hfresh.
  destruct (getPolitician (db (fst s)) politicianId) as [politician|] eqn:Hp.
  2:{ rewrite (crawlSinglePolitician_unknown _ _ Hp) in Hrun. discriminate. }
  pose proof (getPolitician_id _ _ _ Hp) as Hid.
  assert (Hrest : forall (P : Prop),
             (hasWebsite politician = false
              \/ shouldSkipPolitician (db (fst s)) (now (snd s)) (p_id politician)
                 = true) -> P).
  { intros P Hr. rewrite (crawlSinglePolitician_rests _ politician s Hp Hr) in Hrun.
    injection Hrun as <-. now elim Hchanged. }
  destruct (p_website politician) as [website|] eqn:Hw.
  2:{ apply Hrest. left. unfold hasWebsite. now rewrite Hw. }
  destruct (String.eqb_spec website "") as [->|Hne].
  { apply Hrest. left. unfold hasWebsite. now rewrite Hw. }
  destruct (shouldSkipPolitician (db (fst s)) (now (snd s)) (p_id politician))
    eqn:Hskip.
  { apply Hrest. now right. }
  pose proof (crawlSinglePolitician_attempt politicianId politician website s
                Hp Hw Hne Hskip) as Hatt.
  destruct (crawlSingleWebsite politician website s) as [[found|e|] s1];
    [|destruct Hatt|rewrite Hatt in Hrun; discriminate].
  destruct Hatt as (s2 & Hs2 & Hworld & Hlog & Hpol & _).
  assert (s2 = s') by congruence. subst s2.
  apply (crawlSinglePolitician_rests _ politician); cbn [fst snd].
  - unfold getPolitician in *. now rewrite Hpol.
  - right. rewrite <- Hworld in Hlog.
    eapply shouldSkipPolitician_fresh.
    + eapply mostRecentLog_appended; [exact Hlog|reflexivity|].
      cbn [log_crawled_at]. intros cl Hin Hcl. apply Hold; congruence.
    + cbn [log_crawl_status]. apply statusOf_cases.
    + exact Hfresh.
Qed.
End Single.

(** A home page that answers with a 500, then a second call one hour
    later on a network that would answer: it makes no request. *)
Lemma second_single_crawl_rests_witness :
  exists s',
    @crawlSinglePolitician (Demo.platform Demo.documents) DemoFetch.library
      "A000001"
      (constructor Demo.directory,
       {| now := 1700000000000;
          network := [ Demo.after 60 (Response 500 "Internal Server Error" None "") ];
          trace := [] |})
    = (Returns tt, s')
    /\ map log_error_message (crawl_log (db (fst s')))
       = [Some "HTTP 500: Internal Server Error"]
    /\ @crawlSinglePolitician (Demo.platform Demo.documents) DemoFetch.library
         "A000001"
         (fst s',
          {| now := 1700003600000;
             network := [ Demo.after 60 (Response 200 "OK" None "<html>home</html>") ];
             trace := [] |})
       = (Returns tt,
          (fst s',
           {| now := 1700003600000;
              network := [ Demo.after 60 (Response 200 "OK" None "<html>home</html>") ];
              trace := [] |})).
Proof.
  eexists. split; [vm_compute; reflexivity|]. split; [reflexivity|].
  eapply (@second_single_crawl_rests (Demo.platform Demo.documents)
            DemoFetch.library "A000001"
            (constructor Demo.directory,
             {| now := 1700000000000;
                network := [ Demo.after 60
                               (Response 500 "Internal Server Error" None "") ];
                trace := [] |})).
  - vm_compute. reflexivity.
  - vm_compute. discriminate.
  - intros cl Hin. vm_compute in Hin. destruct Hin.
  - vm_compute. reflexivity.
Defined.

(** The same politician in a process nine hours east of UTC: twenty hours
    after the failed attempt its row reads as twenty-nine hours old, and the
    second crawl makes its request and logs a second row. *)
Example second_single_crawl_east :
  exists s' s'',
    @crawlSinglePolitician (Demo.platformEast Demo.documents) DemoFetch.library
      "A000001"
      (constructor Demo.directory,
       {| now := 1700000000000;
          network := [ Demo.after 60 (Response 500 "Internal Server Error" None "") ];
          trace := [] |})
    = (Returns tt, s')
    /\ @crawlSinglePolitician (Demo.platformEast Demo.documents) DemoFetch.library
         "A000001"
         (fst s',
          {| now := 1700072000000;
             network := [ Demo.after 60 (Response 503 "Service Unavailable" None "") ];
             trace := [] |})
       = (Returns tt, s'')
    /\ trace (snd s'') = [ Request Demo.homeUrl ]
    /\ map log_error_message (crawl_log (db (fst s'')))
       = [ Some "HTTP 500: Internal Server Error";
           Some "HTTP 503: Service Unavailable" ].
Proof.
  eexists. eexists. split; [vm_compute; reflexivity|].
  split; [vm_compute; reflexivity|]. split; reflexivity.
Qed.

(** ** The crawler as it is built stores no position *)

Section Yields.
Variable I : State -> Prop.

Lemma yields_ret {A : Type} (P : A -> Prop) (a : A) : P a -> yields I P (ret a).
Proof.
  intros Ha s Hs. split; [exact Hs|]. cbn. now intros ? [= <-].
Qed.

Lemma yields_throw {A : Type} (P : A -> Prop) (e : Exn) : yields I P (@throw A e).
Proof.
  intros s Hs. split; [exact Hs|]. cbn. discriminate.
Qed.

Lemma yields_weaken {A : Type} (P Q : A -> Prop) (m : M A) :
  (forall a, P a -> Q a) -> yields I P m -> yields I Q m.
Proof.
  intros HPQ Hm s Hs. destruct (Hm s Hs) as [Hi Hp]. split; auto.
Qed.

Lemma yields_bindM {A B : Type} (P : A -> Prop) (Q : B -> Prop) (m : M A)
    (k : A -> M B) :
  yields I P m -> (forall a, P a -> yields I Q (k a)) -> yields I Q (bindM m k).
Proof.
  intros Hm Hk s Hs. destruct (Hm s Hs) as [Hi Hp]. unfold bindM.
  destruct (m s) as [[a|e|] s1]; cbn [fst snd] in *.
  - apply Hk; auto.
  - split; [exact Hi|discriminate].
  - split; [exact Hi|discriminate].
Qed.

Lemma yields_tryCatch {A : Type} (P : A -> Prop) (m : M A) (handler : Exn -> M A) :
  yields I P m -> (forall e, yields I P (handler e)) ->
  yields I P (tryCatch m handler).
Proof.
  intros Hm Hh s Hs. destruct (Hm s Hs) as [Hi Hp]. unfold tryCatch.
  destruct (m s) as [[a|e|] s1]; cbn [fst snd] in *.
  - split; auto.
  - apply Hh; auto.
  - split; [exact Hi|discriminate].
Qed.

Lemma yields_forEachM {A S : Type} (P : S -> Prop) (l : list A)
    (f : S -> A -> M S) (s0 : S) :
  (forall acc x, P acc -> yields I P (f acc x)) -> P s0 ->
  yields I P (forEachM l s0 f).
Proof.
  intros Hf. revert s0; induction l as [|x l IH]; intros s0 H0; cbn [forEachM].
  - now apply yields_ret.
  - apply yields_bindM with (P := P); auto.
Qed.

(** A call that leaves the crawler as it is. *)
Lemma yields_same_crawler {A : Type} (m : M A) :
  (forall s s', I s -> fst s' = fst s -> I s') ->
  (forall s, fst (snd (m s)) = fst s) ->
  yields I (fun _ => True) m.
Proof.
  intros Hcrawler Hm s Hs. split; [|auto].
  apply (Hcrawler s); [exact Hs|apply Hm].
Qed.
End Yields.

Lemma barren_crawler (rows : list PositionRow) (s s' : State) :
  barren rows s -> fst s' = fst s -> barren rows s'.
Proof. unfold barren. now intros H ->. Qed.

Lemma barren_extractPage (rows : list PositionRow) (page : Page)
    (sourceUrl : string) (hintTopic : option string) :
  yields (barren rows) (fun positions => positions = [])
         (extractPage page sourceUrl hintTopic).
Proof.
  intros s Hs. unfold extractPage, bindM, getCrawler. cbn [fst snd].
  destruct Hs as [Hct Hrows]. rewrite Hct.
  destruct (extractPolicyPositions None (db (fst s)) page sourceUrl hintTopic)
    as [positions|e] eqn:E; cbn [liftResult ret throw fst snd].
  - split; [now split|]. intros a [= <-].
    now apply extractPolicyPositions_never_emits in E.
  - split; [now split|discriminate].
Qed.

Lemma barren_sleep (rows : list PositionRow) (ms : Z) :
  yields (barren rows) (fun _ => True) (sleep ms).
Proof. apply yields_same_crawler; [apply barren_crawler|reflexivity]. Qed.

Lemma barren_dateNow (rows : list PositionRow) :
  yields (barren rows) (fun _ => True) dateNow.
Proof. apply yields_same_crawler; [apply barren_crawler|reflexivity]. Qed.

Lemma barren_inWorld {A : Type} (rows : list PositionRow)
    (f : World -> completion A * World) :
  yields (barren rows) (fun _ => True) (inWorld f).
Proof.
  apply yields_same_crawler; [apply barren_crawler|].
  intros s. unfold inWorld. now destruct (f (snd s)).
Qed.

Lemma barren_logCrawlAttempt (rows : list PositionRow) (politicianId : string)
    (websiteUrl : option string) (status : string) (positionsFound : Z)
    (errorMessage : option string) (duration : Z) :
  yields (barren rows) (fun _ => True)
         (logCrawlAttempt politicianId websiteUrl status positionsFound
                          errorMessage duration).
Proof.
  unfold logCrawlAttempt. destruct websiteUrl as [website|]; [|apply yields_throw].
  intros st [Hct Hrows]. split; [|auto]. split; assumption.
Qed.

Lemma barren_no_save (rows : list PositionRow) (politicianId : string)
    (positions : list Position) :
  positions = [] ->
  yields (barren rows) (fun _ => True) (savePositions politicianId positions).
Proof. intros ->. now apply yields_ret. Qed.

Section Barren.
Context `{Platform} `{NodeFetch}.
Variable rows : list PositionRow.

Lemma barren_fetchWebsiteContent (url : string) (retryCount : nat) :
  yields (barren rows) (fun _ => True) (fetchWebsiteContent url retryCount).
Proof.
  apply yields_same_crawler; [apply barren_crawler|].
  intros s. unfold fetchWebsiteContent. now destruct (fetchFrom _ _ _ _ _ _).
Qed.

Lemma barren_crawlPolicyPage (positions : list Position) (policyPage : PolicyPage) :
  positions = [] ->
  yields (barren rows) (fun positions => positions = [])
         (crawlPolicyPage positions policyPage).
Proof.
  intros ->. unfold crawlPolicyPage.
  apply yields_tryCatch; [|intros; now apply yields_ret].
  eapply yields_bindM; [apply barren_fetchWebsiteContent|]. intros content _.
  eapply yields_bindM with (P := fun positions => positions = []).
  - destruct (String.eqb content ""); [now apply yields_ret|].
    eapply yields_bindM; [apply barren_extractPage|].
    intros a ->. now apply yields_ret.
  - intros a ->. eapply yields_bindM; [apply barren_sleep|].
    intros _ _. now apply yields_ret.
Qed.

Lemma barren_collectPositions (politician : Politician) :
  yields (barren rows) (fun positions => positions = [])
         (collectPositions politician).
Proof.
  unfold collectPositions. destruct (p_website politician); [|apply yields_throw].
  eapply yields_bindM; [apply barren_fetchWebsiteContent|]. intros content _.
  destruct (String.eqb content ""); [apply yields_throw|].
  eapply yields_bindM; [apply barren_extractPage|]. intros positions ->.
  eapply yields_bindM with (P := fun _ => True).
  { destruct (discoverPolicyPages _ _); [now apply yields_ret|apply yields_throw]. }
  intros policyPages _.
  apply yields_forEachM; [|reflexivity]. intros; now apply barren_crawlPolicyPage.
Qed.

Lemma barren_crawlWebsite (politician : Politician) :
  yields (barren rows) (fun positionsFound => positionsFound = 0)
         (crawlWebsite politician).
Proof.
  unfold crawlWebsite.
  eapply yields_bindM; [apply barren_collectPositions|]. intros positions ->.
  eapply yields_bindM; [now apply barren_no_save|].
  intros _ _. now apply yields_ret.
Qed.

Lemma barren_extractPositionsFromWebsite (politician : Politician) :
  yields (barren rows) (fun _ => True) (extractPositionsFromWebsite politician).
Proof.
  unfold extractPositionsFromWebsite.
  eapply yields_bindM; [apply barren_dateNow|]. intros startTime _.
  eapply yields_bindM with (P := fun _ => True).
  { apply yields_tryCatch.
    - eapply yields_bindM; [apply barren_collectPositions|].
      intros positions ->. apply yields_tryCatch.
      + eapply yields_bindM; [now apply barren_no_save|].
        intros; now apply yields_ret.
      + intros e. eapply yields_bindM with (P := fun _ => True).
        * intros s [Hct Hrows]. split; [|auto]. split; assumption.
        * intros; now apply yields_ret.
    - intros e. eapply yields_bindM with (P := fun _ => True).
      + intros s [Hct Hrows]. split; [|auto]. split; assumption.
      + intros; now apply yields_ret. }
  intros verdict _.
  eapply yields_bindM; [apply barren_dateNow|]. intros endTime _.
  eapply yields_bindM; [apply barren_logCrawlAttempt|]. intros _ _.
  intros s [Hct Hrows]. split; [|auto]. split; assumption.
Qed.

Lemma barren_crawlAllPoliticians (limit : option Z) :
  yields (barren rows) (fun _ => True) (crawlAllPoliticians limit).
Proof.
  unfold crawlAllPoliticians.
  eapply yields_bindM with (P := fun _ => True).
  { apply yields_same_crawler; [apply barren_crawler|reflexivity]. }
  intros politicians _.
  apply yields_forEachM; [|exact I]. intros _ politician _.
  eapply yields_bindM; [apply barren_extractPositionsFromWebsite|]. intros _ _.
  unfold pauseBeforeNext.
  eapply yields_bindM with (P := fun _ => True).
  { apply yields_same_crawler; [apply barren_crawler|reflexivity]. }
  intros c _. destruct (_ <? _)%Z; [apply barren_sleep|now apply yields_ret].
Qed.

Lemma barren_crawlSinglePolicyPage (positions : list Position)
    (policyPage : PolicyPage) :
  positions = [] ->
  yields (barren rows) (fun positions => positions = [])
         (crawlSinglePolicyPage positions policyPage).
Proof.
  intros ->. unfold crawlSinglePolicyPage.
  eapply yields_bindM with (P := fun positions => positions = []).
  - apply yields_tryCatch; [|intros; now apply yields_ret].
    eapply yields_bindM; [apply barren_inWorld|]. intros response _.
    destruct (response_ok response); [|now apply yields_ret].
    eapply yields_bindM; [apply barren_inWorld|]. intros html _.
    eapply yields_bindM; [apply barren_extractPage|].
    intros a ->. now apply yields_ret.
  - intros a ->. eapply yields_bindM; [apply barren_sleep|].
    intros _ _. now apply yields_ret.
Qed.

Lemma barren_crawlSingleWebsite (politician : Politician) (website : string) :
  yields (barren rows) (fun found => fst found = [])
         (crawlSingleWebsite politician website).
Proof.
  unfold crawlSingleWebsite.
  apply yields_tryCatch; [|intros; now apply yields_ret].
  eapply yields_bindM; [apply barren_inWorld|]. intros response _.
  destruct (negb (response_ok response)); [apply yields_throw|].
  eapply yields_bindM; [apply barren_inWorld|]. intros html _.
  eapply yields_bindM; [apply barren_extractPage|]. intros positions ->.
  apply yields_tryCatch; [|intros; now apply yields_ret].
  eapply yields_bindM with (P := fun _ => True).
  { destruct (discoverPolicyPages _ _); [now apply yields_ret|apply yields_throw]. }
  intros policyPages _.
  eapply yields_bindM with (P := fun positions => positions = []).
  { apply yields_forEachM; [|reflexivity].
    intros; now apply barren_crawlSinglePolicyPage. }
  intros positions ->.
  apply yields_tryCatch; [|intros; now apply yields_ret].
  eapply yields_bindM; [now apply barren_no_save|].
  intros _ _. now apply yields_ret.
Qed.

Lemma barren_crawlSinglePolitician (politicianId : string) :
  yields (barren rows) (fun _ => True) (crawlSinglePolitician politicianId).
Proof.
  unfold crawlSinglePolitician.
  eapply yields_bindM; [apply barren_dateNow|]. intros startTime _.
  eapply yields_bindM with (P := fun _ => True).
  { apply yields_same_crawler; [apply barren_crawler|reflexivity]. }
  intros c _.
  destruct (getPolitician (db c) politicianId) as [politician|];
    [|apply yields_throw].
  destruct (p_website politician) as [website|]; [|now apply yields_ret].
  destruct (String.eqb website ""); [now apply yields_ret|].
  eapply yields_bindM; [apply barren_dateNow|]. intros nowMs _.
  destruct (shouldSkipPolitician _ _ _); [now apply yields_ret|].
  eapply yields_bindM; [apply barren_crawlSingleWebsite|]. intros found _.
  eapply yields_bindM; [apply barren_dateNow|]. intros endTime _.
  apply barren_logCrawlAttempt.
Qed.

End Barren.

(** X16: the crawler as it is built stores no position.  The constructor
    leaves [coreTopics] unassigned and no method assigns it, so whatever
    the database file held, whatever the sites answer and however the call
    ends, a batch run and a single crawl leave the table of positions as
    it was when the crawler was built, and the [try] block of a politician
    can only report 0 positions. *)
Theorem built_crawler_stores_no_position `{Platform} `{NodeFetch}
    (d : Database) (w : World) :
  (forall limit,
      politician_positions
        (db (fst (snd (crawlAllPoliticians limit (constructor d, w)))))
      = politician_positions d
      /\ coreTopics (fst (snd (crawlAllPoliticians limit (constructor d, w))))
         = None)
  /\ (forall politicianId,
        politician_positions
          (db (fst (snd (crawlSinglePolitician politicianId (constructor d, w)))))
        = politician_positions d)
  /\ (forall politician positionsFound,
        fst (crawlWebsite politician (constructor d, w)) = Returns positionsFound ->
        positionsFound = 0).
Proof.
  assert (Hstart : barren (politician_positions d) (constructor d, w)).
  { split; [reflexivity|]. cbn [fst db constructor].
    now destruct (initializeTopicMappings_installs d) as ((_ & Hp & _) & _). }
  split; [|split].
  - intros limit.
    destruct (barren_crawlAllPoliticians _ limit _ Hstart) as [[Hct Hrows] _].
    split; assumption.
  - intros politicianId.
    now destruct (barren_crawlSinglePolitician _ politicianId _ Hstart)
      as [[_ Hrows] _].
  - intros politician positionsFound.
    destruct (barren_crawlWebsite _ politician _ Hstart) as [_ Hn]. apply Hn.
Qed.

(** ** Topic classifier: aliases are matched as they are stored *)

Lemma lowerChar_idempotent (c : ascii) : lowerChar (lowerChar c) = lowerChar c.
Proof.
  destruct c as [b0 b1 b2 b3 b4 b5 b6 b7].
  destruct b0, b1, b2, b3, b4, b5, b6, b7; vm_compute; reflexivity.
Qed.

Lemma toLowerCase_idempotent (s : string) :
  toLowerCase (toLowerCase s) = toLowerCase s.
Proof.
  induction s as [|c s IH]; cbn [toLowerCase]; [reflexivity|].
  now rewrite lowerChar_idempotent, IH.
Qed.

Lemma toLowerCase_length (s : string) :
  String.length (toLowerCase s) = String.length s.
Proof.
  induction s as [|c s IH]; cbn [toLowerCase String.length]; [reflexivity|].
  now rewrite IH.
Qed.

Lemma string_app_inj (a a' b b' : string) :
  String.length a = String.length a' ->
  (a ++ b = a' ++ b')%string -> a = a' /\ b = b'.
Proof.
  revert a'; induction a as [|c a IH]; intros [|c' a'] Hlen Heq;
    cbn in *; try discriminate.
  - auto.
  - injection Heq as -> Heq. injection Hlen as Hlen.
    destruct (IH a' Hlen Heq) as [-> ->]. auto.
Qed.

Lemma string_app_inj_r (a a' b b' : string) :
  String.length b = String.length b' ->
  (a ++ b = a' ++ b')%string -> a = a' /\ b = b'.
Proof.
  intros Hlen Heq. apply string_app_inj; [|exact Heq].
  apply (f_equal String.length) in Heq. rewrite !string_length_app in Heq. lia.
Qed.

(** Only a lower-case string occurs in a lower-cased text. *)
Lemma includes_lower_text (text sub : string) :
  includes (toLowerCase text) sub = true -> isLowerCase sub = true.
Proof.
  intros Hin. apply includes_spec in Hin as (a & b & Heq).
  pose proof (toLowerCase_idempotent text) as Hid.
  rewrite Heq, !toLowerCase_app in Hid.
  apply string_app_inj in Hid as [_ Hid]; [|apply toLowerCase_length].
  apply string_app_inj in Hid as [Hid _]; [|apply toLowerCase_length].
  unfold isLowerCase. now apply String.eqb_eq.
Qed.

Lemma fold_left_filter_neutral {A B : Type} (f : A -> B -> A) (keep : B -> bool)
    (l : list B) (a : A) :
  (forall a x, keep x = false -> f a x = a) ->
  fold_left f (filter keep l) a = fold_left f l a.
Proof.
  intros Hf. revert a; induction l as [|x l IH]; intros a; cbn [filter fold_left];
    [reflexivity|].
  destruct (keep x) eqn:E; cbn [fold_left]; [apply IH|].
  rewrite (Hf a x E). apply IH.
Qed.

(** X17: aliases are matched as they are stored.  The classifier lowers
    the text and not the alias, so an alias that holds an upper-case letter
    occurs in no text: the topics found are those found from the lower-case
    aliases alone, whatever the other rows say, and the alias behind every
    topic found is lower-case.  The seeding stores lower-case aliases only
    (on the core topics of the code). *)
Theorem identifyTopics_ignores_mixed_case_aliases (d : Database) (text : string) :
  identifyTopics d text
  = identifyTopicsIn
      (filter (fun row => isLowerCase (row_alias row)) (allTopicAliases d)) text
  /\ (forall row, In row (allTopicAliases d) ->
        includes (toLowerCase text) (row_alias row) = true ->
        isLowerCase (row_alias row) = true)
  /\ (forall topic a, In topic coreTopicsSeed -> In a (seedAliases topic) ->
        isLowerCase a = true).
Proof.
  split; [|split].
  - unfold identifyTopics, identifyTopicsIn. symmetry.
    apply fold_left_filter_neutral. intros topics row Hrow.
    destruct (includes (toLowerCase text) (row_alias row)) eqn:E; [|reflexivity].
    apply includes_lower_text in E. congruence.
  - intros row _. apply includes_lower_text.
  - intros topic a Htopic Ha.
    assert (Hall : forallb (fun topic => forallb isLowerCase (seedAliases topic))
                           coreTopicsSeed = true) by (vm_compute; reflexivity).
    rewrite forallb_forall in Hall. specialize (Hall topic Htopic).
    rewrite forallb_forall in Hall. now apply Hall.
Qed.

(** ** Page discovery: the first topic of the map wins *)

Lemma find_first {A : Type} (p : A -> bool) (l : list A) (x : A) :
  find p l = Some x
  <-> exists before after,
        l = before ++ x :: after
        /\ p x = true
        /\ forall y, In y before -> p y = false.
Proof.
  induction l as [|y l IH]; cbn [find].
  - split; [discriminate|]. intros (before & after & Heq & _).
    destruct before; discriminate.
  - destruct (p y) eqn:E.
    + split.
      * intros [= <-]. exists [], l. repeat split; auto. intros ? [].
      * intros (before & after & Heq & Hx & Hb).
        destruct before as [|z before]; [now injection Heq as ->|].
        injection Heq as <- _. rewrite (Hb y (or_introl eq_refl)) in E.
        discriminate.
    + rewrite IH. split.
      * intros (before & after & -> & Hx & Hb). exists (y :: before), after.
        repeat split; auto. intros z [<-|Hz]; auto.
      * intros (before & after & Heq & Hx & Hb).
        destruct before as [|z before].
        -- injection Heq as -> _. congruence.
        -- injection Heq as _ ->. exists before, after.
           repeat split; auto. intros u Hu. apply Hb. now right.
Qed.

Lemma find_in_front {A : Type} (p : A -> bool) (front back : list A) :
  existsb p front = true ->
  exists x, find p (front ++ back) = Some x /\ In x front.
Proof.
  induction front as [|y front IH]; cbn [existsb app find]; [discriminate|].
  destruct (p y); [intros _; exists y; split; [reflexivity|now left]|].
  cbn [orb]. intros Hex. destruct (IH Hex) as (x & Hx & Hin).
  exists x. split; [exact Hx|now right].
Qed.

(** X18: the first topic of the map wins.  [detectTopicFromUrl] returns
    the first entry of its map one of whose keywords occurs in the
    lower-cased path and link text, and nothing when none does.  The word
    [security] is a keyword of [defense], which comes before
    [social_security] and [technology]: a link whose path or text holds
    [security] (social-security, cybersecurity) is given the topic defense
    or one of the six topics before it, never social_security or
    technology. *)
Theorem detectTopicFromUrl_first_match_wins (path linkText : string) :
  let occurs (entry : string * list string) :=
    existsb (fun keyword =>
               includes (toLowerCase (path ++ " " ++ linkText)) keyword)
            (snd entry) in
  (forall t,
      detectTopicFromUrl path linkText = Some t
      <-> exists before keywords after,
            topicMap = before ++ (t, keywords) :: after
            /\ occurs (t, keywords) = true
            /\ forall entry, In entry before -> occurs entry = false)
  /\ (detectTopicFromUrl path linkText = None
      <-> forall entry, In entry topicMap -> occurs entry = false)
  /\ (includes (toLowerCase (path ++ " " ++ linkText)) "security" = true ->
      exists t,
        detectTopicFromUrl path linkText = Some t
        /\ In t ["healthcare"; "immigration"; "economy"; "housing"; "education";
                 "environment"; "defense"]).
Proof.
  intros occurs. unfold detectTopicFromUrl. fold occurs.
  split; [|split].
  - intros t. split.
    + destruct (find occurs topicMap) as [[k ws]|] eqn:E; [|discriminate].
      intros [= <-]. apply find_first in E as (before & after & Heq & Hx & Hb).
      exists before, ws, after. auto.
    + intros (before & keywords & after & Heq & Hx & Hb).
      assert (E : find occurs topicMap = Some (t, keywords))
        by (apply find_first; exists before, after; auto).
      now rewrite E.
  - split.
    + destruct (find occurs topicMap) as [entry|] eqn:E; [discriminate|].
      intros _ entry Hin. exact (find_none _ _ E entry Hin).
    + intros Hnone. destruct (find occurs topicMap) as [entry|] eqn:E;
        [|reflexivity].
      apply find_some in E as [Hin Hp]. rewrite (Hnone entry Hin) in Hp.
      discriminate.
  - intros Hsec.
    change topicMap with (firstn 7 topicMap ++ skipn 7 topicMap).
    destruct (find_in_front occurs (firstn 7 topicMap) (skipn 7 topicMap))
      as (entry & Hfind & Hin).
    { apply existsb_exists. exists ("defense", ["defense"; "military"; "veteran";
                                                "security"]).
      split; [cbn; tauto|]. unfold occurs. cbn [snd existsb].
      rewrite Hsec. now rewrite !orb_true_r. }
    rewrite Hfind. exists (fst entry). split; [reflexivity|].
    apply (in_map fst) in Hin. exact Hin.
Qed.

(** ** Stance analyzer: a stance that is not neutral is confident *)

Lemma num_pos (n : nat) : 0 < n -> (1 <= num n)%Q.
Proof.
  intros Hn. unfold num, Qle, inject_Z. cbn. lia.
Qed.

Lemma num_nonneg (n : nat) : (0 <= num n)%Q.
Proof.
  unfold num, Qle, inject_Z. cbn. lia.
Qed.

Lemma determinePosition_floor (s o k : nat) :
  fst (determinePosition s o k) <> "neutral" ->
  (0.4 <= snd (determinePosition s o k))%Q.
Proof.
  unfold determinePosition.
  destruct (Nat.ltb_spec o s) as [Hos|Hos]; cbn [fst snd].
  { intros _. apply Q.min_glb; [discriminate|].
    pose proof (num_pos s ltac:(lia)) as Hs. pose proof (num_nonneg k) as Hk.
    lra. }
  destruct (Nat.ltb_spec s o) as [Hso|Hso]; cbn [fst snd].
  { intros _. apply Q.min_glb; [discriminate|].
    pose proof (num_pos o ltac:(lia)) as Ho. pose proof (num_nonneg k) as Hk.
    lra. }
  assert (s = o) by lia. subst o.
  destruct s as [|s]; cbn [Nat.ltb Nat.leb orb fst snd]; [intros Hn; now elim Hn|].
  intros _. apply Q.min_glb; [discriminate|].
  assert (Hn : (2 <= num (S s + S s))%Q).
  { unfold num. change 2%Q with (inject_Z 2). rewrite <- Zle_Qle. lia. }
  lra.
Qed.

(** X19: a stance that is not neutral is confident.  Whenever the stance
    analysis returns a stance other than neutral, its confidence is at
    least 0.4 (0.45 for support and oppose), so the test
    [analysis.confidence > 0.2] of [extractPolicyPositions] never rejects
    what the test on the stance lets through: a position is emitted
    exactly when the stance is not neutral and the text of the section has
    a sentence of more than 20 characters. *)
Theorem stance_confidence_test_is_implied (ct : CoreTopics) (sourceUrl : string)
    (section : Section) (topic : Topic) (a : Analysis) :
  analyzePosition ct (text section) (canonical_name topic) = Ok a ->
  (position a <> "neutral" -> (0.4 <= confidence a)%Q)
  /\ (position a = "neutral" -> (confidence a == 0.1)%Q)
  /\ ((exists p, positionOf ct sourceUrl section topic = Ok (Some p))
      <-> position a <> "neutral" /\ longSentences (text section) <> []).
Proof.
  intros Ha.
  destruct (analyzePosition_inversion _ _ _ _ Ha) as (Hpos & Hconf & _).
  assert (Hfloor : position a <> "neutral" -> (0.4 <= confidence a)%Q).
  { intros Hn. rewrite Hconf. apply determinePosition_floor. now rewrite <- Hpos. }
  split; [exact Hfloor|]. split.
  - intros Hn. rewrite Hconf. rewrite Hpos in Hn. revert Hn.
    unfold determinePosition.
    destruct (_ <? _); [discriminate|]. destruct (_ <? _); [discriminate|].
    destruct (_ || _); [discriminate|]. intros _. reflexivity.
  - assert (Hemit : forall r,
               positionOf ct sourceUrl section topic = Ok r ->
               (exists p, r = Some p)
               <-> position a <> "neutral"
                   /\ longSentences (text section) <> []).
    { intros r Hr. unfold positionOf in Hr. rewrite Ha in Hr. cbn [JS.bind] in Hr.
      destruct (String.eqb_spec (position a) "neutral") as [Heq|Hne].
      - rewrite andb_false_r in Hr. injection Hr as <-.
        split; [intros [p Hp]; discriminate|intros [Hn _]; contradiction].
      - assert (Qgtb (confidence a) 0.2%Q = true) as Hc.
        { apply Qgtb_lt. eapply Qlt_le_trans; [|apply (Hfloor Hne)]. reflexivity. }
        rewrite Hc in Hr. cbn [andb negb] in Hr.
        destruct (longSentences (text section)) as [|x l] eqn:Hs.
        + assert (Hk : keyPhrases a = []).
          { apply analyzePosition_keyPhrases in Ha as [Hk _].
            rewrite (extractKeyPhrases_no_sentence ct _ _ _ Hs) in Hk.
            congruence. }
          rewrite (extractPositionSummary_no_sentence ct _ topic a Hs Hk) in Hr.
          cbn in Hr. injection Hr as <-.
          split; [intros [p Hp]; discriminate|intros [_ Hn]; now elim Hn].
        + destruct (extractPositionSummary_long ct (text section) topic a Ha)
            as (summary & Es & Hl); [rewrite Hs; discriminate|].
          rewrite Es in Hr. cbn [JS.bind position_summary] in Hr.
          apply Nat.ltb_lt in Hl. rewrite Hl in Hr. injection Hr as <-.
          split; [intros _; split; [exact Hne|discriminate]|eauto]. }
    split.
    + intros [p Hp]. apply (Hemit _ Hp). eauto.
    + intros Hcond.
      destruct (positionOf ct sourceUrl section topic) as [r|e] eqn:Hr.
      * destruct (proj2 (Hemit r eq_refl) Hcond) as [p ->]. eauto.
      * exfalso. unfold positionOf in Hr. rewrite Ha in Hr. cbn [JS.bind] in Hr.
        destruct (_ && _); [|discriminate].
        destruct (longSentences (text section)) as [|x l] eqn:Hs;
          [now elim (proj2 Hcond)|].
        destruct (extractPositionSummary_long ct (text section) topic a Ha)
          as (summary & Es & Hl); [rewrite Hs; discriminate|].
        rewrite Es in Hr. cbn [JS.bind position_summary] in Hr.
        destruct (20 <? _); discriminate.
Qed.

(** The statement of the scenario: support, with confidence 0.7. *)
Lemma stance_confidence_test_is_implied_witness :
  exists a,
    analyzePosition Demo.keywords Demo.statement "healthcare" = Ok a
    /\ position a = "support"
    /\ (0.4 <= confidence a)%Q.
Proof.
  destruct (analyzePosition Demo.keywords Demo.statement "healthcare")
    as [a|] eqn:Ha; [|vm_compute in Ha; discriminate].
  exists a. split; [reflexivity|].
  assert (Hpos : position a = "support")
    by (vm_compute in Ha; injection Ha as <-; reflexivity).
  split; [exact Hpos|].
  apply (proj1 (stance_confidence_test_is_implied Demo.keywords Demo.homeUrl
                  {| selector := "main"; title := "Home"; text := Demo.statement;
                     isKeySection_ := true; hasStructuredContent_ := false |}
                  {| id := 1; canonical_name := "healthcare";
                     display_name := "Healthcare"; t_confidence := 0.8%Q |}
                  a Ha)).
  rewrite Hpos. discriminate.
Defined.

(** ** Content extractor: how much text a section carries *)

Lemma substring0_length_min (n : nat) (s : string) :
  String.length (substring0 n s) = Nat.min n (String.length s).
Proof.
  unfold substring0. revert s; induction n as [|n IH]; intros s.
  - destruct s; reflexivity.
  - destruct s as [|c s]; [reflexivity|].
    cbn [substring String.length]. rewrite IH. reflexivity.
Qed.

Lemma substring0_prefix (n : nat) (s : string) :
  exists rest, s = (substring0 n s ++ rest)%string.
Proof.
  unfold substring0. revert s; induction n as [|n IH]; intros s.
  - exists s. destruct s; reflexivity.
  - destruct s as [|c s]; [now exists ""|].
    destruct (IH s) as [rest Hrest]. exists rest.
    cbn [substring append]. now rewrite <- Hrest.
Qed.

Lemma findContentSections_candidates (page : Page) (s : Section) :
  In s (findContentSections page) -> In s (candidateSections page).
Proof.
  unfold findContentSections. intros Hin. apply firstn_incl in Hin.
  apply (Permutation_in _ (sort_Permutation scoreOrder _)) in Hin.
  exact (proj1 (proj2 (filterIndexed_isFirstBy head200 _)) s Hin).
Qed.

Lemma sectionOfElement_text (sel : string) (e : Element) (s : Section) :
  sectionOfElement sel e = Some s ->
  selector s = sel
  /\ text s = substring0 3000 (trim (el_text e))
  /\ isKeySection_ s = isKeySection e
  /\ hasStructuredContent_ s = hasStructuredContent e.
Proof.
  unfold sectionOfElement. destruct (_ && _); [|discriminate].
  intros [= <-]. repeat split.
Qed.

(** X20: how much text a section carries.  Every section the content
    extractor returns comes from the meta description, whose text it
    carries whole, with more than 50 characters, or from an element matched
    by one of the selectors, whose trimmed text it carries up to the first
    3000 characters: the text of such a section has more than 100 and at
    most 3000 characters, and what an element says beyond them is never
    analysed. *)
Theorem findContentSections_text_bounds (page : Page) (s : Section) :
  In s (findContentSections page) ->
  (metaSection page = Some s
   /\ metaDescription page = Some (text s)
   /\ 50 < String.length (text s))
  \/ exists sel e rest,
       In sel selectors /\ In e (select page sel)
       /\ selector s = sel
       /\ trim (el_text e) = (text s ++ rest)%string
       /\ 100 < String.length (text s) <= 3000
       /\ String.length (text s)
          = Nat.min 3000 (String.length (trim (el_text e))).
Proof.
  intros Hin. apply findContentSections_candidates in Hin.
  apply candidateSections_In in Hin as [(sel & e & Hsel & He & Hs)|Hmeta].
  - right.
    assert (Hlen : 100 < String.length (trim (el_text e)) < 5000)
      by (apply (sectionOfElement_kept sel e); eauto).
    apply sectionOfElement_text in Hs as (Hselector & Htext & _).
    destruct (substring0_prefix 3000 (trim (el_text e))) as [rest Hrest].
    exists sel, e, rest. rewrite Htext.
    split; [exact Hsel|]. split; [exact He|]. split; [exact Hselector|].
    split; [exact Hrest|].
    rewrite substring0_length_min. split; [|reflexivity].
    destruct Hlen as [Hlo _]. revert Hlo.
    generalize (String.length (trim (el_text e))). intros n Hn.
    split; [apply Nat.min_glb_lt; [|exact Hn]|apply Nat.le_min_l].
    apply Nat.ltb_lt. reflexivity.
  - left. split; [exact Hmeta|].
    destruct (proj1 (metaSection_kept page) (ex_intro _ s Hmeta)) as (d & Hd & Hl).
    unfold metaSection in Hmeta. rewrite Hd in Hmeta.
    destruct (_ && _); [|discriminate]. injection Hmeta as <-.
    cbn [text]. split; [exact Hd|exact Hl].
Qed.

(** The home page of the scenario: its section is the meta description. *)
Lemma findContentSections_text_bounds_witness :
  exists s,
    In s (findContentSections Demo.homePage)
    /\ metaDescription Demo.homePage = Some (text s)
    /\ 50 < String.length (text s).
Proof.
  assert (Hin : In {| selector := "meta[description]"; title := "Home";
                      text := Demo.statement; isKeySection_ := true;
                      hasStructuredContent_ := false |}
                   (findContentSections Demo.homePage))
    by (vm_compute; auto).
  eexists. split; [exact Hin|].
  destruct (findContentSections_text_bounds Demo.homePage _ Hin)
    as [(_ & Hd & Hl)|(sel & e & rest & _ & He & _)].
  - split; [exact Hd|exact Hl].
  - exfalso. revert He. vm_compute.
    repeat match goal with |- context [if ?b then _ else _] => destruct b end;
      intros [].
Defined.
